(** * warmthly-admin: a shallow embedding of the API handlers

    The development follows the source files of the repository:
    - [api/rate-limit.js]    the in-memory fixed-window rate limiter,
    - [api/login.js]         password check and session-token issuance,
    - [api/get-emails.js]    the authenticated list-read of stored emails,
    - [api/inbound-email.js] the signed-webhook ingestion path,
    - [api/send-email.js]    validation and hand-over of outbound email.

    JavaScript strings are sequences of UTF-16 code units, numbers that the
    handlers compute with (millisecond clocks, counters) are integers and are
    modelled in [Z].  Module-level mutable bindings ([rateLimitStore],
    [redisClient]) are threaded explicitly through the functions that touch
    them.  External collaborators (the JSON codec, the token MAC, the webhook
    verifier, the delivery provider) are the fields of the class
    [Collaborators]. *)

From Stdlib Require Import ZArith NArith List Bool Ascii String Lia.
From stdpp Require Import base decidable option list gmap pretty.
Import ListNotations.

Local Open Scope Z_scope.

(** ** JavaScript values *)

(** A string is its sequence of UTF-16 code units. *)
Abbreviation jsstring := (list N).

(** Literals of the source are ASCII; [js] spells one as code units. *)
Definition js (s : string) : jsstring :=
  map N_of_ascii (list_ascii_of_string s).

(** The values a parsed JSON body, a header or an environment variable can
    hold.  Objects keep their fields in insertion order. *)
#[warnings="-register-all"]
Inductive jsval : Type :=
  | VUndefined
  | VNull
  | VBool (b : bool)
  | VNum (n : Z)
  | VStr (s : jsstring)
  | VArr (elems : list jsval)
  | VObj (fields : list (jsstring * jsval)).

(** [ToBoolean]: what [!v], [v || d] and [if (v)] test. *)
Definition truthy (v : jsval) : bool :=
  match v with
  | VUndefined | VNull => false
  | VBool b => b
  | VNum n => negb (n =? 0)
  | VStr s => match s with [] => false | _ => true end
  | VArr _ | VObj _ => true
  end.

(** [a || b] *)
Definition js_or (a b : jsval) : jsval := if truthy a then a else b.

Definition is_undefined (v : jsval) : bool :=
  match v with VUndefined => true | _ => false end.

(** [v !== null] *)
Definition not_null (v : jsval) : bool :=
  match v with VNull => false | _ => true end.

Definition is_string (v : jsval) : bool :=
  match v with VStr _ => true | _ => false end.

Fixpoint assoc (k : jsstring) (fields : list (jsstring * jsval)) : option jsval :=
  match fields with
  | [] => None
  | (k', v) :: rest => if decide (k = k') then Some v else assoc k rest
  end.

(** [v === 'literal'] *)
Definition is_literal (v : jsval) (literal : string) : bool :=
  match v with
  | VStr s => bool_decide (s = js literal)
  | _ => false
  end.

(** Property read [v.k] on a value that is neither [null] nor [undefined]
    (the handlers guard those two before they read): a missing property, or
    any property of a primitive that the handlers ask for, is [undefined]. *)
Definition get_field (k : string) (v : jsval) : jsval :=
  match v with
  | VObj fields => default VUndefined (assoc (js k) fields)
  | _ => VUndefined
  end.

(** An environment variable is absent or a string; [!process.env.X] holds for
    an absent and for an empty one. *)
Definition env_missing (v : option jsstring) : bool :=
  match v with
  | None | Some [] => true
  | Some _ => false
  end.

(** ** String operations used by the handlers *)

(** [WhiteSpace] and [LineTerminator] code units: what [String.prototype.trim]
    strips and what [\s] matches. *)
Definition is_space (c : N) : bool :=
  ((9 <=? c) && (c <=? 13) || (c =? 32) || (c =? 160) || (c =? 5760)
   || (8192 <=? c) && (c <=? 8202) || (c =? 8232) || (c =? 8233)
   || (c =? 8239) || (c =? 8287) || (c =? 12288) || (c =? 65279))%N.

Fixpoint trim_start (s : jsstring) : jsstring :=
  match s with
  | [] => []
  | c :: rest => if is_space c then trim_start rest else s
  end.

Definition trim_end (s : jsstring) : jsstring := rev (trim_start (rev s)).

(** [s.trim()] *)
Definition trim (s : jsstring) : jsstring := trim_end (trim_start s).

(** [s.startsWith(p)] *)
Fixpoint startsWith (p s : jsstring) : bool :=
  match p, s with
  | [], _ => true
  | _ :: _, [] => false
  | a :: p', b :: s' => (a =? b)%N && startsWith p' s'
  end.

(** [s.includes(p)] *)
Fixpoint includes (p s : jsstring) : bool :=
  startsWith p s ||
  match s with
  | [] => false
  | _ :: s' => includes p s'
  end.

(** [s.split(sep)] for a one-unit separator. *)
Fixpoint split_on (sep : N) (s : jsstring) : list jsstring :=
  match s with
  | [] => [[]]
  | c :: rest =>
      if (c =? sep)%N then [] :: split_on sep rest
      else match split_on sep rest with
           | [] => [[c]]
           | piece :: pieces => (c :: piece) :: pieces
           end
  end.

(** [s.substring(0, n)] *)
Definition substring0 (n : nat) (s : jsstring) : jsstring := take n s.

(** Decimal spelling of a number inside a template literal. *)
Definition Z_to_js (n : Z) : jsstring := js (pretty n).

(** ** api/rate-limit.js *)

Module RateLimit.

(** One entry of [rateLimitStore]. *)
Record Entry := { count : Z; resetTime : Z }.

(** The [options] object: an absent field takes the default of the
    destructuring pattern in [checkRateLimit]. *)
Record Options := {
  windowMs : option Z;
  max : option Z;
  message : option jsstring }.

(** What of a request the limiter reads. *)
Record Request := {
  url : jsstring;
  x_forwarded_for : option jsstring;
  x_real_ip : option jsstring;
  remoteAddress : option jsstring }.

Record Result := {
  allowed : bool;
  remaining : Z;
  resultResetTime : Z;
  retryAfter : option Z }.

(** [Math.ceil(x / 1000)] on an integer [x]. *)
Definition ceil_div_1000 (x : Z) : Z := - ((- x) / 1000).

(** [cleanup()]: every entry whose [resetTime] lies before the clock reading
    is deleted. *)
Definition cleanup (now : Z) (store : gmap jsstring Entry) : gmap jsstring Entry :=
  filter (λ kv, ¬ (resetTime kv.2 < now)) store.

Definition nonempty (o : option jsstring) : option jsstring :=
  match o with
  | Some (c :: s) => Some (c :: s)
  | _ => None
  end.

(** The client identifier: first comma-separated piece of
    [x-forwarded-for], trimmed; else [x-real-ip]; else the socket's remote
    address; else the literal [unknown].  Each [||] skips an empty string. *)
Definition identifier (req : Request) : jsstring :=
  let forwarded :=
    match x_forwarded_for req with
    | Some h => nonempty (trim <$> head (split_on 44%N h))
    | None => None
    end in
  match forwarded with
  | Some i => i
  | None =>
      match nonempty (x_real_ip req) with
      | Some i => i
      | None => default (js "unknown") (nonempty (remoteAddress req))
      end
  end.

Definition key (req : Request) : jsstring := identifier req ++ js ":" ++ url req.

Definition windowMs_of (o : Options) : Z := default (15 * 60 * 1000) (windowMs o).
Definition max_of (o : Options) : Z := default 100 (max o).

(** [checkRateLimit(req, options)].  The source reads the clock twice: once
    inside [cleanup()] ([now_cleanup]) and once for the check itself ([now]).
    The store is the module-level [Map]; the function returns the result and
    the store it leaves behind. *)
Definition checkRateLimit (now_cleanup now : Z) (req : Request) (options : Options)
    (store : gmap jsstring Entry) : Result * gmap jsstring Entry :=
  let windowMs := windowMs_of options in
  let max := max_of options in
  let store := cleanup now_cleanup store in
  let key := key req in
  match store !! key with
  | Some record =>
      if decide (resetTime record < now) then
        let record := {| count := 1; resetTime := now + windowMs |} in
        ({| allowed := true; remaining := max - 1;
            resultResetTime := resetTime record; retryAfter := None |},
         <[key := record]> store)
      else if decide (max ≤ count record) then
        ({| allowed := false; remaining := 0;
            resultResetTime := resetTime record;
            retryAfter := Some (ceil_div_1000 (resetTime record - now)) |},
         store)
      else
        let record := {| count := count record + 1; resetTime := resetTime record |} in
        ({| allowed := true; remaining := max - count record;
            resultResetTime := resetTime record; retryAfter := None |},
         <[key := record]> store)
  | None =>
      ({| allowed := true; remaining := max - 1;
          resultResetTime := now + windowMs; retryAfter := None |},
       <[key := {| count := 1; resetTime := now + windowMs |}]> store)
  end.

(** A run of requests of one caller on one route: each element of [clock]
    is the pair of clock readings of one call. *)
Fixpoint requests (clock : list (Z * Z)) (req : Request) (options : Options)
    (store : gmap jsstring Entry) : list Result * gmap jsstring Entry :=
  match clock with
  | [] => ([], store)
  | (now_cleanup, now) :: later =>
      let '(r, store) := checkRateLimit now_cleanup now req options store in
      let '(rs, store) := requests later req options store in
      (r :: rs, store)
  end.

(** The pre-configured limits. *)
Definition loginRateLimitOptions : Options :=
  {| windowMs := Some (15 * 60 * 1000); max := Some 5;
     message := Some (js "Too many login attempts, please try again later.") |}.

Definition emailRateLimitOptions : Options :=
  {| windowMs := Some (60 * 60 * 1000); max := Some 10;
     message := Some (js "Too many email requests, please try again later.") |}.

Definition apiRateLimitOptions : Options :=
  {| windowMs := Some (15 * 60 * 1000); max := Some 100;
     message := Some (js "Too many requests, please try again later.") |}.

End RateLimit.

(** ** api/login.js: the password check *)

Module Credentials.

Definition is_high_surrogate (u : N) : bool := ((55296 <=? u) && (u <=? 56319))%N.
Definition is_low_surrogate (u : N) : bool := ((56320 <=? u) && (u <=? 57343))%N.

(** UTF-8 bytes of one code point. *)
Definition utf8_of_code_point (c : N) : list N :=
  (if c <? 128 then [c]
   else if c <? 2048 then [192 + c / 64; 128 + c mod 64]
   else if c <? 65536 then [224 + c / 4096; 128 + (c / 64) mod 64; 128 + c mod 64]
   else [240 + c / 262144; 128 + (c / 4096) mod 64; 128 + (c / 64) mod 64;
         128 + c mod 64])%N.

(** U+FFFD, which the encoder writes for a surrogate without its partner. *)
Definition replacement : list N := [239; 191; 189]%N.

(** [Buffer.from(s, 'utf8')]: the bytes of [s]. *)
Fixpoint Buffer_from_utf8 (s : jsstring) : list N :=
  match s with
  | [] => []
  | u :: rest =>
      if is_high_surrogate u then
        match rest with
        | l :: rest' =>
            if is_low_surrogate l
            then utf8_of_code_point (65536 + (u - 55296) * 1024 + (l - 56320))%N
                   ++ Buffer_from_utf8 rest'
            else replacement ++ Buffer_from_utf8 rest
        | [] => replacement
        end
      else if is_low_surrogate u then replacement ++ Buffer_from_utf8 rest
      else utf8_of_code_point u ++ Buffer_from_utf8 rest
  end.

(** The accumulator of a comparison that looks at every byte pair: the
    bitwise or of the pairwise exclusive ors. *)
Fixpoint diff_bits (a b : list N) (acc : N) : N :=
  match a, b with
  | x :: a', y :: b' => diff_bits a' b' (N.lor acc (N.lxor x y))
  | _, _ => acc
  end.

(** [crypto.timingSafeEqual(a, b)]: raises (here [None]) when the two buffers
    differ in byte length, otherwise tells whether all bytes agree. *)
Definition timingSafeEqual (a b : list N) : option bool :=
  if decide (length a = length b) then Some (diff_bits a b 0 =? 0)%N else None.

(** [constantTimeCompare(a, b)].  An argument is a string, or [None] for
    [null]/[undefined]; [!a] also holds for the empty string.  The [try]
    turns a raise of the comparison into [false]. *)
Definition constantTimeCompare (a b : option jsstring) : bool :=
  match a, b with
  | Some ((_ :: _) as a), Some ((_ :: _) as b) =>
      if decide (length a ≠ length b) then false
      else match timingSafeEqual (Buffer_from_utf8 a) (Buffer_from_utf8 b) with
           | Some r => r
           | None => false
           end
  | _, _ => false
  end.

(** A string of code units in which every surrogate is one half of a pair. *)
Fixpoint well_formed (s : jsstring) : bool :=
  match s with
  | [] => true
  | u :: rest =>
      if is_high_surrogate u then
        match rest with
        | l :: rest' => is_low_surrogate l && well_formed rest'
        | [] => false
        end
      else if is_low_surrogate u then false
      else (u <? 65536)%N && well_formed rest
  end.

End Credentials.

(** ** Errors, responses, configuration *)

(** The error classes the handlers tell apart. *)
Inductive ErrorClass := PlainError | TypeError | JsonWebTokenError | TokenExpiredError.

Record JsError := { errClass : ErrorClass; errMessage : jsstring }.

(** [e instanceof C]: the token library derives [TokenExpiredError] from
    [JsonWebTokenError]; every class derives from [Error]. *)
Definition instanceof (e : JsError) (c : ErrorClass) : bool :=
  match c, errClass e with
  | PlainError, _ => true
  | TypeError, TypeError => true
  | JsonWebTokenError, (JsonWebTokenError | TokenExpiredError) => true
  | TokenExpiredError, TokenExpiredError => true
  | _, _ => false
  end.

(** A computation that returns or throws. *)
Inductive outcome (A : Type) : Type :=
  | Ok (a : A)
  | Throw (e : JsError).
Arguments Ok {A} a.
Arguments Throw {A} e.

Definition new_Error (msg : string) : JsError :=
  {| errClass := PlainError; errMessage := js msg |}.

Record Response := { status : Z; body : jsval }.

(** [res.status(code).json({ error: msg })] *)
Definition error_response (code : Z) (msg : string) : Response :=
  {| status := code; body := VObj [(js "error", VStr (js msg))] |}.

(** [process.env] *)
Record Env := {
  REDIS_URL : option jsstring;
  JWT_SECRET : option jsstring;
  ADMIN_PASSWORD : option jsstring;
  RESEND_API_KEY : option jsstring;
  RESEND_WEBHOOK_SECRET : option jsstring;
  NODE_ENV : option jsstring }.

(** The [details] field of a 500 response: the error message in development
    mode, left out otherwise. *)
Definition details_field (env : Env) (e : JsError) : list (jsstring * jsval) :=
  if decide (NODE_ENV env = Some (js "development"))
  then [(js "details", VStr (errMessage e))] else [].

(** ** Session tokens *)

(** A signed token: the claims, the issue and expiry times in seconds, and
    the signature. *)
Record Token := {
  claims : jsval;
  iat : Z;
  exp : option Z;
  signature : jsstring }.

(** A message handed to the delivery provider. *)
Record OutboundMessage := {
  msgFrom : jsstring;
  msgTo : list jsstring;
  msgSubject : jsstring;
  msgHtml : jsstring }.

(** What [resend.emails.send] resolves to (the pair [{ data, error }]), or
    that it throws. *)
Inductive SendOutcome :=
  | Resolved (data error : jsval)
  | SendThrows (e : JsError).

(** The signed envelope of a webhook delivery. *)
Record Envelope := {
  svix_id : option jsstring;
  svix_timestamp : option jsstring;
  svix_signature : option jsstring }.

(** ** External collaborators

    The libraries the handlers call and that lie outside the repository.
    [None] stands for a raise. *)
Class Collaborators := {
  (** [JSON.parse]: [None] is a [SyntaxError]. *)
  JSON_parse : jsstring → option jsval;
  JSON_stringify : jsval → jsstring;
  (** [new Date(ms).toISOString()] *)
  toISOString : Z → jsstring;
  (** The MAC of a token's content under a secret. *)
  token_mac : jsstring → jsval → Z → option Z → jsstring;
  (** The compact serialisation of a token and its reading. *)
  token_encode : Token → jsstring;
  token_decode : jsstring → option Token;
  (** [resend.webhooks.verify]: the verified event, or a raise. *)
  webhooks_verify : list N → Envelope → jsstring → option jsval;
  (** [resend.emails.send] *)
  emails_send : OutboundMessage → SendOutcome;
  (** [Buffer.from(v)] on an array-like that is not an array of numbers:
      the runtime converts each entry with [ToNumber], or raises. *)
  Buffer_from_array_like : jsval → option (list N) }.

(** ** api/rate-limit.js: the wrapper *)

Module Governor.
Section Governor.
Context `{Collaborators}.
Import RateLimit.

(** [options.max || 100] *)
Definition limit_header (options : Options) : Z :=
  match max options with
  | Some 0 | None => 100
  | Some m => m
  end.

(** [options.message || 'Too many requests, please try again later.'] *)
Definition limit_message (options : Options) : jsstring :=
  match message options with
  | Some ((_ :: _) as m) => m
  | _ => js "Too many requests, please try again later."
  end.

(** [withRateLimit(handler, options)] after [checkRateLimit] has answered
    [result]: the headers that are set, and either the 429 or the wrapped
    handler's own result. *)
Definition withRateLimit {T : Type} (handler : T) (options : Options) (result : Result)
    : list (jsstring * jsval) * (Response + T) :=
  let limits :=
    [(js "X-RateLimit-Limit", VNum (limit_header options));
     (js "X-RateLimit-Remaining", VNum (remaining result));
     (js "X-RateLimit-Reset", VStr (toISOString (resultResetTime result)))] in
  if negb (allowed result) then
    (limits ++ [(js "Retry-After",
                 match retryAfter result with Some s => VNum s | None => VUndefined end)],
     inl {| status := 429;
            body := VObj [(js "error", VStr (limit_message options))] |})
  else (limits, inr handler).

(** The function that [withRateLimit(handler, options)] returns, applied to
    a request: the check on the module's store, then the headers and the
    429 or the handler.  [handler] is what the wrapped handler would answer;
    it is only looked at when the request is allowed. *)
Definition limited {T : Type} (handler : T) (now_cleanup now : Z) (req : Request)
    (options : Options) (store : gmap jsstring Entry)
    : list (jsstring * jsval) * (Response + T) * gmap jsstring Entry :=
  let '(result, store) := checkRateLimit now_cleanup now req options store in
  (withRateLimit handler options result, store).

End Governor.
End Governor.

(** The token library ([jsonwebtoken]) as its documentation describes it:
    [iat] and [exp] are whole seconds, [sign] stamps [iat] with the clock
    and adds the span of [expiresIn], [verify] checks the signature and then
    refuses a token once the clock in whole seconds has reached [exp]. *)

Module Jwt.
Section Jwt.
Context `{Collaborators}.

Definition jwt_expired : JsError :=
  {| errClass := TokenExpiredError; errMessage := js "jwt expired" |}.

(** [ms('8h') / 1000]: the span of the [expiresIn] option in seconds. *)
Definition eight_hours : Z := 8 * 60 * 60.

(** [jwt.sign(payload, secret, { expiresIn })] at clock reading [now]
    (milliseconds): the issue time is the clock in whole seconds. *)
Definition sign_token (now : Z) (payload : jsval) (secret : jsstring) (expiresIn : Z) : Token :=
  let issued := now / 1000 in
  {| claims := payload; iat := issued; exp := Some (issued + expiresIn);
     signature := token_mac secret payload issued (Some (issued + expiresIn)) |}.

Definition sign (now : Z) (payload : jsval) (secret : jsstring) (expiresIn : Z) : jsstring :=
  token_encode (sign_token now payload secret expiresIn).

(** The checks of [jwt.verify] on a decoded token: signature first, then
    expiry against the clock in whole seconds. *)
Definition verify_token (now : Z) (t : Token) (secret : jsstring) : outcome Token :=
  if decide (signature t = token_mac secret (claims t) (iat t) (exp t)) then
    match exp t with
    | Some e =>
        if decide (e ≤ now / 1000)
        then Throw jwt_expired
        else Ok t
    | None => Ok t
    end
  else Throw {| errClass := JsonWebTokenError; errMessage := js "invalid signature" |}.

(** [jwt.verify(token, secret)] *)
Definition verify (now : Z) (token : jsstring) (secret : jsstring) : outcome Token :=
  match token with
  | [] => Throw {| errClass := JsonWebTokenError; errMessage := js "jwt must be provided" |}
  | _ =>
      match token_decode token with
      | None => Throw {| errClass := JsonWebTokenError; errMessage := js "jwt malformed" |}
      | Some t => verify_token now t secret
      end
  end.

End Jwt.
End Jwt.

(** ** api/login.js: the handler *)

Module Login.
Section Login.
Context `{Collaborators}.

(** [req.body] is the JSON value the platform parsed, [undefined] when the
    request has none. *)
Record Request := { method : jsstring; reqBody : jsval }.

(** [a.length] on a truthy value: the units of a string, the entries of an
    array, the property of an object; a number or a boolean has none. *)
Definition length_of (a : jsval) : jsval :=
  match a with
  | VStr s => VNum (Z.of_nat (length s))
  | VArr entries => VNum (Z.of_nat (length entries))
  | VObj _ => get_field "length" a
  | _ => VUndefined
  end.

(** [v === n] for a number [n]. *)
Definition is_number (v : jsval) (n : Z) : bool :=
  match v with
  | VNum m => m =? n
  | _ => false
  end.

(** The bytes of an array of numbers: each entry modulo 256. *)
Fixpoint bytes_of (entries : list jsval) : option (list N) :=
  match entries with
  | [] => Some []
  | VNum n :: rest =>
      match bytes_of rest with
      | Some bytes => Some (Z.to_N (n mod 256) :: bytes)
      | None => None
      end
  | _ => None
  end.

(** [Buffer.from(a, 'utf8')]: the UTF-8 bytes of a string, the entries of an
    array of numbers as bytes; [None] is a raise. *)
Definition Buffer_from (a : jsval) : option (list N) :=
  match a with
  | VStr s => Some (Credentials.Buffer_from_utf8 s)
  | VArr entries =>
      match bytes_of entries with
      | Some bytes => Some bytes
      | None => Buffer_from_array_like a
      end
  | _ => Buffer_from_array_like a
  end.

(** [constantTimeCompare(a, b)] as the handler calls it: [a] is whatever the
    body holds under [password], [b] the configured string.  The function
    does not ask whether [a] is a string. *)
Definition constantTimeCompare (a : jsval) (b : jsstring) : bool :=
  if negb (truthy a) || negb (truthy (VStr b)) then false
  else if negb (is_number (length_of a) (Z.of_nat (length b))) then false
  else
    match Buffer_from a with
    | Some bytes =>
        match Credentials.timingSafeEqual bytes (Credentials.Buffer_from_utf8 b) with
        | Some r => r
        | None => false
        end
    | None => false
    end.

(** What [const { password } = req.body] raises on a missing body. *)
Definition cannot_destructure (v : string) : JsError :=
  {| errClass := TypeError;
     errMessage := js "Cannot destructure property 'password' of 'req.body' as it is "
                   ++ js v ++ js "." |}.

(** The handler has no [try]: a raise rejects the promise it returns. *)
Definition loginHandler (now : Z) (env : Env) (req : Request) : outcome Response :=
  if decide (method req ≠ js "POST") then Ok (error_response 405 "Method Not Allowed")
  else
    match reqBody req with
    | VUndefined => Throw (cannot_destructure "undefined")
    | VNull => Throw (cannot_destructure "null")
    | body =>
        let password := get_field "password" body in
        match ADMIN_PASSWORD env with
        | Some ((_ :: _) as adminPassword) =>
            if constantTimeCompare (js_or password (VStr [])) adminPassword
            then
              match JWT_SECRET env with
              | Some ((_ :: _) as jwtSecret) =>
                  let token :=
                    Jwt.sign now (VObj [(js "user", VStr (js "admin"))]) jwtSecret
                      Jwt.eight_hours in
                  Ok {| status := 200; body := VObj [(js "token", VStr token)] |}
              | _ => Ok (error_response 500 "Authentication system not configured.")
              end
            else Ok (error_response 401 "Incorrect password")
        | _ => Ok (error_response 500 "Admin password not configured.")
        end
    end.

End Login.
End Login.

(** ** The list store *)

Module Redis.

(** The client object: [isOpen] is what the accessor looks at. *)
Record Client := { clientUrl : jsstring; isOpen : bool }.

(** What the server holds at the key [emails]. *)
Inductive KeyState :=
  | NoKey
  | ListKey (entries : list jsstring)
  | OtherKey.

(** The server as a handler meets it: the value at [emails], whether
    [connect()] settles with an error, and whether commands fail for a reason
    of the connection. *)
Record Server := {
  emails : KeyState;
  connectError : option JsError;
  commandError : option JsError }.

Definition wrongtype : JsError :=
  new_Error "WRONGTYPE Operation against a key holding the wrong kind of value".

(** What the list at [emails] holds; nothing when there is no list. *)
Definition entries_of (srv : Server) : list jsstring :=
  match emails srv with
  | ListKey entries => entries
  | _ => []
  end.

(** [client.lRange('emails', 0, 99)] *)
Definition lRange_0_99 (srv : Server) : outcome (list jsstring) :=
  match commandError srv with
  | Some e => Throw e
  | None =>
      match emails srv with
      | NoKey => Ok []
      | ListKey entries => Ok (take 100 entries)
      | OtherKey => Throw wrongtype
      end
  end.

(** [client.lPush('emails', x)]: the new length and the server afterwards. *)
Definition lPush (x : jsstring) (srv : Server) : outcome (Z * Server) :=
  match commandError srv with
  | Some e => Throw e
  | None =>
      let store entries :=
        Ok (Z.of_nat (length entries),
            {| emails := ListKey entries; connectError := connectError srv;
               commandError := commandError srv |}) in
      match emails srv with
      | NoKey => store [x]
      | ListKey entries => store (x :: entries)
      | OtherKey => Throw wrongtype
      end
  end.

(** What the [reconnectStrategy] option answers: a delay in milliseconds, or
    an error that ends the reconnection. *)
Inductive Reconnect :=
  | RetryIn (ms : Z)
  | GiveUp (e : JsError).

Definition reconnectStrategy (retries : Z) : Reconnect :=
  if decide (3 < retries) then GiveUp (new_Error "Redis reconnection failed")
  else RetryIn (Z.min (retries * 100) 3000).

(** How a [connect()] ends: connected at some attempt, or abandoned. *)
Inductive Connect :=
  | Connected (attempts : nat) (waited : list Z)
  | Abandoned (attempts : nat) (waited : list Z) (e : JsError).

(** The client's connection loop under a strategy: attempt number [retries]
    (counted from zero) either succeeds, or the strategy is asked with
    [retries] and the loop waits and goes on, or ends.  [accepts i] tells
    whether attempt [i] succeeds.  [None]: the loop has not ended within
    [fuel] attempts. *)
Fixpoint connect_loop (fuel : nat) (accepts : nat → bool) (retries : nat)
    (waited : list Z) : option Connect :=
  match fuel with
  | O => None
  | S fuel =>
      if accepts retries then Some (Connected (S retries) waited)
      else match reconnectStrategy (Z.of_nat retries) with
           | GiveUp e => Some (Abandoned (S retries) waited e)
           | RetryIn ms => connect_loop fuel accepts (S retries) (waited ++ [ms])
           end
  end.

(** [getRedisClient()], the same in [get-emails.js] and [inbound-email.js]
    (each file has a [redisClient] binding of its own).  Takes the cached
    binding and returns the client or the raise, and the binding afterwards. *)
Definition getRedisClient (env : Env) (srv : Server) (redisClient : option Client)
    : outcome Client * option Client :=
  match redisClient with
  | Some {| clientUrl := u; isOpen := true |} =>
      (Ok {| clientUrl := u; isOpen := true |}, redisClient)
  | _ =>
      match REDIS_URL env with
      | Some ((_ :: _) as url) =>
          let created := {| clientUrl := url; isOpen := false |} in
          if negb (isOpen created) then
            match connectError srv with
            | None =>
                let connected := {| clientUrl := url; isOpen := true |} in
                (Ok connected, Some connected)
            | Some e => (Throw e, None)
            end
          else (Ok created, Some created)
      | _ => (Throw (new_Error "REDIS_URL is not configured"), redisClient)
      end
  end.

End Redis.

(** ** Regular expressions

    The patterns of [send-email.js] are anchored at both ends ([^] ... [$],
    no [m] flag), so [pattern.test(s)] asks whether the whole of [s] is in
    the pattern's language.  The matcher is by derivatives. *)

Module Regex.

Inductive atom :=
  | AChar (c : N)
  | ASpace.

(** One position of a pattern. *)
Inductive cclass :=
  | One (a : atom)
  (** a literal under the [i] flag *)
  | OneI (c : N)
  (** a negated class [[^...]] *)
  | NoneOf (atoms : list atom).

Inductive regex :=
  | Void
  | Eps
  | Chr (k : cclass)
  | Seq (r1 r2 : regex)
  | Alt (r1 r2 : regex)
  | Star (r : regex).

Definition Plus (r : regex) : regex := Seq r (Star r).
Definition Opt (r : regex) : regex := Alt r Eps.

Definition atom_matches (a : atom) (c : N) : bool :=
  match a with
  | AChar x => (x =? c)%N
  | ASpace => is_space c
  end.

(** Case folding of the [i] flag without the [u] flag: a code unit outside
    ASCII never folds onto an ASCII one, so against the ASCII literals of
    the patterns only the two ASCII cases of a letter match. *)
Definition fold_case (c : N) : N :=
  if ((97 <=? c) && (c <=? 122))%N then (c - 32)%N else c.

Definition class_matches (k : cclass) (c : N) : bool :=
  match k with
  | One a => atom_matches a c
  | OneI x => (fold_case x =? fold_case c)%N
  | NoneOf atoms => negb (existsb (λ a, atom_matches a c) atoms)
  end.

Fixpoint nullable (r : regex) : bool :=
  match r with
  | Void => false
  | Eps => true
  | Chr _ => false
  | Seq r1 r2 => nullable r1 && nullable r2
  | Alt r1 r2 => nullable r1 || nullable r2
  | Star _ => true
  end.

Fixpoint deriv (c : N) (r : regex) : regex :=
  match r with
  | Void | Eps => Void
  | Chr k => if class_matches k c then Eps else Void
  | Seq r1 r2 =>
      if nullable r1 then Alt (Seq (deriv c r1) r2) (deriv c r2)
      else Seq (deriv c r1) r2
  | Alt r1 r2 => Alt (deriv c r1) (deriv c r2)
  | Star r1 => Seq (deriv c r1) (Star r1)
  end.

(** [/^r$/.test(s)] *)
Fixpoint test (r : regex) (s : jsstring) : bool :=
  match s with
  | [] => nullable r
  | c :: rest => test (deriv c r) rest
  end.

Definition seq_all (rs : list regex) : regex := foldr Seq Eps rs.

(** A literal run of a pattern that carries the [i] flag. *)
Definition lit_i (s : string) : regex := seq_all ((λ c, Chr (OneI c)) <$> js s).

Definition lit (s : string) : regex := seq_all ((λ c, Chr (One (AChar c))) <$> js s).

Definition spaces : regex := Star (Chr (One ASpace)).

(** The language of a pattern. *)
Inductive lang : regex → jsstring → Prop :=
  | lang_eps : lang Eps []
  | lang_chr k c : class_matches k c = true → lang (Chr k) [c]
  | lang_seq r1 r2 s1 s2 : lang r1 s1 → lang r2 s2 → lang (Seq r1 r2) (s1 ++ s2)
  | lang_alt_l r1 r2 s : lang r1 s → lang (Alt r1 r2) s
  | lang_alt_r r1 r2 s : lang r2 s → lang (Alt r1 r2) s
  | lang_star_nil r : lang (Star r) []
  | lang_star_cons r s1 s2 : lang r s1 → lang (Star r) s2 → lang (Star r) (s1 ++ s2).

End Regex.

(** ** api/send-email.js *)

Module SendEmail.
Import Regex.

(** The five patterns of [emptyPatterns], in the order of the source. *)
Definition emptyPatterns : list regex := [
  (* /^<p>\s*<\/p>$/i *)
  seq_all [lit_i "<p>"; spaces; lit_i "</p>"];
  (* /^<p><br\s*\/?><\/p>$/i *)
  seq_all [lit_i "<p><br"; spaces; Opt (lit_i "/"); lit_i "></p>"];
  (* /^<p>\s*<br\s*\/?>\s*<\/p>$/i *)
  seq_all [lit_i "<p>"; spaces; lit_i "<br"; spaces; Opt (lit_i "/"); lit_i ">";
           spaces; lit_i "</p>"];
  (* /^<p>&nbsp;<\/p>$/i *)
  lit_i "<p>&nbsp;</p>";
  (* /^<p>\s*&nbsp;\s*<\/p>$/i *)
  seq_all [lit_i "<p>"; spaces; lit_i "&nbsp;"; spaces; lit_i "</p>"] ].

Definition isEmptyHTML (html : jsval) : bool :=
  match html with
  | VStr html =>
      let trimmed := trim html in
      match trimmed with
      | [] => true
      | _ => existsb (λ pattern, test pattern trimmed) emptyPatterns
      end
  | _ => true
  end.

(** [[^\s@]] *)
Definition address_unit : cclass := NoneOf [ASpace; AChar 64%N].

(** [/^[^\s@]+@[^\s@]+\.[^\s@]+$/] *)
Definition emailRegex : regex :=
  seq_all [Plus (Chr address_unit); lit "@"; Plus (Chr address_unit); lit ".";
           Plus (Chr address_unit)].

Definition isValidEmail (email : jsval) : bool :=
  match email with
  | VStr ((_ :: _) as email) => test emailRegex (trim email)
  | _ => false
  end.

Section Handler.
Context `{Collaborators}.

Record Request := { method : jsstring; reqBody : jsval }.

(** [res.status(code).json({ error: { message } })] *)
Definition message_response (code : Z) (message : jsval) : Response :=
  {| status := code; body := VObj [(js "error", VObj [(js "message", message)])] |}.

Definition say (code : Z) (message : string) : Response :=
  message_response code (VStr (js message)).

(** [!subject || typeof subject !== 'string' || !subject.trim()] *)
Definition subject_missing (subject : jsval) : bool :=
  match subject with
  | VStr subject => match trim subject with [] => true | _ => false end
  | _ => true
  end.

(** The handler's answer, and the message it handed to the provider, if it
    got that far.  A raise inside the [try] (a body that is [null] or
    [undefined], a raise of the provider call) is answered by the [catch]. *)
Definition sendEmailHandler (env : Env) (req : Request)
    : Response * option OutboundMessage :=
  let internal := say 500 "Internal Server Error. Please try again later." in
  if decide (method req ≠ js "POST") then (say 405 "Method Not Allowed", None)
  else if env_missing (RESEND_API_KEY env)
  then (say 500 "Email service is not configured. Please contact the administrator.", None)
  else
    match reqBody req with
    | VUndefined | VNull => (internal, None)
    | body =>
        let to := get_field "to" body in
        let subject := get_field "subject" body in
        let html := get_field "html" body in
        if negb (truthy to) || negb (is_string to)
        then (say 400 "Recipient email address is required.", None)
        else if negb (isValidEmail to)
        then (say 400 "Invalid email address format.", None)
        else if subject_missing subject
        then (say 400 "Email subject is required.", None)
        else if isEmptyHTML html
        then (say 400 "Email body cannot be empty.", None)
        else
          match to, subject, html with
          | VStr to, VStr subject, VStr html =>
              let sanitizedSubject := substring0 200 (trim subject) in
              let outgoing :=
                {| msgFrom := js "The Warmthly Desk <desk@warmthly.org>";
                   msgTo := [trim to];
                   msgSubject := sanitizedSubject;
                   msgHtml := html |} in
              (match emails_send outgoing with
               | Resolved data error =>
                   if truthy error then
                     message_response 400
                       (js_or (get_field "message" error)
                          (VStr (js "Failed to send email. Please try again.")))
                   else
                     {| status := 200;
                        body := VObj [(js "message", VStr (js "Email sent successfully!"));
                                      (js "data", data)] |}
               | SendThrows _ => internal
               end, Some outgoing)
          | _, _, _ => (internal, None)
          end
    end.

End Handler.

(** The positions a pattern is built from. *)
Fixpoint classes (r : regex) : list cclass :=
  match r with
  | Void | Eps => []
  | Chr k => [k]
  | Seq r1 r2 | Alt r1 r2 => classes r1 ++ classes r2
  | Star r1 => classes r1
  end.

(** The characters of the markup that [emptyPatterns] spell out. *)
Definition markup_alphabet : jsstring := js "<>/pbr&ns;".

(** A code unit that an empty-looking body can consist of: white space, or
    one of the markup characters in either case. *)
Definition markup_unit (c : N) : bool :=
  is_space c || existsb (λ x, (fold_case x =? fold_case c)%N) markup_alphabet.

Definition markup_class (k : cclass) : bool :=
  match k with
  | One ASpace => true
  | OneI x => existsb (N.eqb x) markup_alphabet
  | _ => false
  end.

End SendEmail.

(** ** api/get-emails.js *)

Module GetEmails.
Section Handler.
Context `{Collaborators}.

Record Request := { method : jsstring; authorization : option jsstring }.

(** The [try ... catch (kvError)] around the range read: a raise whose
    message names a wrong type or a missing key reads as the empty list. *)
Definition fetch (srv : Redis.Server) : outcome (list jsstring) :=
  match Redis.lRange_0_99 srv with
  | Ok emails => Ok emails
  | Throw kvError =>
      if includes (js "WRONGTYPE") (errMessage kvError)
         || includes (js "no such key") (errMessage kvError)
      then Ok []
      else Throw kvError
  end.

(** [JSON.parse] under its [try], a raise giving [null]. *)
Definition parse_or_null (email : jsstring) : jsval :=
  default VNull (JSON_parse email).

(** [emails.map(parse).filter(email => email !== null)] *)
Definition parsedEmails (emails : list jsstring) : list jsval :=
  List.filter not_null (parse_or_null <$> emails).

(** [authHeader.split(' ')[1]] *)
Definition bearer (authHeader : jsstring) : jsstring :=
  default [] (split_on 32%N authHeader !! 1%nat).

(** The outer [catch]. *)
Definition on_error (env : Env) (error : JsError) : Response :=
  if instanceof error JsonWebTokenError then error_response 401 "Invalid token."
  else if instanceof error TokenExpiredError
  then error_response 401 "Token expired. Please log in again."
  else if includes (js "REDIS") (errMessage error)
  then {| status := 500;
          body := VObj ((js "error",
                         VStr (js "Database connection error. Please check REDIS_URL configuration."))
                        :: details_field env error) |}
  else {| status := 500;
          body := VObj ((js "error", VStr (js "Failed to fetch emails."))
                        :: details_field env error) |}.

(** [getEmailsHandler(req, res)] at clock reading [now]: the response, and
    the file's [redisClient] binding afterwards. *)
Definition getEmailsHandler (now : Z) (env : Env) (srv : Redis.Server)
    (redisClient : option Redis.Client) (req : Request)
    : Response * option Redis.Client :=
  if decide (method req ≠ js "GET")
  then (error_response 405 "Method Not Allowed", redisClient)
  else
    match authorization req with
    | Some ((_ :: _) as authHeader) =>
        if negb (startsWith (js "Bearer ") authHeader)
        then (error_response 401 "Authentication required.", redisClient)
        else
          let token := bearer authHeader in
          match JWT_SECRET env with
          | Some ((_ :: _) as jwtSecret) =>
              match Jwt.verify now token jwtSecret with
              | Throw error => (on_error env error, redisClient)
              | Ok _ =>
                  match Redis.getRedisClient env srv redisClient with
                  | (Throw error, redisClient) => (on_error env error, redisClient)
                  | (Ok client, redisClient) =>
                      match fetch srv with
                      | Throw error => (on_error env error, redisClient)
                      | Ok emails =>
                          let reversedEmails := rev (parsedEmails emails) in
                          ({| status := 200; body := VArr reversedEmails |}, redisClient)
                      end
                  end
              end
          | _ => (error_response 500 "Authentication system not configured.", redisClient)
          end
    | _ => (error_response 401 "Authentication required.", redisClient)
    end.

(** The request carries a bearer token that [jwt.verify] accepts at [now]
    under the configured secret. *)
Definition signed_in (now : Z) (env : Env) (req : Request) : Prop :=
  ∃ authHeader jwtSecret token,
    method req = js "GET" ∧
    authorization req = Some authHeader ∧
    startsWith (js "Bearer ") authHeader = true ∧
    JWT_SECRET env = Some jwtSecret ∧ jwtSecret ≠ [] ∧
    Jwt.verify now (bearer authHeader) jwtSecret = Ok token.

(** What the range read finds at the key. *)
Definition stored (srv : Redis.Server) : list jsstring :=
  match Redis.emails srv with
  | Redis.ListKey entries => take 100 entries
  | _ => []
  end.

(** An entry that deserialises to a record. *)
Definition valid (entry : jsstring) : Prop :=
  ∃ v, JSON_parse entry = Some v ∧ not_null v = true.

End Handler.
End GetEmails.

(** ** api/inbound-email.js *)

Module InboundEmail.
Section Handler.
Context `{Collaborators}.

(** The request: the raw body as the stream delivers it (or the stream's
    error), the framework's parsed [req.body], and the envelope headers. *)
Record Request := {
  method : jsstring;
  rawStream : outcome (list N);
  parsedBody : jsval;
  envelope : Envelope }.

(** The raw body, with the fallback to the parsed one. *)
Definition rawBody (req : Request) : outcome (list N) :=
  match rawStream req with
  | Ok bytes => Ok bytes
  | Throw _ =>
      if truthy (parsedBody req)
      then Ok (Credentials.Buffer_from_utf8 (JSON_stringify (parsedBody req)))
      else Throw (new_Error "Could not get request body")
  end.

(** The record that is stored, at clock reading [now]. *)
Definition emailToStore (now : Z) (emailData : jsval) : jsval :=
  VObj [
    (js "id", js_or (get_field "email_id" emailData) (VStr (js "email-" ++ Z_to_js now)));
    (js "from", js_or (get_field "from" emailData) (VStr (js "Unknown")));
    (js "to", js_or (get_field "to" emailData) (VStr (js "Unknown")));
    (js "subject", js_or (get_field "subject" emailData) (VStr (js "(No Subject)")));
    (js "receivedAt", js_or (get_field "created_at" emailData) (VStr (toISOString now)))
  ].

(** [res.status(200).json({ message: 'Webhook processed successfully.' })] *)
Definition processed : Response :=
  {| status := 200;
     body := VObj [(js "message", VStr (js "Webhook processed successfully."))] |}.

(** The outer [catch]. *)
Definition on_error (env : Env) (error : JsError) : Response :=
  {| status := 500;
     body := VObj ((js "error", VStr (js "Error processing webhook."))
                   :: details_field env error) |}.

Definition not_a_function (what : string) : JsError :=
  {| errClass := TypeError; errMessage := js what |}.

(** [handler(req, res)] at clock reading [now]: the response, the file's
    [redisClient] binding and the server afterwards. *)
Definition handler (now : Z) (env : Env) (srv : Redis.Server)
    (redisClient : option Redis.Client) (req : Request)
    : Response * option Redis.Client * Redis.Server :=
  if decide (method req ≠ js "POST")
  then (error_response 405 "Method Not Allowed", redisClient, srv)
  else
    match rawBody req with
    | Throw error => (on_error env error, redisClient, srv)
    | Ok rawBody =>
        match RESEND_WEBHOOK_SECRET env with
        | Some ((_ :: _) as webhookSecret) =>
            match webhooks_verify rawBody (envelope req) webhookSecret with
            | None => (error_response 401 "Webhook verification failed.", redisClient, srv)
            | Some event =>
                match event with
                | VUndefined | VNull =>
                    (on_error env (not_a_function "Cannot read properties of undefined"),
                     redisClient, srv)
                | _ =>
                    if is_literal (get_field "type" event) "email.received" then
                      let emailData := get_field "data" event in
                      if negb (truthy emailData)
                      then (error_response 400 "Email data is missing", redisClient, srv)
                      else
                        match Redis.getRedisClient env srv redisClient with
                        | (Throw error, redisClient) => (on_error env error, redisClient, srv)
                        | (Ok client, redisClient) =>
                            let emailToStore := emailToStore now emailData in
                            if negb (is_string (get_field "subject" emailToStore))
                            then (on_error env
                                    (not_a_function "emailToStore.subject.substring is not a function"),
                                  redisClient, srv)
                            else
                              let emailJson := JSON_stringify emailToStore in
                              match Redis.lPush emailJson srv with
                              | Throw saveError => (on_error env saveError, redisClient, srv)
                              | Ok (_, srv) => (processed, redisClient, srv)
                              end
                        end
                    else (processed, redisClient, srv)
                end
            end
        | _ => (error_response 500 "Webhook verification not configured", redisClient, srv)
        end
    end.

End Handler.

(** What the request stream emits. *)
Inductive StreamEvent :=
  | Data (chunk : list N)
  | StreamError (e : JsError)
  | StreamEnd.

(** [getRawBody(req)]: the promise collects the chunks and settles at the
    first [end] (with their concatenation) or [error]; what the stream emits
    afterwards changes nothing.  [None]: not settled yet. *)
Fixpoint getRawBody (events : list StreamEvent) (chunks : list (list N))
    : option (outcome (list N)) :=
  match events with
  | [] => None
  | Data chunk :: later => getRawBody later (chunks ++ [chunk])
  | StreamError e :: _ => Some (Throw e)
  | StreamEnd :: _ => Some (Ok (concat chunks))
  end.

End InboundEmail.

(** ** A reference implementation of the collaborators

    Executable stand-ins for the libraries, used to run the handlers on
    concrete requests.  The JSON codec follows the grammar of the standard on
    the values of [jsval] (numbers with a fraction or an exponent have no
    [jsval] and are not read); the MAC and the webhook signature are keyed
    digests of the simplest kind, enough to tell a sealed content from a
    tampered one. *)

Module Reference.

Definition hex_digit (n : N) : N := (if n <? 10 then 48 + n else 87 + n)%N.

(** [\uXXXX] *)
Definition unicode_escape (c : N) : jsstring :=
  [92; 117; hex_digit (c / 4096); hex_digit ((c / 256) mod 16);
   hex_digit ((c / 16) mod 16); hex_digit (c mod 16)]%N.

Definition escape_unit (c : N) : jsstring :=
  (if c =? 34 then [92; 34]
   else if c =? 92 then [92; 92]
   else if c =? 8 then [92; 98]
   else if c =? 12 then [92; 102]
   else if c =? 10 then [92; 110]
   else if c =? 13 then [92; 114]
   else if c =? 9 then [92; 116]
   else if c <? 32 then unicode_escape c
   else [c])%N.

Fixpoint escape (s : jsstring) : jsstring :=
  match s with
  | [] => []
  | u :: rest =>
      if Credentials.is_high_surrogate u then
        match rest with
        | l :: rest' =>
            if Credentials.is_low_surrogate l then u :: l :: escape rest'
            else unicode_escape u ++ escape rest
        | [] => unicode_escape u
        end
      else if Credentials.is_low_surrogate u then unicode_escape u ++ escape rest
      else escape_unit u ++ escape rest
  end.

Definition quote (s : jsstring) : jsstring := [34%N] ++ escape s ++ [34%N].

Fixpoint join (sep : jsstring) (pieces : list jsstring) : jsstring :=
  match pieces with
  | [] => []
  | [piece] => piece
  | piece :: later => piece ++ sep ++ join sep later
  end.

(** [JSON.stringify]: an [undefined] element of an array is written [null],
    an [undefined] field of an object is left out. *)
Fixpoint stringify (v : jsval) : jsstring :=
  match v with
  | VUndefined | VNull => js "null"
  | VBool true => js "true"
  | VBool false => js "false"
  | VNum n => Z_to_js n
  | VStr s => quote s
  | VArr elems => js "[" ++ join (js ",") (map stringify elems) ++ js "]"
  | VObj fields =>
      js "{" ++
      join (js ",")
        (flat_map (λ '(k, value),
                     if is_undefined value then []
                     else [quote k ++ js ":" ++ stringify value]) fields)
      ++ js "}"
  end.

Definition is_json_space (c : N) : bool :=
  ((c =? 32) || (c =? 9) || (c =? 10) || (c =? 13))%N.

Fixpoint skip_space (s : jsstring) : jsstring :=
  match s with
  | c :: rest => if is_json_space c then skip_space rest else s
  | [] => []
  end.

Definition digit_value (c : N) : option Z :=
  if ((48 <=? c) && (c <=? 57))%N then Some (Z.of_N c - 48) else None.

Definition hex_value (c : N) : option N :=
  (if (48 <=? c) && (c <=? 57) then Some (c - 48)
   else if (97 <=? c) && (c <=? 102) then Some (c - 87)
   else if (65 <=? c) && (c <=? 70) then Some (c - 55)
   else None)%N.

(** The digits at the front of [s], read onto [acc]. *)
Fixpoint read_digits (s : jsstring) (acc : Z) : Z * jsstring :=
  match s with
  | c :: rest =>
      match digit_value c with
      | Some d => read_digits rest (10 * acc + d)
      | None => (acc, s)
      end
  | [] => (acc, [])
  end.

Definition starts_fraction (s : jsstring) : bool :=
  match s with
  | c :: _ => ((c =? 46) || (c =? 101) || (c =? 69))%N
  | [] => false
  end.

(** An integer literal: no leading zero, no fraction, no exponent. *)
Definition read_integer (s : jsstring) : option (Z * jsstring) :=
  match s with
  | c :: rest =>
      match digit_value c with
      | Some 0 =>
          match rest with
          | c' :: _ => if bool_decide (is_Some (digit_value c')) then None
                       else if starts_fraction rest then None else Some (0, rest)
          | [] => Some (0, [])
          end
      | Some d =>
          let '(n, rest) := read_digits rest d in
          if starts_fraction rest then None else Some (n, rest)
      | None => None
      end
  | [] => None
  end.

Definition read_number (s : jsstring) : option (jsval * jsstring) :=
  match s with
  | 45%N :: rest => '(n, rest) ← read_integer rest; Some (VNum (- n), rest)
  | _ => '(n, rest) ← read_integer s; Some (VNum n, rest)
  end.

(** The rest of a string literal after its opening quote. *)
Fixpoint read_string (s : jsstring) (acc : jsstring) : option (jsstring * jsstring) :=
  match s with
  | [] => None
  | c :: rest =>
      if (c =? 34)%N then Some (rev acc, rest)
      else if (c =? 92)%N then
        match rest with
        | e :: rest' =>
            if (e =? 117)%N then
              match rest' with
              | h1 :: h2 :: h3 :: h4 :: rest'' =>
                  match hex_value h1, hex_value h2, hex_value h3, hex_value h4 with
                  | Some a, Some b, Some c, Some d =>
                      read_string rest'' ((a * 4096 + b * 256 + c * 16 + d)%N :: acc)
                  | _, _, _, _ => None
                  end
              | _ => None
              end
            else
              match
                (if e =? 34 then Some 34 else if e =? 92 then Some 92
                 else if e =? 47 then Some 47 else if e =? 98 then Some 8
                 else if e =? 102 then Some 12 else if e =? 110 then Some 10
                 else if e =? 114 then Some 13 else if e =? 116 then Some 9
                 else None)%N
              with
              | Some u => read_string rest' (u :: acc)
              | None => None
              end
        | [] => None
        end
      else if (c <? 32)%N then None
      else read_string rest (c :: acc)
  end.

(** A later field of the same name replaces the earlier value. *)
Fixpoint set_field (k : jsstring) (v : jsval) (fields : list (jsstring * jsval))
    : list (jsstring * jsval) :=
  match fields with
  | [] => [(k, v)]
  | (k', v') :: rest =>
      if decide (k = k') then (k, v) :: rest else (k', v') :: set_field k v rest
  end.

Definition read_literal (word : string) (v : jsval) (s : jsstring) : option (jsval * jsstring) :=
  if startsWith (js word) s then Some (v, drop (length (js word)) s) else None.

(** A value at the front of [s], and what follows it. *)
Fixpoint read_value (fuel : nat) (s : jsstring) : option (jsval * jsstring) :=
  match fuel with
  | O => None
  | S fuel =>
      match skip_space s with
      | [] => None
      | c :: rest =>
          if (c =? 123)%N then
            match skip_space rest with
            | c' :: rest' =>
                if (c' =? 125)%N then Some (VObj [], rest') else read_members fuel rest []
            | [] => None
            end
          else if (c =? 91)%N then
            match skip_space rest with
            | c' :: rest' =>
                if (c' =? 93)%N then Some (VArr [], rest') else read_elements fuel rest []
            | [] => None
            end
          else if (c =? 34)%N then
            '(text, rest) ← read_string rest []; Some (VStr text, rest)
          else if (c =? 116)%N then read_literal "true" (VBool true) (c :: rest)
          else if (c =? 102)%N then read_literal "false" (VBool false) (c :: rest)
          else if (c =? 110)%N then read_literal "null" VNull (c :: rest)
          else read_number (c :: rest)
      end
  end
with read_elements (fuel : nat) (s : jsstring) (acc : list jsval)
    : option (jsval * jsstring) :=
  match fuel with
  | O => None
  | S fuel =>
      match read_value fuel s with
      | Some (v, rest) =>
          match skip_space rest with
          | c :: rest' =>
              if (c =? 44)%N then read_elements fuel rest' (v :: acc)
              else if (c =? 93)%N then Some (VArr (rev (v :: acc)), rest')
              else None
          | [] => None
          end
      | None => None
      end
  end
with read_members (fuel : nat) (s : jsstring) (acc : list (jsstring * jsval))
    : option (jsval * jsstring) :=
  match fuel with
  | O => None
  | S fuel =>
      match skip_space s with
      | q :: rest =>
          if (q =? 34)%N then
            match read_string rest [] with
            | Some (k, rest) =>
                match skip_space rest with
                | colon :: rest =>
                    if (colon =? 58)%N then
                      match read_value fuel rest with
                      | Some (v, rest) =>
                          match skip_space rest with
                          | c :: rest' =>
                              if (c =? 44)%N then read_members fuel rest' (set_field k v acc)
                              else if (c =? 125)%N then Some (VObj (set_field k v acc), rest')
                              else None
                          | [] => None
                          end
                      | None => None
                      end
                    else None
                | [] => None
                end
            | None => None
            end
          else None
      | [] => None
      end
  end.

(** [JSON.parse]: one value, nothing but white space after it. *)
Definition parse (s : jsstring) : option jsval :=
  match read_value (2 * length s + 2) s with
  | Some (v, rest) => match skip_space rest with [] => Some v | _ => None end
  | None => None
  end.

(** [n] in [width] decimal digits. *)
Fixpoint digits (width : nat) (n : Z) : jsstring :=
  match width with
  | O => []
  | S width => digits width (n / 10) ++ [Z.to_N (48 + n mod 10)]
  end.

(** [new Date(ms).toISOString()] for the years 0000 to 9999. *)
Definition isoString (ms : Z) : jsstring :=
  let day := ms / 86400000 in
  let in_day := ms mod 86400000 in
  let z := day + 719468 in
  let era := z / 146097 in
  let doe := z - era * 146097 in
  let yoe := (doe - doe / 1460 + doe / 36524 - doe / 146096) / 365 in
  let doy := doe - (365 * yoe + yoe / 4 - yoe / 100) in
  let mp := (5 * doy + 2) / 153 in
  let d := doy - (153 * mp + 2) / 5 + 1 in
  let m := if mp <? 10 then mp + 3 else mp - 9 in
  let y := yoe + era * 400 + (if m <=? 2 then 1 else 0) in
  digits 4 y ++ js "-" ++ digits 2 m ++ js "-" ++ digits 2 d ++ js "T"
  ++ digits 2 (in_day / 3600000) ++ js ":" ++ digits 2 ((in_day / 60000) mod 60)
  ++ js ":" ++ digits 2 ((in_day / 1000) mod 60) ++ js "." ++ digits 3 (in_day mod 1000)
  ++ js "Z".

Definition exp_text (e : option Z) : jsstring :=
  match e with Some e => Z_to_js e | None => js "-" end.

(** The digest that stands for the MAC: the sealed content next to the key. *)
Definition mac (secret : jsstring) (payload : jsval) (issued : Z) (expires : option Z)
    : jsstring :=
  secret ++ js "|" ++ stringify payload ++ js "|" ++ Z_to_js issued ++ js "|"
  ++ exp_text expires.

Definition encode (t : Token) : jsstring :=
  stringify (VObj [(js "claims", claims t); (js "iat", VNum (iat t));
                   (js "exp", match exp t with Some e => VNum e | None => VNull end);
                   (js "sig", VStr (signature t))]).

Definition decode (s : jsstring) : option Token :=
  match parse s with
  | Some (VObj fields as v) =>
      match get_field "iat" v, get_field "sig" v with
      | VNum issued, VStr sig =>
          Some {| claims := get_field "claims" v; iat := issued;
                  exp := match get_field "exp" v with VNum e => Some e | _ => None end;
                  signature := sig |}
      | _, _ => None
      end
  | _ => None
  end.

(** The webhook verifier: the signature header must be the digest of the
    id, the timestamp and the body under the secret; the event is the parsed
    body. *)
Definition verify_webhook (body : list N) (e : Envelope) (secret : jsstring)
    : option jsval :=
  match svix_id e, svix_timestamp e, svix_signature e with
  | Some id, Some timestamp, Some sig =>
      if decide (sig = secret ++ js "|" ++ id ++ js "." ++ timestamp ++ js "." ++ body)
      then parse body else None
  | _, _, _ => None
  end.

(** A provider that accepts every message. *)
Definition send (m : OutboundMessage) : SendOutcome :=
  Resolved (VObj [(js "id", VStr (js "msg-1"))]) VNull.

(** The deployment sends no array-like other than arrays of numbers; the
    stand-in refuses them all. *)
Definition array_like (v : jsval) : option (list N) := None.

Definition collaborators : Collaborators := {|
  JSON_parse := parse;
  JSON_stringify := stringify;
  toISOString := isoString;
  token_mac := mac;
  token_encode := encode;
  token_decode := decode;
  webhooks_verify := verify_webhook;
  emails_send := send;
  Buffer_from_array_like := array_like |}.

End Reference.

(** ** A deployment to run the handlers on *)

Module Scenario.
Import Reference.
#[local] Existing Instance collaborators.

Definition env : Env := {|
  REDIS_URL := Some (js "redis://store:6379");
  JWT_SECRET := Some (js "signing-key");
  ADMIN_PASSWORD := Some (js "correct horse");
  RESEND_API_KEY := Some (js "re_test");
  RESEND_WEBHOOK_SECRET := Some (js "whsec_test");
  NODE_ENV := None |}.

(** 2023-11-14T22:13:20.000Z *)
Definition login_time : Z := 1700000000000.

Definition admin : jsval := VObj [(js "user", VStr (js "admin"))].

(** The token a login at [login_time] hands out. *)
Definition session : jsstring :=
  Jwt.sign login_time admin (js "signing-key") Jwt.eight_hours.

Definition reader : GetEmails.Request :=
  {| GetEmails.method := js "GET";
     GetEmails.authorization := Some (js "Bearer " ++ session) |}.

(** A read one hour after the login. *)
Definition read_time : Z := login_time + 3600000.

Definition client : Redis.Client :=
  {| Redis.clientUrl := js "redis://store:6379"; Redis.isOpen := true |}.

Definition holding (emails : Redis.KeyState) : Redis.Server :=
  {| Redis.emails := emails; Redis.connectError := None; Redis.commandError := None |}.

Definition first_record : jsval :=
  InboundEmail.emailToStore 1699999000000
    (VObj [(js "email_id", VStr (js "m-1")); (js "from", VStr (js "ann@example.org"));
           (js "to", VStr (js "desk@warmthly.org")); (js "subject", VStr (js "First"))]).

Definition second_record : jsval :=
  InboundEmail.emailToStore 1699999500000
    (VObj [(js "email_id", VStr (js "m-2")); (js "from", VStr (js "bob@example.org"));
           (js "to", VStr (js "desk@warmthly.org")); (js "subject", VStr (js "Second"))]).

Definition first_mail : jsstring := stringify first_record.
Definition second_mail : jsstring := stringify second_record.

(** An entry that is not JSON. *)
Definition garbage : jsstring := js "{not json".

(** A caller of the login route behind a proxy. *)
Definition caller : RateLimit.Request := {|
  RateLimit.url := js "/api/login";
  RateLimit.x_forwarded_for := Some (js "203.0.113.7, 10.0.0.1");
  RateLimit.x_real_ip := None;
  RateLimit.remoteAddress := None |}.

Definition two_per_second : RateLimit.Options :=
  {| RateLimit.windowMs := Some 1000; RateLimit.max := Some 2; RateLimit.message := None |}.

Definition zero_limit : RateLimit.Options :=
  {| RateLimit.windowMs := Some 1000; RateLimit.max := Some 0; RateLimit.message := None |}.

(** Another caller of the same route. *)
Definition neighbour : RateLimit.Request := {|
  RateLimit.url := js "/api/login";
  RateLimit.x_forwarded_for := None;
  RateLimit.x_real_ip := Some (js "198.51.100.9");
  RateLimit.remoteAddress := None |}.

(** A store in which the caller has used up [two_per_second], the neighbour
    has a live entry, and a third entry has expired at time 600. *)
Definition busy_store : gmap jsstring RateLimit.Entry :=
  <[RateLimit.key caller := {| RateLimit.count := 2; RateLimit.resetTime := 1000 |}]>
  (<[RateLimit.key neighbour := {| RateLimit.count := 1; RateLimit.resetTime := 900 |}]>
   (<[js "stale:/api/login" := {| RateLimit.count := 5; RateLimit.resetTime := 500 |}]> ∅)).

Definition without_webhook_secret : Env := {|
  REDIS_URL := REDIS_URL env; JWT_SECRET := JWT_SECRET env;
  ADMIN_PASSWORD := ADMIN_PASSWORD env; RESEND_API_KEY := RESEND_API_KEY env;
  RESEND_WEBHOOK_SECRET := None; NODE_ENV := NODE_ENV env |}.

(** An [email.received] event that names only its sender. *)
Definition bare_event : jsval :=
  VObj [(js "type", VStr (js "email.received"));
        (js "data", VObj [(js "from", VStr (js "carol@example.org"))])].

Definition sealed (body : jsstring) : Envelope := {|
  svix_id := Some (js "msg_1");
  svix_timestamp := Some (js "1700000100");
  svix_signature := Some (js "whsec_test|msg_1.1700000100." ++ body) |}.

Definition delivery : InboundEmail.Request := {|
  InboundEmail.method := js "POST";
  InboundEmail.rawStream := Ok (stringify bare_event);
  InboundEmail.parsedBody := VUndefined;
  InboundEmail.envelope := sealed (stringify bare_event) |}.

(** The same envelope around another body. *)
Definition tampered : InboundEmail.Request := {|
  InboundEmail.method := js "POST";
  InboundEmail.rawStream := Ok (stringify (VObj [(js "type", VStr (js "email.received"));
                                                 (js "data", VObj [(js "from", VStr (js "mallory@example.org"))])]));
  InboundEmail.parsedBody := VUndefined;
  InboundEmail.envelope := sealed (stringify bare_event) |}.

Definition delivery_time : Z := 1700000100250.

(** An [email.received] event whose subject is a number. *)
Definition numbered_event : jsval :=
  VObj [(js "type", VStr (js "email.received"));
        (js "data", VObj [(js "from", VStr (js "carol@example.org"));
                          (js "subject", VNum 7)])].

Definition numbered_delivery : InboundEmail.Request := {|
  InboundEmail.method := js "POST";
  InboundEmail.rawStream := Ok (stringify numbered_event);
  InboundEmail.parsedBody := VUndefined;
  InboundEmail.envelope := sealed (stringify numbered_event) |}.

(** A verified event of a kind the handler does not store. *)
Definition other_event : jsval :=
  VObj [(js "type", VStr (js "email.delivered"));
        (js "data", VObj [(js "email_id", VStr (js "m-9"))])].

Definition other_delivery : InboundEmail.Request := {|
  InboundEmail.method := js "POST";
  InboundEmail.rawStream := Ok (stringify other_event);
  InboundEmail.parsedBody := VUndefined;
  InboundEmail.envelope := sealed (stringify other_event) |}.

(** A store that refuses connections. *)
Definition unreachable : Redis.Server :=
  {| Redis.emails := Redis.NoKey;
     Redis.connectError := Some (new_Error "Redis reconnection failed");
     Redis.commandError := None |}.

(** The login with the right password. *)
Definition sign_in : Login.Request :=
  {| Login.method := js "POST";
     Login.reqBody := VObj [(js "password", VStr (js "correct horse"))] |}.

(** A login that sends the bytes of the password as an array of numbers. *)
Definition byte_login : Login.Request :=
  {| Login.method := js "POST";
     Login.reqBody :=
       VObj [(js "password",
              VArr (VNum <$> [99; 111; 114; 114; 101; 99; 116; 32; 104; 111; 114; 115;
                              101]))] |}.

(** A login without a body. *)
Definition bodiless_login : Login.Request :=
  {| Login.method := js "POST"; Login.reqBody := VUndefined |}.

(** A message that passes every check of the send handler. *)
Definition letter : SendEmail.Request := {|
  SendEmail.method := js "POST";
  SendEmail.reqBody :=
    VObj [(js "to", VStr (js " dana@example.org "));
          (js "subject", VStr (js "  Welcome  "));
          (js "html", VStr (js "<p>hello</p>"))] |}.

(** The same message with a subject of blanks, with an empty paragraph as
    its body, and to a recipient that is no address. *)
Definition blank_subject : SendEmail.Request := {|
  SendEmail.method := js "POST";
  SendEmail.reqBody :=
    VObj [(js "to", VStr (js "dana@example.org"));
          (js "subject", VStr (js "   "));
          (js "html", VStr (js "<p>hello</p>"))] |}.

Definition empty_paragraph : SendEmail.Request := {|
  SendEmail.method := js "POST";
  SendEmail.reqBody :=
    VObj [(js "to", VStr (js "dana@example.org"));
          (js "subject", VStr (js "Welcome"));
          (js "html", VStr (js "<p></p>"))] |}.

Definition no_address : SendEmail.Request := {|
  SendEmail.method := js "POST";
  SendEmail.reqBody :=
    VObj [(js "to", VStr (js "not-an-email"));
          (js "subject", VStr (js "Welcome"));
          (js "html", VStr (js "<p>hello</p>"))] |}.

(** The same message to an address without a dot after the [@]. *)
Definition undotted : SendEmail.Request := {|
  SendEmail.method := js "POST";
  SendEmail.reqBody :=
    VObj [(js "to", VStr (js "a@b"));
          (js "subject", VStr (js "Welcome"));
          (js "html", VStr (js "<p>hello</p>"))] |}.

(** The record the bare event is stored as. *)
Definition bare_record : jsval :=
  VObj [(js "id", VStr (js "email-1700000100250"));
        (js "from", VStr (js "carol@example.org"));
        (js "to", VStr (js "Unknown"));
        (js "subject", VStr (js "(No Subject)"));
        (js "receivedAt", VStr (js "2023-11-14T22:15:00.250Z"))].

End Scenario.

(** * Proofs *)

(** ** The rate limiter *)

Section RateLimitFacts.
Import RateLimit.

Implicit Types (store : gmap jsstring Entry) (req : Request) (o : Options).

Lemma cleanup_lookup_live now store k e :
  store !! k = Some e → ¬ (resetTime e < now) → cleanup now store !! k = Some e.
Proof.
  intros Hk Hlive. unfold cleanup.
  apply map_lookup_filter_Some. split; [exact Hk | exact Hlive].
Qed.

Lemma cleanup_lookup_expired now store k e :
  store !! k = Some e → resetTime e < now → cleanup now store !! k = None.
Proof.
  intros Hk Hexp. unfold cleanup.
  apply map_lookup_filter_None. right. intros e' He'.
  rewrite Hk in He'. injection He' as <-. simpl. lia.
Qed.

Lemma cleanup_lookup_none now store k :
  store !! k = None → cleanup now store !! k = None.
Proof.
  intros Hk. unfold cleanup. apply map_lookup_filter_None. left. exact Hk.
Qed.

(** [Math.ceil(x / 1000)] is the least integer whose thousandfold reaches [x]. *)
Lemma ceil_div_1000_spec x :
  x ≤ 1000 * ceil_div_1000 x < x + 1000.
Proof.
  unfold ceil_div_1000.
  pose proof (Z.div_mod (- x) 1000 ltac:(lia)) as Hdm.
  pose proof (Z.mod_pos_bound (- x) 1000 ltac:(lia)) as Hb.
  lia.
Qed.

(** The four outcomes of one call, by the state of the caller's entry. *)

Lemma check_no_live_entry c n req o store :
  match store !! key req with
  | Some e => resetTime e < n
  | None => True
  end →
  checkRateLimit c n req o store =
    ({| allowed := true; remaining := max_of o - 1;
        resultResetTime := n + windowMs_of o; retryAfter := None |},
     <[key req := {| count := 1; resetTime := n + windowMs_of o |}]> (cleanup c store)).
Proof.
  intros Hold. unfold checkRateLimit. cbv zeta.
  destruct (store !! key req) as [e|] eqn:Hk.
  - destruct (decide (resetTime e < c)) as [Hc|Hc].
    + rewrite (cleanup_lookup_expired _ _ _ _ Hk Hc). reflexivity.
    + rewrite (cleanup_lookup_live _ _ _ _ Hk Hc).
      rewrite decide_True by exact Hold. reflexivity.
  - rewrite (cleanup_lookup_none _ _ _ Hk). reflexivity.
Qed.

Lemma check_live_below_limit c n req o store e :
  store !! key req = Some e →
  c ≤ resetTime e → n ≤ resetTime e → count e < max_of o →
  checkRateLimit c n req o store =
    ({| allowed := true; remaining := max_of o - (count e + 1);
        resultResetTime := resetTime e; retryAfter := None |},
     <[key req := {| count := count e + 1; resetTime := resetTime e |}]> (cleanup c store)).
Proof.
  intros Hk Hc Hn Hlt. unfold checkRateLimit. cbv zeta.
  rewrite (cleanup_lookup_live _ _ _ _ Hk) by lia.
  rewrite decide_False by lia. rewrite decide_False by lia. reflexivity.
Qed.

Lemma check_live_at_limit c n req o store e :
  store !! key req = Some e →
  c ≤ resetTime e → n ≤ resetTime e → max_of o ≤ count e →
  checkRateLimit c n req o store =
    ({| allowed := false; remaining := 0; resultResetTime := resetTime e;
        retryAfter := Some (ceil_div_1000 (resetTime e - n)) |},
     cleanup c store).
Proof.
  intros Hk Hc Hn Hge. unfold checkRateLimit. cbv zeta.
  rewrite (cleanup_lookup_live _ _ _ _ Hk) by lia.
  rewrite decide_False by lia. rewrite decide_True by lia. reflexivity.
Qed.

(** Inside a live window the [k]-th further request is admitted as long as the
    count stays below the limit. *)
Lemma requests_in_window req o R : ∀ (clock : list (Z * Z)) store k,
  store !! key req = Some {| count := k; resetTime := R |} →
  Forall (λ t, t.1 ≤ R ∧ t.2 ≤ R) clock →
  k + Z.of_nat (length clock) ≤ max_of o →
  ∃ rs st,
    requests clock req o store = (rs, st) ∧
    Forall (λ r, allowed r = true) rs ∧
    length rs = length clock ∧
    st !! key req = Some {| count := k + Z.of_nat (length clock); resetTime := R |}.
Proof.
  induction clock as [|[c n] later IH]; intros store k Hk Hwin Hmax.
  - exists [], store. simpl. rewrite Z.add_0_r. auto.
  - apply Forall_cons in Hwin as [[Hc Hn] Hwin]. simpl in Hc, Hn.
    cbn [length] in Hmax. rewrite Nat2Z.inj_succ in Hmax.
    cbn [requests].
    rewrite (check_live_below_limit c n req o store _ Hk) by (simpl; lia).
    cbn [count resetTime].
    destruct (IH (<[key req := {| count := k + 1; resetTime := R |}]> (cleanup c store))
                (k + 1)) as (rs & st & Hrun & Hall & Hlen & Hst).
    + apply lookup_insert_eq.
    + exact Hwin.
    + lia.
    + rewrite Hrun. eexists _, st. split; [reflexivity|].
      split; [constructor; [reflexivity | exact Hall]|].
      split; [simpl; congruence|].
      rewrite Hst. cbn [length]. rewrite Nat2Z.inj_succ. f_equal. f_equal. lia.
Qed.

(** C2, as the code has it (limit of at least one): a caller whose entry is
    absent or expired opens a window with its first request; with
    [max = N ≥ 1], that request and the next [N - 1] requests made before the
    window's reset time are all admitted and leave [count = N]; any further
    request made before the reset time is rejected with
    [retryAfter = ceil((resetTime - now) / 1000)] and leaves the caller's
    entry as it was; a request made after the reset time is admitted again
    and restarts the entry at [count = 1] with a fresh reset time. *)
Theorem rate_limit_fixed_window req W N msg store c1 n1 (later : list (Z * Z)) :
  let o := {| windowMs := Some W; max := Some N; message := msg |} in
  let R := n1 + W in
  1 ≤ N →
  match store !! key req with Some e => resetTime e < n1 | None => True end →
  Z.of_nat (length later) = N - 1 →
  Forall (λ t, t.1 ≤ R ∧ t.2 ≤ R) later →
  ∃ rs st,
    requests ((c1, n1) :: later) req o store = (rs, st) ∧
    Forall (λ r, allowed r = true) rs ∧
    Z.of_nat (length rs) = N ∧
    st !! key req = Some {| count := N; resetTime := R |} ∧
    (∀ c n, c ≤ R → n ≤ R →
       ∃ st', checkRateLimit c n req o st =
                ({| allowed := false; remaining := 0; resultResetTime := R;
                    retryAfter := Some (ceil_div_1000 (R - n)) |}, st') ∧
              st' !! key req = st !! key req) ∧
    (∀ c n, R < n →
       ∃ st', checkRateLimit c n req o st =
                ({| allowed := true; remaining := N - 1; resultResetTime := n + W;
                    retryAfter := None |}, st') ∧
              st' !! key req = Some {| count := 1; resetTime := n + W |}).
Proof.
  intros o R HN Hfresh Hlen Hwin.
  cbn [requests].
  rewrite (check_no_live_entry c1 n1 req o store Hfresh).
  change (windowMs_of o) with W. change (max_of o) with N. fold R.
  destruct (requests_in_window req o R later
              (<[key req := {| count := 1; resetTime := R |}]> (cleanup c1 store)) 1)
    as (rs & st & Hrun & Hall & Hrs & Hst).
  { apply lookup_insert_eq. }
  { exact Hwin. }
  { change (max_of o) with N. lia. }
  rewrite Hrun. eexists _, st. split; [reflexivity|].
  split; [constructor; [reflexivity | exact Hall]|].
  split; [cbn [length]; rewrite Nat2Z.inj_succ; lia|].
  replace (1 + Z.of_nat (length later)) with N in Hst by lia.
  split; [exact Hst|]. split.
  - intros c n Hc Hn. eexists. split.
    + apply (check_live_at_limit c n req o st _ Hst); simpl; try lia.
      change (max_of o) with N. lia.
    + rewrite Hst. apply (cleanup_lookup_live _ _ _ _ Hst). simpl. lia.
  - intros c n Hn. eexists. split.
    + apply (check_no_live_entry c n req o st). rewrite Hst. simpl. lia.
    + apply lookup_insert_eq.
Qed.


(** X5: with a limit of at least one, a caller's entry stays between one
    and the limit.  After every call the caller has an entry; if the entry it
    had before (if any) had a count between one and the limit, so has the one
    after.  An allowed call reports [remaining = max - count], between zero
    and [max - 1], and the entry's reset time; a rejected call reports
    [remaining = 0], left the entry as it was with the count at the limit, and
    its [retryAfter] is not negative. *)
Theorem checkRateLimit_count_bounds c n req o store :
  1 ≤ max_of o →
  (∀ e, store !! key req = Some e → 1 ≤ count e ≤ max_of o) →
  ∃ e',
    (checkRateLimit c n req o store).2 !! key req = Some e' ∧
    1 ≤ count e' ≤ max_of o ∧
    let r := (checkRateLimit c n req o store).1 in
    (allowed r = true →
       remaining r = max_of o - count e' ∧ 0 ≤ remaining r < max_of o ∧
       resultResetTime r = resetTime e' ∧ retryAfter r = None) ∧
    (allowed r = false →
       store !! key req = Some e' ∧ count e' = max_of o ∧ remaining r = 0 ∧
       resultResetTime r = resetTime e' ∧
       ∃ s, retryAfter r = Some s ∧ 0 ≤ s ∧ resetTime e' - n ≤ 1000 * s).
Proof.
  intros Hmax Hinv. unfold checkRateLimit. cbv zeta.
  destruct (cleanup c store !! key req) as [e|] eqn:He.
  - apply map_lookup_filter_Some in He as [He Hlive]. simpl in Hlive.
    specialize (Hinv e He).
    case_decide as Hexp; [|case_decide as Hfull]; simpl.
    + eexists. rewrite lookup_insert_eq. split; [reflexivity|]. simpl.
      split; [lia|]. split; [intros _; repeat split; lia | discriminate].
    + exists e. split; [by apply cleanup_lookup_live|]. split; [lia|].
      split; [discriminate|]. intros _. repeat split; try lia; try done.
      eexists. split; [reflexivity|].
      pose proof (ceil_div_1000_spec (resetTime e - n)). lia.
    + eexists. rewrite lookup_insert_eq. split; [reflexivity|]. simpl.
      split; [lia|]. split; [intros _; repeat split; lia | discriminate].
  - simpl. eexists. rewrite lookup_insert_eq. split; [reflexivity|]. simpl.
    split; [lia|]. split; [intros _; repeat split; lia | discriminate].
Qed.

End RateLimitFacts.

Section GovernorFacts.
Context `{Collaborators}.
Import RateLimit Governor.

(** X6: the wrapped handler is answered 429 exactly when, after the
    clean-up, the caller's entry is live and its count has reached the limit.
    The 429 then carries the configured message (or the default one), the
    header [Retry-After] with [ceil((resetTime - now) / 1000)], which is not
    negative, and [X-RateLimit-Remaining] zero, and the store is the cleaned
    one; in every other case the handler's own result is the answer. *)
Theorem limited_rejects_exactly {T : Type} (handler : T) c n req o store :
  let at_limit :=
    ∃ e, store !! key req = Some e ∧ c ≤ resetTime e ∧ n ≤ resetTime e ∧
         max_of o ≤ count e in
  (at_limit →
     ∃ e, store !! key req = Some e ∧
       limited handler c n req o store =
         ([(js "X-RateLimit-Limit", VNum (limit_header o));
           (js "X-RateLimit-Remaining", VNum 0);
           (js "X-RateLimit-Reset", VStr (toISOString (resetTime e)));
           (js "Retry-After", VNum (ceil_div_1000 (resetTime e - n)))],
          inl {| status := 429; body := VObj [(js "error", VStr (limit_message o))] |},
          cleanup c store) ∧
       0 ≤ ceil_div_1000 (resetTime e - n)) ∧
  (¬ at_limit →
     ∃ headers store', limited handler c n req o store = (headers, inr handler, store')).
Proof.
  intros at_limit. split.
  - intros (e & He & Hc & Hn & Hfull). exists e. split; [exact He|].
    unfold limited. rewrite (check_live_at_limit c n req o store e He Hc Hn Hfull).
    split; [reflexivity|].
    pose proof (ceil_div_1000_spec (resetTime e - n)). lia.
  - intros Hnot. unfold limited, checkRateLimit. cbv zeta.
    destruct (cleanup c store !! key req) as [e|] eqn:He.
    + apply map_lookup_filter_Some in He as [He Hlive]. simpl in Hlive.
      case_decide as Hexp; [by eexists _, _|].
      case_decide as Hfull; [|by eexists _, _].
      exfalso. apply Hnot. exists e. repeat split; (done || lia).
    + by eexists _, _.
Qed.

(** X22: the limit holds whatever the wrapped handler would answer.  With
    a limit of [N ≥ 1], once a caller has made [N] requests in a window (the
    first one opening it), every further request before the reset time is
    answered 429 with the configured message and the handler is not run -
    for the login route: after five attempts in fifteen minutes even the right
    password is answered 429. *)
Theorem limited_locks_out {T : Type} (handler : T) req o store c1 n1
    (later : list (Z * Z)) c n :
  let R := n1 + windowMs_of o in
  1 ≤ max_of o →
  match store !! key req with Some e => resetTime e < n1 | None => True end →
  Z.of_nat (length later) = max_of o - 1 →
  Forall (λ t, t.1 ≤ R ∧ t.2 ≤ R) later →
  c ≤ R → n ≤ R →
  ∃ headers store',
    limited handler c n req o (requests ((c1, n1) :: later) req o store).2
    = (headers,
       inl {| status := 429; body := VObj [(js "error", VStr (limit_message o))] |},
       store').
Proof.
  intros R Hmax Hfresh Hlen Hwin Hc Hn.
  cbn [requests].
  rewrite (check_no_live_entry c1 n1 req o store Hfresh). fold R.
  destruct (requests_in_window req o R later
              (<[key req := {| count := 1; resetTime := R |}]> (cleanup c1 store)) 1)
    as (rs & st & Hrun & _ & _ & Hst).
  { apply lookup_insert_eq. }
  { exact Hwin. }
  { lia. }
  rewrite Hrun. cbn [snd].
  replace (1 + Z.of_nat (length later)) with (max_of o) in Hst by lia.
  unfold limited.
  rewrite (check_live_at_limit c n req o st _ Hst) by (simpl; lia).
  by eexists _, _.
Qed.

End GovernorFacts.

Lemma rate_limit_fixed_window_witness :
  ∃ rs st,
    RateLimit.requests [(0, 0); (400, 400)] Scenario.caller
      Scenario.two_per_second ∅ = (rs, st) ∧
    Forall (λ r, RateLimit.allowed r = true) rs ∧
    Z.of_nat (length rs) = 2 ∧
    st !! RateLimit.key Scenario.caller
      = Some {| RateLimit.count := 2; RateLimit.resetTime := 1000 |} ∧
    (∀ c n, c ≤ 1000 → n ≤ 1000 →
       ∃ st', RateLimit.checkRateLimit c n Scenario.caller
                Scenario.two_per_second st =
                ({| RateLimit.allowed := false; RateLimit.remaining := 0;
                    RateLimit.resultResetTime := 1000;
                    RateLimit.retryAfter := Some (RateLimit.ceil_div_1000 (1000 - n)) |}, st') ∧
              st' !! RateLimit.key Scenario.caller
                = st !! RateLimit.key Scenario.caller) ∧
    (∀ c n, 1000 < n →
       ∃ st', RateLimit.checkRateLimit c n Scenario.caller
                Scenario.two_per_second st =
                ({| RateLimit.allowed := true; RateLimit.remaining := 1;
                    RateLimit.resultResetTime := n + 1000;
                    RateLimit.retryAfter := None |}, st') ∧
              st' !! RateLimit.key Scenario.caller
                = Some {| RateLimit.count := 1; RateLimit.resetTime := n + 1000 |}).
Proof.
  apply (rate_limit_fixed_window Scenario.caller 1000 2 None ∅ 0 0 [(400, 400)]).
  - lia.
  - rewrite lookup_empty. exact I.
  - reflexivity.
  - repeat constructor; simpl; lia.
Defined.

(** With [max = 0] the first request of a window is still admitted: the branch
    that creates an entry does not look at the limit. *)
Lemma rate_limit_zero_limit_admits_first :
  RateLimit.allowed
    (RateLimit.checkRateLimit 0 0 Scenario.caller Scenario.zero_limit ∅).1
  = true.
Proof. reflexivity. Qed.

(** ** The password check *)

Section CredentialFacts.
Import Credentials.

Lemma diff_bits_zero : ∀ (a b : list N) acc,
  length a = length b →
  diff_bits a b acc = 0%N ↔ acc = 0%N ∧ a = b.
Proof.
  induction a as [|x a IH]; intros [|y b] acc Hlen; simpl in *; try discriminate.
  - split; [intros ->; auto | intros [-> _]; reflexivity].
  - injection Hlen as Hlen. rewrite (IH b _ Hlen), N.lor_eq_0_iff.
    split.
    + intros [[-> Hxy] ->]. apply N.lxor_eq in Hxy. subst. auto.
    + intros [-> Heq]. injection Heq as -> ->. rewrite N.lxor_nilpotent. auto.
Qed.

Lemma timingSafeEqual_spec (a b : list N) :
  timingSafeEqual a b =
    if decide (length a = length b) then Some (bool_decide (a = b)) else None.
Proof.
  unfold timingSafeEqual. destruct (decide (length a = length b)) as [Hlen|]; [|reflexivity].
  f_equal. destruct (N.eqb_spec (diff_bits a b 0) 0) as [Hz|Hz].
  - apply (diff_bits_zero a b 0 Hlen) in Hz as [_ ->]. by rewrite bool_decide_eq_true_2.
  - rewrite bool_decide_eq_false_2; [reflexivity|].
    intros ->. apply Hz. by apply diff_bits_zero.
Qed.

Lemma constantTimeCompare_true (a b : jsstring) :
  constantTimeCompare (Some a) (Some b) = true ↔
  a ≠ [] ∧ length a = length b ∧ Buffer_from_utf8 a = Buffer_from_utf8 b.
Proof.
  unfold constantTimeCompare.
  destruct a as [|x a]; [split; [discriminate | intros [[] _]; reflexivity]|].
  destruct b as [|y b]; [split; [discriminate | intros (_ & [=] & _)]|].
  case_decide as Hlen.
  { split; [discriminate | intros (_ & ? & _); contradiction]. }
  rewrite timingSafeEqual_spec.
  case_decide as Hbl.
  - rewrite bool_decide_eq_true. split; [intros ?; auto | intros (_ & _ & ?); auto].
  - split; [discriminate|]. intros (_ & _ & Hb). rewrite Hb in Hbl. contradiction.
Qed.

(** C3: on strings the check is a total boolean function; it answers [false]
    when the lengths differ (in code units, or in bytes, where the library
    comparison raises and the handler of the raise answers [false]), [false]
    when some byte differs, and [true] only for equal byte strings. *)
Theorem constantTimeCompare_sound (candidate configured : jsstring) :
  (length candidate ≠ length configured →
     constantTimeCompare (Some candidate) (Some configured) = false) ∧
  (timingSafeEqual (Buffer_from_utf8 candidate) (Buffer_from_utf8 configured) = None →
     constantTimeCompare (Some candidate) (Some configured) = false) ∧
  (∀ i x y,
     Buffer_from_utf8 candidate !! i = Some x →
     Buffer_from_utf8 configured !! i = Some y → x ≠ y →
     constantTimeCompare (Some candidate) (Some configured) = false) ∧
  (constantTimeCompare (Some candidate) (Some configured) = true →
     Buffer_from_utf8 candidate = Buffer_from_utf8 configured).
Proof.
  repeat split.
  - intros Hlen. apply not_true_is_false. intros H.
    apply constantTimeCompare_true in H as (_ & ? & _). contradiction.
  - intros Hraise. apply not_true_is_false. intros H.
    apply constantTimeCompare_true in H as (_ & _ & Hb).
    rewrite timingSafeEqual_spec, Hb in Hraise.
    rewrite decide_True in Hraise by reflexivity. discriminate.
  - intros i x y Hx Hy Hxy. apply not_true_is_false. intros H.
    apply constantTimeCompare_true in H as (_ & _ & Hb).
    rewrite Hb in Hx. congruence.
  - intros H. by apply constantTimeCompare_true in H as (_ & _ & Hb).
Qed.

(** On a string the handler's call is the comparison of two strings. *)
Lemma constantTimeCompare_string `{Collaborators} (a b : jsstring) :
  Login.constantTimeCompare (VStr a) b = constantTimeCompare (Some a) (Some b).
Proof.
  unfold Login.constantTimeCompare, constantTimeCompare.
  destruct a as [|x a]; [reflexivity|]. destruct b as [|y b]; [reflexivity|].
  cbn [truthy negb orb Login.length_of Login.is_number Login.Buffer_from].
  destruct (decide (length (x :: a) ≠ length (y :: b))) as [Hlen|Hlen].
  - by rewrite (proj2 (Z.eqb_neq _ _)) by lia.
  - apply dec_stable in Hlen. by rewrite Hlen, Z.eqb_refl.
Qed.

(** A string password that the comparison accepts is answered with the
    token. *)
Lemma login_with_string `{Collaborators} now env fields password configured c secret :
  ADMIN_PASSWORD env = Some configured →
  constantTimeCompare (Some password) (Some configured) = true →
  JWT_SECRET env = Some (c :: secret) →
  get_field "password" (VObj fields) = VStr password →
  Login.loginHandler now env {| Login.method := js "POST"; Login.reqBody := VObj fields |}
  = Ok {| status := 200;
          body := VObj [(js "token",
                         VStr (Jwt.sign now (VObj [(js "user", VStr (js "admin"))])
                                 (c :: secret) Jwt.eight_hours))] |}.
Proof.
  intros Hpw Hok Hsecret Hsent. unfold Login.loginHandler.
  cbn [Login.method Login.reqBody].
  rewrite decide_False by (intros Hne; by apply Hne).
  rewrite Hpw, Hsent, Hsecret.
  destruct configured as [|d configured]; [by destruct password|].
  destruct password as [|e password]; [done|].
  unfold js_or. cbn [truthy]. by rewrite constantTimeCompare_string, Hok.
Qed.

(** What the handler's call accepts: a truthy value of the configured
    length whose bytes are those of the configured password. *)
Lemma constantTimeCompare_accepts `{Collaborators} (a : jsval) (b : jsstring) :
  Login.constantTimeCompare a b = true ↔
  truthy a = true ∧ b ≠ [] ∧
  Login.length_of a = VNum (Z.of_nat (length b)) ∧
  Login.Buffer_from a = Some (Buffer_from_utf8 b).
Proof.
  unfold Login.constantTimeCompare.
  destruct (truthy a); [|split; [discriminate | by intros [? _]]].
  destruct b as [|y b]; [split; [discriminate | by intros (_ & ? & _)]|].
  cbn [truthy negb orb].
  destruct (Login.length_of a) as [| | |m| | |] eqn:Hlen; cbn [Login.is_number negb];
    try (split; [discriminate | by intros (_ & _ & ? & _)]).
  destruct (Z.eqb_spec m (Z.of_nat (length (y :: b)))) as [->|Hm]; cbn [negb];
    [|split; [discriminate | intros (_ & _ & [= ?] & _); contradiction]].
  destruct (Login.Buffer_from a) as [bytes|];
    [|split; [discriminate | by intros (_ & _ & _ & ?)]].
  rewrite timingSafeEqual_spec. case_decide as Hbl.
  - rewrite bool_decide_eq_true. split.
    + by intros ->.
    + by intros (_ & _ & _ & [= ->]).
  - split; [discriminate|]. intros (_ & _ & _ & [= ->]). contradiction.
Qed.

(** An array of the code units of a string below 128 is the string's bytes. *)
Lemma bytes_of_ascii (s : jsstring) :
  Forall (λ c, (c < 128)%N) s →
  Login.bytes_of ((λ c, VNum (Z.of_N c)) <$> s) = Some s ∧ Buffer_from_utf8 s = s.
Proof.
  induction 1 as [|c s Hc _ [IHb IHu]]; [done|].
  cbn [fmap list_fmap Login.bytes_of]. rewrite IHb. split.
  - do 2 f_equal. rewrite Z.mod_small by lia. apply N2Z.id.
  - cbn [Buffer_from_utf8]. unfold is_high_surrogate, is_low_surrogate, utf8_of_code_point.
    rewrite (proj2 (N.leb_gt 55296 c)) by lia. rewrite (proj2 (N.leb_gt 56320 c)) by lia.
    cbn [andb]. rewrite (proj2 (N.ltb_lt c 128)) by lia. cbn [app]. by rewrite IHu.
Qed.

(** X8: what the login handler hands out a token for.  An answer with
    status 200 means: the method is POST, the configured password is not
    empty, a signing secret is configured, and the value sent as [password]
    is truthy, has the configured password's [length], and gives the bytes of
    the configured password under [Buffer.from]; for a string that is: the
    same UTF-8 bytes.  The body then holds the token signed at the clock
    reading of the call for eight hours.  Any other answer holds no token.
    A missing or falsy password, a value of another length, and a value with
    other bytes are answered 401, also when the signing secret is missing.
    The value need not be a string: the array of the bytes of a configured
    password below 128 is answered with the token.  A POST without a body
    raises a [TypeError] where the password is read from it. *)
Theorem loginHandler_grants_only_matching `{Collaborators} now env req :
  let r := Login.loginHandler now env req in
  let sent := get_field "password" (Login.reqBody req) in
  let token secret :=
    VObj [(js "token",
           VStr (Jwt.sign now (VObj [(js "user", VStr (js "admin"))]) secret
                   Jwt.eight_hours))] in
  (∀ answer, r = Ok answer → status answer = 200 →
     Login.method req = js "POST" ∧
     ∃ configured secret,
       ADMIN_PASSWORD env = Some configured ∧ configured ≠ [] ∧
       JWT_SECRET env = Some secret ∧ secret ≠ [] ∧
       truthy sent = true ∧
       Login.length_of sent = VNum (Z.of_nat (length configured)) ∧
       Login.Buffer_from sent = Some (Buffer_from_utf8 configured) ∧
       (∀ s, sent = VStr s →
             s ≠ [] ∧ Buffer_from_utf8 s = Buffer_from_utf8 configured) ∧
       body answer = token secret) ∧
  (∀ answer, r = Ok answer → status answer ≠ 200 →
     is_undefined (get_field "token" (body answer)) = true) ∧
  (∀ configured,
     Login.method req = js "POST" →
     is_undefined (Login.reqBody req) = false → not_null (Login.reqBody req) = true →
     ADMIN_PASSWORD env = Some configured → configured ≠ [] →
     truthy sent = false
     ∨ Login.length_of sent ≠ VNum (Z.of_nat (length configured))
     ∨ Login.Buffer_from sent ≠ Some (Buffer_from_utf8 configured)
     ∨ (∃ s, sent = VStr s ∧ Buffer_from_utf8 s ≠ Buffer_from_utf8 configured) →
     r = Ok (error_response 401 "Incorrect password")) ∧
  (∀ configured secret,
     Login.method req = js "POST" →
     ADMIN_PASSWORD env = Some configured → configured ≠ [] →
     Forall (λ c, (c < 128)%N) configured →
     JWT_SECRET env = Some secret → secret ≠ [] →
     sent = VArr ((λ c, VNum (Z.of_N c)) <$> configured) →
     r = Ok {| status := 200; body := token secret |}) ∧
  (Login.method req = js "POST" →
   is_undefined (Login.reqBody req) = true ∨ not_null (Login.reqBody req) = false →
     ∃ e, r = Throw e ∧ errClass e = TypeError).
Proof.
  intros r sent token.
  assert (Login.method req = js "POST" →
          is_undefined (Login.reqBody req) = false → not_null (Login.reqBody req) = true →
          r = match ADMIN_PASSWORD env with
              | Some ((_ :: _) as adminPassword) =>
                  if Login.constantTimeCompare (js_or sent (VStr [])) adminPassword
                  then
                    match JWT_SECRET env with
                    | Some ((_ :: _) as jwtSecret) =>
                        Ok {| status := 200; body := token jwtSecret |}
                    | _ => Ok (error_response 500 "Authentication system not configured.")
                    end
                  else Ok (error_response 401 "Incorrect password")
              | _ => Ok (error_response 500 "Admin password not configured.")
              end) as Hrun.
  { intros Hm Hdef Hnn. unfold r, Login.loginHandler.
    rewrite decide_False by (rewrite Hm; auto).
    unfold sent. by destruct (Login.reqBody req). }
  assert (∀ configured,
            Login.constantTimeCompare (js_or sent (VStr [])) configured = true ↔
            truthy sent = true ∧ configured ≠ [] ∧
            Login.length_of sent = VNum (Z.of_nat (length configured)) ∧
            Login.Buffer_from sent = Some (Buffer_from_utf8 configured)) as Hcompare.
  { intros configured. rewrite constantTimeCompare_accepts. unfold js_or.
    destruct (truthy sent) eqn:Ht; [by rewrite Ht|].
    split; [by intros [? _] | by intros [? _]]. }
  split; [|split; [|split; [|split]]].
  - intros answer Hr Hstatus.
    destruct (decide (Login.method req = js "POST")) as [Hm|Hm];
      [|unfold r, Login.loginHandler in Hr; rewrite decide_True in Hr by exact Hm;
        by injection Hr as <-].
    split; [exact Hm|].
    destruct (is_undefined (Login.reqBody req)) eqn:Hdef;
      [unfold r, Login.loginHandler in Hr; rewrite decide_False in Hr by auto;
       by destruct (Login.reqBody req)|].
    destruct (not_null (Login.reqBody req)) eqn:Hnn;
      [|unfold r, Login.loginHandler in Hr; rewrite decide_False in Hr by auto;
        by destruct (Login.reqBody req)].
    rewrite (Hrun Hm eq_refl eq_refl) in Hr.
    destruct (ADMIN_PASSWORD env) as [[|c configured]|] eqn:Hpw;
      try (by injection Hr as <-).
    destruct (Login.constantTimeCompare _ _) eqn:Hok; [|by injection Hr as <-].
    destruct (JWT_SECRET env) as [[|d secret]|] eqn:Hs; try (by injection Hr as <-).
    injection Hr as <-.
    apply Hcompare in Hok as (Ht & Hne & Hlen & Hbytes).
    exists (c :: configured), (d :: secret).
    split; [reflexivity|]. split; [done|]. split; [reflexivity|]. split; [done|].
    split; [exact Ht|]. split; [exact Hlen|]. split; [exact Hbytes|].
    split; [|reflexivity].
    intros s Hstring. rewrite Hstring in Ht, Hbytes. split.
    + intros ->. discriminate.
    + cbn [Login.Buffer_from] in Hbytes. by injection Hbytes.
  - intros answer Hr Hstatus. unfold r, Login.loginHandler in Hr.
    case_decide; [by injection Hr as <-|].
    destruct (Login.reqBody req); try discriminate;
      (destruct (ADMIN_PASSWORD env) as [[|? ?]|]; [by injection Hr as <-| |by injection Hr as <-];
       destruct (Login.constantTimeCompare _ _); [|by injection Hr as <-];
       destruct (JWT_SECRET env) as [[|? ?]|]; injection Hr as <-; done).
  - intros configured Hm Hdef Hnn Hpw Hne Hbad. rewrite (Hrun Hm Hdef Hnn), Hpw.
    destruct configured as [|c configured]; [done|].
    destruct (Login.constantTimeCompare _ _) eqn:Hok; [|reflexivity].
    apply Hcompare in Hok as (Ht & _ & Hlen & Hbytes).
    destruct Hbad as [Hbad | [Hbad | [Hbad | (s & Hs & Hbad)]]]; try congruence.
    rewrite Hs in Hbytes. injection Hbytes as Hbytes. contradiction.
  - intros configured secret Hm Hpw Hne Hascii Hs Hsecret Hsent.
    assert (is_undefined (Login.reqBody req) = false ∧ not_null (Login.reqBody req) = true)
      as [Hdef Hnn] by (unfold sent in Hsent; by destruct (Login.reqBody req)).
    rewrite (Hrun Hm Hdef Hnn), Hpw, Hs.
    destruct configured as [|c configured]; [done|].
    destruct secret as [|d secret]; [done|].
    replace (Login.constantTimeCompare _ _) with true; [reflexivity|].
    symmetry. apply Hcompare. destruct (bytes_of_ascii _ Hascii) as [Hbytes Hutf].
    rewrite Hsent. repeat split; try done.
    + cbn [Login.length_of]. by rewrite length_fmap.
    + cbn [Login.Buffer_from]. by rewrite Hbytes, Hutf.
  - intros Hm Hbody. unfold r, Login.loginHandler.
    rewrite decide_False by (rewrite Hm; auto).
    destruct (Login.reqBody req); destruct Hbody as [Hb|Hb]; try discriminate;
      by eexists.
Qed.

(** An absent argument, and an empty one, make the check answer [false]. *)
Lemma constantTimeCompare_absent (b : option jsstring) :
  constantTimeCompare None b = false ∧ constantTimeCompare b None = false ∧
  constantTimeCompare (Some []) b = false ∧ constantTimeCompare b (Some []) = false.
Proof. by destruct b as [[|? ?]|]. Qed.

Lemma utf8_shape (x : N) :
  ((x < 128)%N ∧ utf8_of_code_point x = [x]) ∨
  ((128 ≤ x < 2048)%N ∧
   utf8_of_code_point x = [192 + x / 64; 128 + x mod 64]%N) ∨
  ((2048 ≤ x < 65536)%N ∧
   utf8_of_code_point x = [224 + x / 4096; 128 + (x / 64) mod 64; 128 + x mod 64]%N) ∨
  ((65536 ≤ x)%N ∧
   utf8_of_code_point x
   = [240 + x / 262144; 128 + (x / 4096) mod 64; 128 + (x / 64) mod 64;
      128 + x mod 64]%N).
Proof.
  unfold utf8_of_code_point.
  destruct (N.ltb_spec x 128); [by left|].
  destruct (N.ltb_spec x 2048); [right; left; split; [lia | reflexivity]|].
  destruct (N.ltb_spec x 65536); [right; right; left; split; [lia | reflexivity]|].
  right; right; right. split; [lia | reflexivity].
Qed.

(** No encoding of a scalar value is the beginning of another one's. *)
Lemma utf8_prefix_free (x y : N) (r1 r2 : list N) :
  (x < 1114112)%N → (y < 1114112)%N →
  utf8_of_code_point x ++ r1 = utf8_of_code_point y ++ r2 → x = y ∧ r1 = r2.
Proof.
  intros Hx Hy.
  destruct (utf8_shape x) as [[Hrx ->] | [[Hrx ->] | [[Hrx ->] | [Hrx ->]]]],
           (utf8_shape y) as [[Hry ->] | [[Hry ->] | [[Hry ->] | [Hry ->]]]];
    cbn [app]; intros Heq; injection Heq; intros;
    try (exfalso; zify; Z.to_euclidean_division_equations; lia);
    (assert (x = y) by (zify; Z.to_euclidean_division_equations; lia));
    by subst.
Qed.

Lemma utf8_nonempty (x : N) : utf8_of_code_point x ≠ [].
Proof. unfold utf8_of_code_point. by repeat case_match. Qed.

(** The first scalar value of a well-formed string and what follows it. *)
Lemma well_formed_uncons (u : N) (rest : jsstring) :
  well_formed (u :: rest) = true →
  ∃ x after,
    (x < 1114112)%N ∧ well_formed after = true ∧
    (length after ≤ length rest)%nat ∧
    Buffer_from_utf8 (u :: rest) = utf8_of_code_point x ++ Buffer_from_utf8 after ∧
    ((x = u ∧ after = rest ∧ (u < 65536)%N) ∨
     (∃ l, rest = l :: after ∧ (65536 ≤ x)%N ∧
           x = (65536 + (u - 55296) * 1024 + (l - 56320))%N ∧
           (55296 ≤ u ≤ 56319)%N ∧ (56320 ≤ l ≤ 57343)%N)).
Proof.
  simpl. unfold is_high_surrogate, is_low_surrogate.
  destruct ((55296 <=? u)%N && (u <=? 56319)%N) eqn:Hhigh.
  - apply andb_true_iff in Hhigh as [Hlo%N.leb_le Hhi%N.leb_le].
    destruct rest as [|l after]; [discriminate|].
    intros [Hl Hwf]%andb_true_iff. rewrite Hl.
    apply andb_true_iff in Hl as [Hl1%N.leb_le Hl2%N.leb_le].
    exists (65536 + (u - 55296) * 1024 + (l - 56320))%N, after.
    split; [lia|]. split; [exact Hwf|]. split; [simpl; lia|]. split; [reflexivity|].
    right. exists l. repeat split; lia.
  - destruct ((56320 <=? u)%N && (u <=? 57343)%N) eqn:Hlow; [discriminate|].
    intros [Hu%N.ltb_lt Hwf]%andb_true_iff.
    exists u, rest. split; [lia|]. split; [exact Hwf|]. split; [lia|].
    split; [reflexivity|]. left. auto.
Qed.

Lemma Buffer_from_utf8_injective : ∀ (n : nat) (a b : jsstring),
  (length a ≤ n)%nat → well_formed a = true → well_formed b = true →
  Buffer_from_utf8 a = Buffer_from_utf8 b → a = b.
Proof.
  induction n as [|n IH]; intros a b Hlen Ha Hb Heq.
  - destruct a; [|simpl in Hlen; lia].
    destruct b as [|u rb]; [reflexivity|].
    apply well_formed_uncons in Hb as (y & after & _ & _ & _ & Hb & _).
    rewrite Hb in Heq. simpl in Heq. symmetry in Heq.
    apply app_eq_nil in Heq as [Heq _]. by apply utf8_nonempty in Heq.
  - destruct a as [|u ra].
    + destruct b as [|v rb]; [reflexivity|].
      apply well_formed_uncons in Hb as (y & after & _ & _ & _ & Hb & _).
      rewrite Hb in Heq. simpl in Heq. symmetry in Heq.
      apply app_eq_nil in Heq as [Heq _]. by apply utf8_nonempty in Heq.
    + apply well_formed_uncons in Ha as (x & afterA & Hx & HwfA & HlenA & HencA & HshapeA).
      destruct b as [|v rb].
      { rewrite HencA in Heq. simpl in Heq.
        apply app_eq_nil in Heq as [Heq _]. by apply utf8_nonempty in Heq. }
      apply well_formed_uncons in Hb as (y & afterB & Hy & HwfB & _ & HencB & HshapeB).
      rewrite HencA, HencB in Heq.
      apply utf8_prefix_free in Heq as [-> Hrest]; [|exact Hx|exact Hy].
      assert (afterA = afterB) as ->.
      { apply (IH afterA afterB); try done. simpl in Hlen. lia. }
      destruct HshapeA as [(-> & -> & Hu) | (l & -> & Hbig & Hcp & Hur & Hlr)],
               HshapeB as [(Hv & -> & Hv') | (l' & -> & Hbig' & Hcp' & Hvr & Hlr')].
      * by subst.
      * lia.
      * lia.
      * assert (u = v ∧ l = l') as [-> ->] by lia. reflexivity.
Qed.

(** X20: on well-formed strings the password check is exact.  For two
    strings in which every surrogate belongs to a pair, the check answers
    [true] exactly when the two strings are the same and not empty. *)
Theorem constantTimeCompare_exact (a b : jsstring) :
  well_formed a = true → well_formed b = true →
  (constantTimeCompare (Some a) (Some b) = true ↔ a = b ∧ a ≠ []).
Proof.
  intros Ha Hb. rewrite constantTimeCompare_true. split.
  - intros (Hne & _ & Hbytes). split; [|exact Hne].
    by apply (Buffer_from_utf8_injective (length a) a b).
  - intros [-> Hne]. auto.
Qed.

End CredentialFacts.

(** ** The connection accessor *)

Section RedisFacts.
Import Redis.

(** An open cached client is handed back as it is; nothing is created. *)
Lemma getRedisClient_cached env srv url :
  getRedisClient env srv (Some {| clientUrl := url; isOpen := true |})
  = (Ok {| clientUrl := url; isOpen := true |},
     Some {| clientUrl := url; isOpen := true |}).
Proof. reflexivity. Qed.

(** Without a usable cached client and without a store address the accessor
    raises the configuration error. *)
Lemma getRedisClient_unconfigured env srv cache :
  (∀ url, cache ≠ Some {| clientUrl := url; isOpen := true |}) →
  env_missing (REDIS_URL env) = true →
  getRedisClient env srv cache = (Throw (new_Error "REDIS_URL is not configured"), cache).
Proof.
  intros Hclosed Hurl. unfold getRedisClient.
  destruct cache as [[url [|]]|]; [by destruct (Hclosed url) | |];
    by destruct (REDIS_URL env) as [[|? ?]|].
Qed.

(** A failed [connect()] drops the binding and hands the error on; a
    successful one caches the open client. *)
Lemma getRedisClient_connects env srv cache c url :
  (∀ url, cache ≠ Some {| clientUrl := url; isOpen := true |}) →
  REDIS_URL env = Some (c :: url) →
  getRedisClient env srv cache =
    match connectError srv with
    | Some e => (Throw e, None)
    | None => (Ok {| clientUrl := c :: url; isOpen := true |},
               Some {| clientUrl := c :: url; isOpen := true |})
    end.
Proof.
  intros Hclosed Hurl. unfold getRedisClient. rewrite Hurl.
  destruct cache as [[u [|]]|]; [by destruct (Hclosed u) | |];
    by destruct (connectError srv).
Qed.

(** While the strategy retries, the delay is [min(retries * 100, 3000)]; it
    retries exactly for [retries ≤ 3]. *)
Lemma reconnectStrategy_spec retries :
  (retries ≤ 3 → reconnectStrategy retries = RetryIn (Z.min (retries * 100) 3000)) ∧
  (3 < retries → reconnectStrategy retries = GiveUp (new_Error "Redis reconnection failed")).
Proof.
  unfold reconnectStrategy. split; intros Hr; case_decide; (reflexivity || lia).
Qed.

(** The connection loop ends within five attempts whatever the socket does,
    and more fuel does not change how it ends. *)
Lemma connect_loop_ends accepts : ∀ fuel retries waited,
  (1 ≤ fuel)%nat → (5 ≤ fuel + retries)%nat →
  ∃ r, connect_loop fuel accepts retries waited = Some r.
Proof.
  induction fuel as [|fuel IH]; intros retries waited Hpos Hfuel; [lia|].
  simpl. destruct (accepts retries); [eauto|].
  unfold reconnectStrategy. case_decide as Hr; [eauto|].
  apply IH; lia.
Qed.

Lemma connect_loop_fuel accepts : ∀ fuel fuel' retries waited r,
  connect_loop fuel accepts retries waited = Some r →
  (1 ≤ fuel')%nat → (5 ≤ fuel' + retries)%nat →
  connect_loop fuel' accepts retries waited = Some r.
Proof.
  induction fuel as [|fuel IH]; intros fuel' retries waited r Hrun Hpos Hfuel;
    [discriminate|].
  destruct fuel' as [|fuel']; [lia|].
  simpl in Hrun |- *. destruct (accepts retries); [exact Hrun|].
  revert Hrun. unfold reconnectStrategy. case_decide as Hr; [auto|].
  intros Hrun. apply (IH _ _ _ _ Hrun); lia.
Qed.

(** X1: the accessor, case by case: an open cached client is returned and
    nothing changes; otherwise a missing store address raises the
    configuration error; otherwise a client is created and connected, a
    failed connect clears the binding and hands its error on, a successful
    one is cached.  The strategy retries with [min(retries * 100, 3000)]
    milliseconds for [retries ≤ 3] and gives up above. *)
Theorem connection_accessor env srv (cache : option Client) :
  (∀ url, cache = Some {| clientUrl := url; isOpen := true |} →
     getRedisClient env srv cache = (Ok {| clientUrl := url; isOpen := true |}, cache)) ∧
  ((∀ url, cache ≠ Some {| clientUrl := url; isOpen := true |}) →
     (env_missing (REDIS_URL env) = true →
        getRedisClient env srv cache
        = (Throw (new_Error "REDIS_URL is not configured"), cache)) ∧
     (∀ url e, REDIS_URL env = Some url → url ≠ [] → connectError srv = Some e →
        getRedisClient env srv cache = (Throw e, None)) ∧
     (∀ url, REDIS_URL env = Some url → url ≠ [] → connectError srv = None →
        getRedisClient env srv cache
        = (Ok {| clientUrl := url; isOpen := true |},
           Some {| clientUrl := url; isOpen := true |}))) ∧
  (∀ retries, retries ≤ 3 →
     reconnectStrategy retries = RetryIn (Z.min (retries * 100) 3000)) ∧
  (∀ retries, 3 < retries →
     reconnectStrategy retries = GiveUp (new_Error "Redis reconnection failed")).
Proof.
  split; [|split; [|split]].
  - intros url ->. apply getRedisClient_cached.
  - intros Hclosed. split; [|split].
    + by apply getRedisClient_unconfigured.
    + intros [|c url] e Hurl Hne He; [done|].
      by rewrite (getRedisClient_connects env srv cache c url Hclosed Hurl), He.
    + intros [|c url] Hurl Hne He; [done|].
      by rewrite (getRedisClient_connects env srv cache c url Hclosed Hurl), He.
  - intros retries. apply reconnectStrategy_spec.
  - intros retries. apply reconnectStrategy_spec.
Qed.

(** C9, at the input where the code leaves the claim: asked after the third
    retry ([retries = 3]) the strategy still schedules a retry, 300 ms
    later.  Against a socket that never accepts, the loop gives up only when
    the strategy is asked with [retries = 4], that is after five failed
    attempts. *)
Theorem reconnect_not_abandoned_at_three :
  reconnectStrategy 3 = RetryIn 300 ∧
  connect_loop 5 (λ _, false) 0 []
  = Some (Abandoned 5 [0; 100; 200; 300] (new_Error "Redis reconnection failed")).
Proof. split; reflexivity. Qed.

End RedisFacts.

(** ** The list read *)

Section GetEmailsFacts.
Context `{Collaborators}.
Import GetEmails.

Lemma startsWith_nonempty (p s : jsstring) :
  p ≠ [] → startsWith p s = true → s ≠ [].
Proof. by destruct p, s. Qed.

(** A signed-in request that obtains a client is answered from what [fetch]
    returns. *)
Lemma getEmailsHandler_signed_in now env srv cache req client cache' :
  signed_in now env req →
  Redis.getRedisClient env srv cache = (Ok client, cache') →
  getEmailsHandler now env srv cache req =
    match fetch srv with
    | Throw error => (on_error env error, cache')
    | Ok emails => ({| status := 200; body := VArr (rev (parsedEmails emails)) |}, cache')
    end.
Proof.
  intros (authHeader & jwtSecret & token & Hm & Ha & Hb & Hs & Hne & Hv) Hclient.
  unfold getEmailsHandler. rewrite decide_False by (rewrite Hm; auto).
  rewrite Ha, Hb, Hs, Hv, Hclient. simpl.
  destruct authHeader as [|? ?]; [by apply startsWith_nonempty in Hb|].
  by destruct jwtSecret.
Qed.

Lemma fetch_without_fault srv :
  Redis.commandError srv = None → fetch srv = Ok (stored srv).
Proof.
  intros Hc. unfold fetch, stored, Redis.lRange_0_99. rewrite Hc.
  by destruct (Redis.emails srv).
Qed.

Lemma parsedEmails_app (l1 l2 : list jsstring) :
  parsedEmails (l1 ++ l2) = parsedEmails l1 ++ parsedEmails l2.
Proof. unfold parsedEmails. by rewrite fmap_app, List.filter_app. Qed.

Lemma parsedEmails_valid (entries : list jsstring) :
  Forall valid entries → parsedEmails entries = parse_or_null <$> entries.
Proof.
  induction 1 as [|entry entries (v & Hv & Hnn) _ IH]; [reflexivity|].
  unfold parsedEmails in *. cbn [fmap list_fmap List.filter].
  unfold parse_or_null at 1. rewrite Hv. simpl. rewrite Hnn. by rewrite IH.
Qed.

Lemma parsedEmails_malformed (entry : jsstring) :
  JSON_parse entry = None → parsedEmails [entry] = [].
Proof. intros Hbad. unfold parsedEmails, parse_or_null. simpl. by rewrite Hbad. Qed.

(** One malformed entry among valid ones is dropped, the valid ones stay. *)
Lemma parsedEmails_poison (before after : list jsstring) (bad : jsstring) :
  JSON_parse bad = None → Forall valid (before ++ after) →
  parsedEmails (before ++ bad :: after) = parse_or_null <$> (before ++ after).
Proof.
  intros Hbad Hvalid. apply Forall_app in Hvalid as [Hb Ha].
  change (bad :: after) with ([bad] ++ after).
  rewrite !parsedEmails_app, (parsedEmails_malformed _ Hbad).
  rewrite (parsedEmails_valid _ Hb), (parsedEmails_valid _ Ha).
  by rewrite fmap_app.
Qed.

(** X2: an expired token is answered by the first branch of the [catch], the
    one for [JsonWebTokenError], whose subclass the expiry error is: the text
    of the 401 is that of an invalid token. *)
Theorem expired_token_reads_invalid now env srv cache req authHeader jwtSecret :
  method req = js "GET" →
  authorization req = Some authHeader →
  startsWith (js "Bearer ") authHeader = true →
  JWT_SECRET env = Some jwtSecret → jwtSecret ≠ [] →
  Jwt.verify now (bearer authHeader) jwtSecret = Throw Jwt.jwt_expired →
  getEmailsHandler now env srv cache req = (error_response 401 "Invalid token.", cache).
Proof.
  intros Hm Ha Hb Hs Hne Hv. unfold getEmailsHandler.
  rewrite decide_False by (rewrite Hm; auto).
  rewrite Ha, Hb, Hs, Hv. simpl.
  destruct authHeader as [|? ?]; [by apply startsWith_nonempty in Hb|].
  by destruct jwtSecret.
Qed.

Lemma lPush_spec x srv n srv' :
  Redis.lPush x srv = Ok (n, srv') →
  Redis.commandError srv = None ∧ Redis.commandError srv' = None ∧
  Redis.connectError srv' = Redis.connectError srv ∧
  ∃ older, Redis.emails srv' = Redis.ListKey (x :: older) ∧
           n = Z.of_nat (length (x :: older)) ∧
           match Redis.emails srv with
           | Redis.NoKey => older = []
           | Redis.ListKey entries => older = entries
           | Redis.OtherKey => False
           end.
Proof.
  unfold Redis.lPush. destruct (Redis.commandError srv) eqn:Hc; [discriminate|].
  destruct (Redis.emails srv) eqn:He; intros [= <- <-]; simpl; rewrite ?Hc; eauto 10.
Qed.

(** C1, what the code does: the record pushed last comes LAST in the
    response.  After [lPush] of an entry [newest] that deserialises to the
    record [v], a signed-in read answers 200 with the records that were
    readable before (those that still fit the range of 100) in reversed
    order, followed by [v]. *)
Theorem list_read_puts_newest_last now env srv srv' cache cache' req client
    (newest : jsstring) n v :
  signed_in now env req →
  Redis.lPush newest srv = Ok (n, srv') →
  Redis.getRedisClient env srv' cache = (Ok client, cache') →
  JSON_parse newest = Some v → not_null v = true →
  getEmailsHandler now env srv' cache req =
    ({| status := 200;
        body := VArr (rev (parsedEmails (take 99 (stored srv))) ++ [v]) |}, cache').
Proof.
  intros Hin Hpush Hclient Hv Hnn.
  apply lPush_spec in Hpush as (Hc & Hc' & _ & older & He' & _ & Hold).
  rewrite (getEmailsHandler_signed_in _ _ _ _ _ _ _ Hin Hclient).
  rewrite (fetch_without_fault _ Hc'). unfold stored. rewrite He'.
  change (take 100 (newest :: older)) with ([newest] ++ take 99 older).
  rewrite parsedEmails_app.
  assert (parsedEmails [newest] = [v]) as ->.
  { unfold parsedEmails, parse_or_null. simpl. rewrite Hv. simpl. by rewrite Hnn. }
  simpl. do 4 f_equal.
  destruct (Redis.emails srv); subst; try done.
  by rewrite take_take.
Qed.

(** C6: a signed-in read that obtains a client does not fail on the shape
    of the store or of a record.  A missing key and a key of the wrong type
    read as the empty array, and so does a raise whose message says so; a
    list is answered with the records of its deserialisable entries; with
    one malformed entry among otherwise valid ones (within the range of
    100), the response holds exactly the records of the valid ones. *)
Theorem list_read_tolerates_shapes now env srv cache cache' req client :
  signed_in now env req →
  Redis.getRedisClient env srv cache = (Ok client, cache') →
  (Redis.commandError srv = None →
     Redis.emails srv = Redis.NoKey ∨ Redis.emails srv = Redis.OtherKey →
     getEmailsHandler now env srv cache req = ({| status := 200; body := VArr [] |}, cache')) ∧
  (∀ e, Redis.commandError srv = Some e →
     includes (js "WRONGTYPE") (errMessage e) = true
     ∨ includes (js "no such key") (errMessage e) = true →
     getEmailsHandler now env srv cache req = ({| status := 200; body := VArr [] |}, cache')) ∧
  (∀ entries, Redis.commandError srv = None →
     Redis.emails srv = Redis.ListKey entries →
     getEmailsHandler now env srv cache req =
       ({| status := 200; body := VArr (rev (parsedEmails (take 100 entries))) |}, cache')) ∧
  (∀ before bad after, Redis.commandError srv = None →
     Redis.emails srv = Redis.ListKey (before ++ bad :: after) →
     (length (before ++ bad :: after) ≤ 100)%nat →
     JSON_parse bad = None → Forall valid (before ++ after) →
     ∃ records,
       getEmailsHandler now env srv cache req =
         ({| status := 200; body := VArr records |}, cache') ∧
       length records = length (before ++ after) ∧
       records = rev (parse_or_null <$> (before ++ after))).
Proof.
  intros Hin Hclient.
  rewrite (getEmailsHandler_signed_in _ _ _ _ _ _ _ Hin Hclient).
  repeat split.
  - intros Hc Hshape. rewrite (fetch_without_fault _ Hc). unfold stored.
    by destruct Hshape as [-> | ->].
  - intros e Hc Hmsg. unfold fetch, Redis.lRange_0_99. rewrite Hc.
    by destruct Hmsg as [-> | ->]; rewrite ?orb_true_r.
  - intros entries Hc He. rewrite (fetch_without_fault _ Hc). unfold stored.
    by rewrite He.
  - intros before bad after Hc He Hlen Hbad Hvalid.
    rewrite (fetch_without_fault _ Hc). unfold stored. rewrite He.
    rewrite take_ge by exact Hlen.
    rewrite (parsedEmails_poison _ _ _ Hbad Hvalid).
    eexists. split; [reflexivity|]. split; [|reflexivity].
    by rewrite length_rev, length_fmap.
Qed.

Lemma split_on_no_separator (sep : N) (s : jsstring) :
  sep ∉ s → split_on sep s = [s].
Proof.
  induction s as [|c s IH]; [reflexivity|]. intros [Hc Hs]%not_elem_of_cons. simpl.
  destruct (N.eqb_spec c sep) as [->|_]; [done|]. by rewrite IH.
Qed.

Lemma split_on_first (sep : N) (a s : jsstring) :
  sep ∉ a → split_on sep (a ++ sep :: s) = a :: split_on sep s.
Proof.
  induction a as [|c a IH]; simpl.
  - by rewrite N.eqb_refl.
  - intros [Hc Ha]%not_elem_of_cons.
    destruct (N.eqb_spec c sep) as [->|_]; [done|]. by rewrite IH.
Qed.

(** A token without a blank is what [split(' ')[1]] reads back. *)
Lemma bearer_of (token : jsstring) :
  32%N ∉ token → bearer (js "Bearer " ++ token) = token.
Proof.
  intros Hno. unfold bearer.
  change (js "Bearer " ++ token) with (js "Bearer" ++ 32%N :: token).
  rewrite split_on_first, split_on_no_separator; [reflexivity | exact Hno |].
  vm_compute. intros Hin. repeat (apply elem_of_cons in Hin as [[=]|Hin]).
  by apply elem_of_nil in Hin.
Qed.

Lemma on_error_status env e : status (on_error env e) = 401 ∨ status (on_error env e) = 500.
Proof. unfold on_error. repeat case_match; auto. Qed.

Lemma parsedEmails_bounds (emails : list jsstring) :
  (length (parsedEmails emails) ≤ length emails)%nat ∧
  Forall (λ v, not_null v = true) (parsedEmails emails).
Proof.
  unfold parsedEmails. split.
  - etransitivity; [apply List.filter_length_le|]. by rewrite length_fmap.
  - apply List.Forall_forall. intros v Hv. by apply List.filter_In in Hv as [_ ?].
Qed.

Lemma fetch_bounds srv emails : fetch srv = Ok emails → (length emails ≤ 100)%nat.
Proof.
  unfold fetch, Redis.lRange_0_99.
  destruct (Redis.commandError srv) as [e|].
  - case_match; [|discriminate]. intros [= <-]. simpl. lia.
  - destruct (Redis.emails srv); simpl.
    + intros [= <-]. simpl. lia.
    + intros [= <-]. rewrite length_take. lia.
    + intros [= <-]. simpl. lia.
Qed.

(** X9: the list read answers 200 only to a signed-in request, and only a
    signed-in request makes it touch its cached client.  A 200 carries an
    array of at most 100 values, none of them [null].  Before that, in this
    order: a method other than GET is answered 405, a missing header or one
    that does not start with [Bearer ] is answered 401, a missing signing
    secret 500. *)
Theorem getEmailsHandler_gate now env srv cache req :
  let r := getEmailsHandler now env srv cache req in
  (status r.1 = 200 → signed_in now env req) ∧
  (r.2 ≠ cache → signed_in now env req) ∧
  (status r.1 = 200 →
     ∃ records, body r.1 = VArr records ∧ (length records ≤ 100)%nat ∧
                Forall (λ v, not_null v = true) records) ∧
  (method req ≠ js "GET" → r = (error_response 405 "Method Not Allowed", cache)) ∧
  (method req = js "GET" →
   (∀ authHeader, authorization req = Some authHeader →
                  startsWith (js "Bearer ") authHeader = false) →
     r = (error_response 401 "Authentication required.", cache)) ∧
  (method req = js "GET" →
   (∃ authHeader, authorization req = Some authHeader ∧
                  startsWith (js "Bearer ") authHeader = true) →
   env_missing (JWT_SECRET env) = true →
     r = (error_response 500 "Authentication system not configured.", cache)).
Proof.
  intros r.
  assert (Hpass : status r.1 = 200 ∨ r.2 ≠ cache →
            signed_in now env req ∧
            (status r.1 = 200 →
             ∃ records, body r.1 = VArr records ∧ (length records ≤ 100)%nat ∧
                        Forall (λ v, not_null v = true) records)).
  { unfold r, getEmailsHandler.
    case_decide as Hm; [by intros [|]|].
    destruct (authorization req) as [[|c authHeader]|] eqn:Ha; [by intros [|]| |by intros [|]].
    destruct (startsWith (js "Bearer ") (c :: authHeader)) eqn:Hb; [|by intros [|]]. simpl.
    destruct (JWT_SECRET env) as [[|c' jwtSecret]|] eqn:Hs; [by intros [|]| |by intros [|]].
    destruct (Jwt.verify now (bearer (c :: authHeader)) (c' :: jwtSecret)) as [token|e] eqn:Hv.
    - intros _. split.
      + by exists (c :: authHeader), (c' :: jwtSecret), token.
      + destruct (Redis.getRedisClient env srv cache) as [[client|e] cache'].
        * destruct (fetch srv) as [emails|e] eqn:Hf; simpl.
          -- intros _. eexists. split; [reflexivity|].
             destruct (parsedEmails_bounds emails) as [Hlen Hnn].
             apply fetch_bounds in Hf.
             rewrite length_rev. split; [lia | by apply Forall_rev].
          -- destruct (on_error_status env e) as [-> | ->]; discriminate.
        * simpl. destruct (on_error_status env e) as [-> | ->]; discriminate.
    - simpl. intros [Hst | Hch]; [|done].
      destruct (on_error_status env e) as [Hs' | Hs']; rewrite Hs' in Hst; discriminate. }
  split; [intros; apply Hpass; auto|]. split; [intros; apply Hpass; auto|].
  split; [intros; apply Hpass; auto|].
  unfold r, getEmailsHandler. split; [|split].
  - intros Hm. by rewrite decide_True.
  - intros Hm Hno. rewrite decide_False by (rewrite Hm; auto).
    destruct (authorization req) as [[|c authHeader]|]; try done.
    by rewrite (Hno _ eq_refl).
  - intros Hm (authHeader & Ha & Hb) Hs. rewrite decide_False by (rewrite Hm; auto).
    rewrite Ha, Hb. simpl.
    destruct authHeader as [|? ?]; [by apply startsWith_nonempty in Hb|].
    by destruct (JWT_SECRET env) as [[|? ?]|].
Qed.

(** X10: the token of a login opens the list read until it expires.  If
    the serialised token reads back as itself and holds no blank, the bearer
    request that carries the token of a successful login at clock reading [T]
    is signed in at every clock reading [t] whose whole seconds lie before
    [T / 1000 + 28800], and is answered 401 from then on. *)
Theorem login_token_opens_list_read T t env srv cache password configured secret :
  let token :=
    Jwt.sign_token T (VObj [(js "user", VStr (js "admin"))]) secret Jwt.eight_hours in
  let req := {| method := js "GET";
                authorization := Some (js "Bearer " ++ token_encode token) |} in
  ADMIN_PASSWORD env = Some configured →
  Credentials.constantTimeCompare (Some password) (Some configured) = true →
  JWT_SECRET env = Some secret → secret ≠ [] →
  token_decode (token_encode token) = Some token →
  token_encode token ≠ [] → 32%N ∉ token_encode token →
  Login.loginHandler T env
    {| Login.method := js "POST";
       Login.reqBody := VObj [(js "password", VStr password)] |}
  = Ok {| status := 200; body := VObj [(js "token", VStr (token_encode token))] |} ∧
  (t / 1000 < T / 1000 + 28800 → signed_in t env req) ∧
  (T / 1000 + 28800 ≤ t / 1000 →
     getEmailsHandler t env srv cache req = (error_response 401 "Invalid token.", cache)).
Proof.
  intros token req Hpw Hok Hs Hne Hround Hnonempty Hblank.
  assert (Jwt.verify t (bearer (js "Bearer " ++ token_encode token)) secret
          = Jwt.verify_token t token secret) as Hverify.
  { rewrite (bearer_of _ Hblank). unfold Jwt.verify. rewrite Hround.
    by destruct (token_encode token). }
  assert (Jwt.verify_token t token secret =
            if decide (T / 1000 + 28800 ≤ t / 1000) then Throw Jwt.jwt_expired else Ok token)
    as Hown.
  { unfold token, Jwt.verify_token, Jwt.sign_token. simpl.
    by rewrite decide_True by reflexivity. }
  split; [|split].
  - destruct secret as [|c secret]; [done|].
    apply (login_with_string T env [(js "password", VStr password)] password configured
             c secret Hpw Hok Hs eq_refl).
  - intros Hlive. exists (js "Bearer " ++ token_encode token), secret, token.
    repeat split; try done.
    rewrite Hverify, Hown. by rewrite decide_False by lia.
  - intros Hdead. unfold getEmailsHandler, req. cbn [method authorization].
    rewrite decide_False by (intros Hn; by apply Hn).
    change (js "Bearer " ++ token_encode token)
      with (66%N :: (js "earer " ++ token_encode token)) at 1 2.
    cbn [negb]. change (66%N :: (js "earer " ++ token_encode token))
      with (js "Bearer " ++ token_encode token).
    assert (startsWith (js "Bearer ") (js "Bearer " ++ token_encode token) = true) as ->
      by reflexivity.
    cbn [negb]. rewrite Hs. destruct secret as [|c secret]; [done|].
    rewrite Hverify, Hown. by rewrite decide_True by lia.
Qed.

(** X11: the message of an error reaches the client only in development
    mode.  Unless [NODE_ENV] is [development], no answer of the list read
    has a [details] field. *)
Theorem getEmailsHandler_hides_details now env srv cache req :
  NODE_ENV env ≠ Some (js "development") →
  get_field "details" (body (getEmailsHandler now env srv cache req).1) = VUndefined.
Proof.
  intros Hprod.
  assert (∀ e, get_field "details" (body (on_error env e)) = VUndefined) as Herr.
  { intros e. unfold on_error, details_field. rewrite decide_False by exact Hprod.
    by repeat case_match. }
  unfold getEmailsHandler. repeat case_match; simpl; try reflexivity; apply Herr.
Qed.

End GetEmailsFacts.

(** ** Session tokens *)

Section TokenFacts.
Context `{Collaborators}.

(** A token verified under the secret it was signed with passes the
    signature check; what remains is the comparison of whole seconds. *)
Lemma verify_token_own now issued payload secret span :
  Jwt.verify_token now (Jwt.sign_token issued payload secret span) secret =
    if decide (issued / 1000 + span ≤ now / 1000) then Throw Jwt.jwt_expired
    else Ok (Jwt.sign_token issued payload secret span).
Proof.
  unfold Jwt.verify_token, Jwt.sign_token. simpl.
  rewrite decide_True by reflexivity. reflexivity.
Qed.

(** A correct password is answered with the token signed at the clock
    reading of the login, for eight hours. *)
Lemma loginHandler_issues now env fields password configured c secret :
  ADMIN_PASSWORD env = Some configured →
  Credentials.constantTimeCompare (Some password) (Some configured) = true →
  JWT_SECRET env = Some (c :: secret) →
  get_field "password" (VObj fields) = VStr password →
  Login.loginHandler now env {| Login.method := js "POST"; Login.reqBody := VObj fields |}
  = Ok {| status := 200;
          body := VObj [(js "token",
                         VStr (Jwt.sign now (VObj [(js "user", VStr (js "admin"))])
                                 (c :: secret) Jwt.eight_hours))] |}.
Proof. apply login_with_string. Qed.

(** C5, as the code has it: a login with the right password at clock
    reading [T] (milliseconds) answers with the serialised token that carries
    [{user: "admin"}], is signed under the configured secret, and has the
    issue time [T / 1000] in whole seconds and an expiry eight hours of
    seconds later.  Verification at clock reading [t] succeeds exactly while
    [t / 1000] lies before the expiry: at every [t ≤ T + 8h - 1s] (so at
    [T + 7h59m]); it fails with the expiry error at every [t ≥ T + 8h] (so at
    [T + 8h01m]).  In the last second before [T + 8h] the outcome depends on
    the sub-second parts of [T] and [t]. *)
Theorem session_token_lifetime (T t : Z) (secret : jsstring) :
  let admin := VObj [(js "user", VStr (js "admin"))] in
  let token := Jwt.sign_token T admin secret Jwt.eight_hours in
  (∀ env fields password configured,
     ADMIN_PASSWORD env = Some configured →
     Credentials.constantTimeCompare (Some password) (Some configured) = true →
     JWT_SECRET env = Some secret → secret ≠ [] →
     get_field "password" (VObj fields) = VStr password →
     Login.loginHandler T env {| Login.method := js "POST"; Login.reqBody := VObj fields |}
     = Ok {| status := 200; body := VObj [(js "token", VStr (token_encode token))] |}) ∧
  claims token = admin ∧
  signature token = token_mac secret admin (T / 1000) (Some (T / 1000 + 28800)) ∧
  exp token = Some (T / 1000 + 28800) ∧
  (Jwt.verify_token t token secret = Ok token ↔ t / 1000 < T / 1000 + 28800) ∧
  (Jwt.verify_token t token secret = Throw Jwt.jwt_expired ↔ T / 1000 + 28800 ≤ t / 1000) ∧
  (t ≤ T + 28800000 - 1000 → Jwt.verify_token t token secret = Ok token) ∧
  (T + 28800000 ≤ t → Jwt.verify_token t token secret = Throw Jwt.jwt_expired).
Proof.
  intros admin token. split.
  { intros env fields password configured Hpw Hok Hsecret Hne Hsent.
    destruct secret as [|c secret]; [done|].
    by rewrite (loginHandler_issues T env fields password configured c secret
                  Hpw Hok Hsecret Hsent). }
  unfold token. rewrite verify_token_own.
  change Jwt.eight_hours with 28800.
  pose proof (Z.div_mod T 1000 ltac:(lia)) as HT.
  pose proof (Z.mod_pos_bound T 1000 ltac:(lia)) as HTb.
  pose proof (Z.div_mod t 1000 ltac:(lia)) as Ht.
  pose proof (Z.mod_pos_bound t 1000 ltac:(lia)) as Htb.
  split; [reflexivity|]. split; [reflexivity|]. split; [reflexivity|].
  case_decide as Hexp; repeat split; try (intros; (discriminate || lia || reflexivity)).
Qed.

End TokenFacts.

(** ** Webhook ingestion *)

Section InboundFacts.
Context `{Collaborators}.
Import InboundEmail.

(** The server changes only on the path that has passed verification. *)
Lemma handler_stores_only_verified now env srv cache req :
  (handler now env srv cache req).2 ≠ srv →
  ∃ bytes secret event,
    rawBody req = Ok bytes ∧
    RESEND_WEBHOOK_SECRET env = Some secret ∧ secret ≠ [] ∧
    webhooks_verify bytes (envelope req) secret = Some event.
Proof.
  unfold handler. case_decide; [done|].
  destruct (rawBody req) as [bytes|]; [|done].
  destruct (RESEND_WEBHOOK_SECRET env) as [[|c secret]|]; [done| |done].
  destruct (webhooks_verify bytes (envelope req) (c :: secret)) as [event|] eqn:Hv; [|done].
  intros _. by exists bytes, (c :: secret), event.
Qed.

(** C4: a POST whose body could be read is answered 500 with the
    configuration error when no webhook secret is configured, and 401 when
    the verification of the envelope against the raw body raises; in both
    cases the server and the cached client are as before.  Whenever the
    handler does change the server, the verification had succeeded. *)
Theorem webhook_refused_before_trust now env srv cache req bytes :
  method req = js "POST" →
  rawBody req = Ok bytes →
  (env_missing (RESEND_WEBHOOK_SECRET env) = true →
     handler now env srv cache req
     = (error_response 500 "Webhook verification not configured", cache, srv)) ∧
  (∀ secret,
     RESEND_WEBHOOK_SECRET env = Some secret → secret ≠ [] →
     webhooks_verify bytes (envelope req) secret = None →
     handler now env srv cache req
     = (error_response 401 "Webhook verification failed.", cache, srv)) ∧
  ((handler now env srv cache req).2 ≠ srv →
     ∃ secret event,
       RESEND_WEBHOOK_SECRET env = Some secret ∧ secret ≠ [] ∧
       webhooks_verify bytes (envelope req) secret = Some event).
Proof.
  intros Hm Hbody. repeat split.
  - intros Hmissing. unfold handler. rewrite decide_False by (rewrite Hm; auto).
    rewrite Hbody. by destruct (RESEND_WEBHOOK_SECRET env) as [[|? ?]|].
  - intros secret Hsecret Hne Hv. unfold handler.
    rewrite decide_False by (rewrite Hm; auto).
    rewrite Hbody, Hsecret. destruct secret as [|c secret]; [done|]. by rewrite Hv.
  - intros Hchanged.
    destruct (handler_stores_only_verified _ _ _ _ _ Hchanged)
      as (bytes' & secret & event & Hb & Hs & Hne & Hv).
    rewrite Hbody in Hb. injection Hb as <-. eauto.
Qed.

(** A verified [email.received] event with data, a reachable store and a
    subject that is absent or a string: the record is pushed and the answer
    is 200. *)
Lemma handler_ingests now env srv cache req bytes c secret event client cache' :
  method req = js "POST" →
  rawBody req = Ok bytes →
  RESEND_WEBHOOK_SECRET env = Some (c :: secret) →
  webhooks_verify bytes (envelope req) (c :: secret) = Some event →
  is_literal (get_field "type" event) "email.received" = true →
  truthy (get_field "data" event) = true →
  Redis.getRedisClient env srv cache = (Ok client, cache') →
  is_string (get_field "subject" (emailToStore now (get_field "data" event))) = true →
  handler now env srv cache req =
    match Redis.lPush (JSON_stringify (emailToStore now (get_field "data" event))) srv with
    | Ok (_, srv') => (processed, cache', srv')
    | Throw saveError => (on_error env saveError, cache', srv)
    end.
Proof.
  intros Hm Hbody Hsecret Hv Htype Hdata Hclient Hsubject. unfold handler.
  rewrite decide_False by (rewrite Hm; auto).
  rewrite Hbody, Hsecret, Hv.
  destruct event; try discriminate Htype.
  rewrite Htype, Hdata, Hclient, Hsubject. simpl.
  by destruct (Redis.lPush _ srv) as [[? ?]|].
Qed.

(** X3: a subject that is present and not a string makes the ingestion fail
    after verification: the record is built, the call of [substring] on its
    subject raises, the answer is 500 and nothing is stored. *)
Theorem ingestion_needs_string_subject now env srv cache req bytes secret event
    client cache' :
  method req = js "POST" →
  rawBody req = Ok bytes →
  RESEND_WEBHOOK_SECRET env = Some secret → secret ≠ [] →
  webhooks_verify bytes (envelope req) secret = Some event →
  is_literal (get_field "type" event) "email.received" = true →
  truthy (get_field "data" event) = true →
  Redis.getRedisClient env srv cache = (Ok client, cache') →
  truthy (get_field "subject" (get_field "data" event)) = true →
  is_string (get_field "subject" (get_field "data" event)) = false →
  handler now env srv cache req
  = (on_error env (not_a_function "emailToStore.subject.substring is not a function"),
     cache', srv).
Proof.
  intros Hm Hbody Hsecret Hne Hv Htype Hdata Hclient Hpresent Hkind. unfold handler.
  rewrite decide_False by (rewrite Hm; auto).
  rewrite Hbody, Hsecret. destruct secret as [|c secret]; [done|]. rewrite Hv.
  destruct event; try discriminate Htype.
  rewrite Htype, Hdata, Hclient. cbn [negb].
  assert (is_string (get_field "subject" (emailToStore now (get_field "data" (VObj fields))))
          = false) as ->; [|reflexivity].
  change (get_field "subject" (emailToStore now (get_field "data" (VObj fields))))
    with (js_or (get_field "subject" (get_field "data" (VObj fields)))
            (VStr (js "(No Subject)"))).
  unfold js_or. by rewrite Hpresent.
Qed.

Lemma js_or_missing (v d : jsval) : truthy v = false → js_or v d = d.
Proof. unfold js_or. by intros ->. Qed.

Lemma js_or_present (v d : jsval) : truthy v = true → js_or v d = v.
Proof. unfold js_or. by intros ->. Qed.

(** The fields of the stored record, one by one. *)
Lemma emailToStore_fields now (emailData : jsval) :
  let record := emailToStore now emailData in
  get_field "id" record
    = js_or (get_field "email_id" emailData) (VStr (js "email-" ++ Z_to_js now)) ∧
  get_field "from" record = js_or (get_field "from" emailData) (VStr (js "Unknown")) ∧
  get_field "to" record = js_or (get_field "to" emailData) (VStr (js "Unknown")) ∧
  get_field "subject" record
    = js_or (get_field "subject" emailData) (VStr (js "(No Subject)")) ∧
  get_field "receivedAt" record
    = js_or (get_field "created_at" emailData) (VStr (toISOString now)).
Proof. repeat split. Qed.

(** C7: for a verified [email.received] event whose data is present, with
    the store reachable, ingestion answers 200 and pushes the serialised
    record to the head of the list, whichever of the optional fields are
    missing; in the record a missing [from] or [to] reads [Unknown], a missing
    [subject] reads [(No Subject)], a missing [email_id] is replaced by
    [email-] followed by the clock reading of the ingestion, and a field that
    is present is kept. *)
Theorem ingestion_fills_missing_fields now env srv cache req bytes secret event
    client cache' :
  method req = js "POST" →
  rawBody req = Ok bytes →
  RESEND_WEBHOOK_SECRET env = Some secret → secret ≠ [] →
  webhooks_verify bytes (envelope req) secret = Some event →
  is_literal (get_field "type" event) "email.received" = true →
  truthy (get_field "data" event) = true →
  Redis.getRedisClient env srv cache = (Ok client, cache') →
  Redis.commandError srv = None → Redis.emails srv ≠ Redis.OtherKey →
  truthy (get_field "subject" (get_field "data" event)) = false
  ∨ is_string (get_field "subject" (get_field "data" event)) = true →
  let emailData := get_field "data" event in
  let record := emailToStore now emailData in
  (∃ srv',
     handler now env srv cache req = (processed, cache', srv') ∧
     Redis.emails srv' = Redis.ListKey (JSON_stringify record :: Redis.entries_of srv)) ∧
  (truthy (get_field "from" emailData) = false →
     get_field "from" record = VStr (js "Unknown")) ∧
  (truthy (get_field "to" emailData) = false →
     get_field "to" record = VStr (js "Unknown")) ∧
  (truthy (get_field "subject" emailData) = false →
     get_field "subject" record = VStr (js "(No Subject)")) ∧
  (truthy (get_field "email_id" emailData) = false →
     get_field "id" record = VStr (js "email-" ++ Z_to_js now)) ∧
  (∀ field, field = "from" ∨ field = "to" ∨ field = "subject" →
     truthy (get_field field emailData) = true →
     get_field field record = get_field field emailData).
Proof.
  intros Hm Hbody Hsecret Hne Hv Htype Hdata Hclient Hc Hkey Hsubject emailData record.
  destruct (emailToStore_fields now emailData) as (Hid & Hfrom & Hto & Hsub & _).
  fold record in Hid, Hfrom, Hto, Hsub.
  split; [|repeat split].
  - destruct secret as [|c secret]; [done|].
    assert (is_string (get_field "subject" record) = true) as Hstr.
    { rewrite Hsub. unfold emailData, js_or.
      destruct Hsubject as [-> | Hs]; [reflexivity|].
      by destruct (truthy (get_field "subject" (get_field "data" event))). }
    rewrite (handler_ingests now env srv cache req bytes c secret event client cache'
               Hm Hbody Hsecret Hv Htype Hdata Hclient Hstr).
    fold emailData record. unfold Redis.lPush, Redis.entries_of. rewrite Hc.
    destruct (Redis.emails srv); [eauto | eauto | done].
  - intros Hmiss. by rewrite Hfrom, js_or_missing.
  - intros Hmiss. by rewrite Hto, js_or_missing.
  - intros Hmiss. by rewrite Hsub, js_or_missing.
  - intros Hmiss. by rewrite Hid, js_or_missing.
  - intros field [-> | [-> | ->]] Hpresent.
    + by rewrite Hfrom, js_or_present.
    + by rewrite Hto, js_or_present.
    + by rewrite Hsub, js_or_present.
Qed.

Lemma getRedisClient_then_cached env srv cache client cache' :
  Redis.getRedisClient env srv cache = (Ok client, cache') →
  ∀ srv2, Redis.getRedisClient env srv2 cache' = (Ok client, cache').
Proof.
  unfold Redis.getRedisClient.
  destruct cache as [[url [|]]|]; try (by intros [= <- <-]);
    (destruct (REDIS_URL env) as [[|c u]|]; [discriminate| |discriminate]);
    simpl; (destruct (Redis.connectError srv); [discriminate|]);
    by intros [= <- <-].
Qed.

Lemma on_error_not_200 env e : status (on_error env e) ≠ 200.
Proof. discriminate. Qed.

(** X12: the webhook handler only ever appends.  Whatever the request and
    the state, afterwards the server either is exactly as before, or the
    answer is 200 and the list holds one new entry, the serialised record of
    the event's data, in front of the entries it had; nothing is removed or
    reordered, and an answer other than 200 leaves the server as it was. *)
Theorem handler_append_only now env srv cache req :
  let r := handler now env srv cache req in
  (r.2 = srv ∨
   (status r.1.1 = 200 ∧
    Redis.connectError r.2 = Redis.connectError srv ∧
    Redis.commandError r.2 = Redis.commandError srv ∧
    ∃ emailData,
      Redis.emails r.2
      = Redis.ListKey (JSON_stringify (emailToStore now emailData) :: Redis.entries_of srv))) ∧
  (status r.1.1 ≠ 200 → r.2 = srv).
Proof.
  intros r.
  assert (r.2 = srv ∨
   (status r.1.1 = 200 ∧
    Redis.connectError r.2 = Redis.connectError srv ∧
    Redis.commandError r.2 = Redis.commandError srv ∧
    ∃ emailData,
      Redis.emails r.2
      = Redis.ListKey (JSON_stringify (emailToStore now emailData) :: Redis.entries_of srv)))
    as Hcases.
  { unfold r, handler. case_decide; [by left|].
    destruct (rawBody req) as [bytes|]; [|by left].
    destruct (RESEND_WEBHOOK_SECRET env) as [[|c secret]|]; [by left| |by left].
    destruct (webhooks_verify bytes (envelope req) (c :: secret)) as [event|]; [|by left].
    assert (∀ event', is_undefined event' = false → not_null event' = true →
      let r' :=
        if is_literal (get_field "type" event') "email.received" then
          let emailData := get_field "data" event' in
          if negb (truthy emailData)
          then (error_response 400 "Email data is missing", cache, srv)
          else
            match Redis.getRedisClient env srv cache with
            | (Throw error, redisClient) => (on_error env error, redisClient, srv)
            | (Ok client, redisClient) =>
                let emailToStore := emailToStore now emailData in
                if negb (is_string (get_field "subject" emailToStore))
                then (on_error env
                        (not_a_function "emailToStore.subject.substring is not a function"),
                      redisClient, srv)
                else
                  let emailJson := JSON_stringify emailToStore in
                  match Redis.lPush emailJson srv with
                  | Throw saveError => (on_error env saveError, redisClient, srv)
                  | Ok (_, srv) => (processed, redisClient, srv)
                  end
            end
        else (processed, cache, srv) in
      r'.2 = srv ∨
      (status r'.1.1 = 200 ∧
       Redis.connectError r'.2 = Redis.connectError srv ∧
       Redis.commandError r'.2 = Redis.commandError srv ∧
       ∃ emailData,
         Redis.emails r'.2
         = Redis.ListKey (JSON_stringify (emailToStore now emailData) :: Redis.entries_of srv)))
      as Hevent.
    { intros event' _ _. cbv zeta.
      destruct (is_literal _ _); [|by left].
      destruct (negb (truthy _)); [by left|].
      destruct (Redis.getRedisClient env srv cache) as [[client|e] cache']; [|by left].
      destruct (negb (is_string _)); [by left|].
      destruct (Redis.lPush _ srv) as [[n srv']|e] eqn:Hpush; [|by left].
      right. apply lPush_spec in Hpush as (Hc & Hc' & Hconn & older & He & _ & Hold).
      simpl. split; [reflexivity|]. split; [exact Hconn|]. split; [congruence|].
      eexists. rewrite He. unfold Redis.entries_of.
      by destruct (Redis.emails srv); subst. }
    destruct event; try (by left); by apply Hevent. }
  split; [exact Hcases|].
  intros Hst. destruct Hcases as [Hsame | (H200 & _)]; [exact Hsame | contradiction].
Qed.

(** X13: an event of another kind is acknowledged with 200 and an
    [email.received] event without data is answered 400; in both cases the
    store is not contacted: the server and the cached client are as before. *)
Theorem handler_discards_other_events now env srv cache req bytes secret event :
  method req = js "POST" →
  rawBody req = Ok bytes →
  RESEND_WEBHOOK_SECRET env = Some secret → secret ≠ [] →
  webhooks_verify bytes (envelope req) secret = Some event →
  is_undefined event = false → not_null event = true →
  (is_literal (get_field "type" event) "email.received" = false →
     handler now env srv cache req = (processed, cache, srv)) ∧
  (is_literal (get_field "type" event) "email.received" = true →
   truthy (get_field "data" event) = false →
     handler now env srv cache req
     = (error_response 400 "Email data is missing", cache, srv)).
Proof.
  intros Hm Hbody Hsecret Hne Hv Hdef Hnn.
  destruct secret as [|c secret]; [done|].
  split.
  - intros Htype. unfold handler. rewrite decide_False by (rewrite Hm; auto).
    rewrite Hbody, Hsecret, Hv. destruct event; try done; by rewrite Htype.
  - intros Htype Hdata. unfold handler. rewrite decide_False by (rewrite Hm; auto).
    rewrite Hbody, Hsecret, Hv. destruct event; try done. by rewrite Htype, Hdata.
Qed.

(** X14: a delivery is not remembered.  The same verified event delivered
    twice is ingested twice: both calls answer 200, the second one reuses the
    client the first one cached, and the list ends with two records of the
    event in front of what it held, the later one first. *)
Theorem handler_ingests_duplicates now1 now2 env srv cache req bytes secret event
    client cache' :
  method req = js "POST" →
  rawBody req = Ok bytes →
  RESEND_WEBHOOK_SECRET env = Some secret → secret ≠ [] →
  webhooks_verify bytes (envelope req) secret = Some event →
  is_literal (get_field "type" event) "email.received" = true →
  truthy (get_field "data" event) = true →
  Redis.getRedisClient env srv cache = (Ok client, cache') →
  Redis.commandError srv = None → Redis.emails srv ≠ Redis.OtherKey →
  truthy (get_field "subject" (get_field "data" event)) = false
  ∨ is_string (get_field "subject" (get_field "data" event)) = true →
  let emailData := get_field "data" event in
  ∃ srv1 srv2,
    handler now1 env srv cache req = (processed, cache', srv1) ∧
    handler now2 env srv1 cache' req = (processed, cache', srv2) ∧
    Redis.emails srv2
    = Redis.ListKey (JSON_stringify (emailToStore now2 emailData)
                     :: JSON_stringify (emailToStore now1 emailData)
                     :: Redis.entries_of srv).
Proof.
  intros Hm Hbody Hsecret Hne Hv Htype Hdata Hclient Hc Hkey Hsubject emailData.
  destruct secret as [|c secret]; [done|].
  assert (∀ now, is_string (get_field "subject" (emailToStore now emailData)) = true)
    as Hstr.
  { intros now.
    change (get_field "subject" (emailToStore now emailData))
      with (js_or (get_field "subject" emailData) (VStr (js "(No Subject)"))).
    unfold emailData, js_or. destruct Hsubject as [-> | Hs]; [reflexivity|].
    by destruct (truthy (get_field "subject" (get_field "data" event))). }
  pose proof (getRedisClient_then_cached _ _ _ _ _ Hclient) as Hcached.
  rewrite (handler_ingests now1 env srv cache req bytes c secret event client cache'
             Hm Hbody Hsecret Hv Htype Hdata Hclient (Hstr now1)).
  fold emailData.
  destruct (Redis.lPush (JSON_stringify (emailToStore now1 emailData)) srv)
    as [[n1 srv1]|e] eqn:Hpush1.
  2: { unfold Redis.lPush in Hpush1. rewrite Hc in Hpush1.
       by destruct (Redis.emails srv). }
  apply lPush_spec in Hpush1 as (_ & Hc1 & _ & older & He1 & _ & Hold).
  assert (older = Redis.entries_of srv) as ->.
  { unfold Redis.entries_of. by destruct (Redis.emails srv). }
  exists srv1. eexists. split; [reflexivity|].
  rewrite (handler_ingests now2 env srv1 cache' req bytes c secret event client cache'
             Hm Hbody Hsecret Hv Htype Hdata (Hcached srv1) (Hstr now2)).
  fold emailData. unfold Redis.lPush. rewrite Hc1, He1.
  split; reflexivity.
Qed.

(** X15: unless [NODE_ENV] is [development], no answer of the webhook
    handler has a [details] field. *)
Theorem handler_hides_details now env srv cache req :
  NODE_ENV env ≠ Some (js "development") →
  get_field "details" (body (handler now env srv cache req).1.1) = VUndefined.
Proof.
  intros Hprod.
  assert (∀ e, get_field "details" (body (on_error env e)) = VUndefined) as Herr.
  { intros e. unfold on_error, details_field. by rewrite decide_False by exact Hprod. }
  unfold handler. repeat case_match; simpl; try reflexivity; apply Herr.
Qed.

Lemma getRawBody_chunks : ∀ (chunks seen : list (list N)) (later : list StreamEvent),
  getRawBody ((Data <$> chunks) ++ later) seen = getRawBody later (seen ++ chunks).
Proof.
  induction chunks as [|chunk chunks IH]; intros seen later; simpl.
  - by rewrite app_nil_r.
  - by rewrite IH, <- app_assoc.
Qed.

(** X21: the raw body is the bytes of the request in the order of their
    arrival, however the stream cut them into chunks: two streams whose chunks
    concatenate to the same bytes give the same body, which is therefore what
    the signature is verified against.  The promise settles once: an error
    before the end rejects it, and nothing emitted after the end or the error
    changes the outcome; a stream that has neither ended nor failed leaves it
    pending. *)
Theorem getRawBody_is_the_byte_stream (chunks chunks' : list (list N))
    (later : list StreamEvent) (e : JsError) :
  getRawBody ((Data <$> chunks) ++ StreamEnd :: later) [] = Some (Ok (concat chunks)) ∧
  (concat chunks = concat chunks' →
     getRawBody ((Data <$> chunks) ++ StreamEnd :: later) []
     = getRawBody ((Data <$> chunks') ++ [StreamEnd]) []) ∧
  getRawBody ((Data <$> chunks) ++ StreamError e :: later) [] = Some (Throw e) ∧
  getRawBody (Data <$> chunks) [] = None.
Proof.
  repeat split.
  - by rewrite getRawBody_chunks.
  - intros Hsame. rewrite !getRawBody_chunks. simpl. by rewrite Hsame.
  - by rewrite getRawBody_chunks.
  - rewrite <- (app_nil_r (Data <$> chunks)). by rewrite getRawBody_chunks.
Qed.

End InboundFacts.

(** ** From ingestion to the list read *)

Section PipelineFacts.
Context `{Collaborators}.

Lemma getRedisClient_same_connect env srv srv' cache :
  Redis.connectError srv' = Redis.connectError srv →
  Redis.getRedisClient env srv' cache = Redis.getRedisClient env srv cache.
Proof. intros Hc. unfold Redis.getRedisClient. by rewrite Hc. Qed.

(** X16: what the webhook handler stores, the list read returns.  After
    the ingestion of a verified event, a signed-in read that obtains a client
    answers 200 with the records that were readable before (as far as they
    still fit the range of 100) in reversed order, followed by the record of
    the event, provided the serialised record parses back to itself. *)
Theorem ingested_record_is_listed now t env srv cache req bytes secret event
    client cache' reader readerCache readerClient readerCache' :
  InboundEmail.method req = js "POST" →
  InboundEmail.rawBody req = Ok bytes →
  RESEND_WEBHOOK_SECRET env = Some secret → secret ≠ [] →
  webhooks_verify bytes (InboundEmail.envelope req) secret = Some event →
  is_literal (get_field "type" event) "email.received" = true →
  truthy (get_field "data" event) = true →
  Redis.getRedisClient env srv cache = (Ok client, cache') →
  Redis.commandError srv = None → Redis.emails srv ≠ Redis.OtherKey →
  truthy (get_field "subject" (get_field "data" event)) = false
  ∨ is_string (get_field "subject" (get_field "data" event)) = true →
  let record := InboundEmail.emailToStore now (get_field "data" event) in
  JSON_parse (JSON_stringify record) = Some record →
  GetEmails.signed_in t env reader →
  Redis.getRedisClient env srv readerCache = (Ok readerClient, readerCache') →
  ∃ srv',
    InboundEmail.handler now env srv cache req = (InboundEmail.processed, cache', srv') ∧
    GetEmails.getEmailsHandler t env srv' readerCache reader
    = ({| status := 200;
          body := VArr (rev (GetEmails.parsedEmails (take 99 (Redis.entries_of srv)))
                        ++ [record]) |}, readerCache').
Proof.
  intros Hm Hbody Hsecret Hne Hv Htype Hdata Hclient Hc Hkey Hsubject record Hround
    Hin Hreader.
  destruct secret as [|c secret]; [done|].
  assert (is_string (get_field "subject" record) = true) as Hstr.
  { change (get_field "subject" record)
      with (js_or (get_field "subject" (get_field "data" event)) (VStr (js "(No Subject)"))).
    unfold js_or. destruct Hsubject as [-> | Hs]; [reflexivity|].
    by destruct (truthy (get_field "subject" (get_field "data" event))). }
  rewrite (handler_ingests now env srv cache req bytes c secret event client cache'
             Hm Hbody Hsecret Hv Htype Hdata Hclient Hstr).
  fold record.
  destruct (Redis.lPush (JSON_stringify record) srv) as [[n srv']|e] eqn:Hpush.
  2: { unfold Redis.lPush in Hpush. rewrite Hc in Hpush. by destruct (Redis.emails srv). }
  exists srv'. split; [reflexivity|].
  apply lPush_spec in Hpush as (_ & Hc' & Hconn & older & He' & _ & Hold).
  assert (older = Redis.entries_of srv) as ->.
  { unfold Redis.entries_of. by destruct (Redis.emails srv). }
  rewrite <- (getRedisClient_same_connect env srv srv' readerCache Hconn) in Hreader.
  rewrite (getEmailsHandler_signed_in _ _ _ _ _ _ _ Hin Hreader).
  rewrite (fetch_without_fault _ Hc'). unfold GetEmails.stored. rewrite He'.
  change (take 100 (JSON_stringify record :: Redis.entries_of srv))
    with ([JSON_stringify record] ++ take 99 (Redis.entries_of srv)).
  rewrite parsedEmails_app.
  assert (GetEmails.parsedEmails [JSON_stringify record] = [record]) as ->.
  { unfold GetEmails.parsedEmails, GetEmails.parse_or_null. simpl. by rewrite Hround. }
  reflexivity.
Qed.

End PipelineFacts.

(** ** The matcher and the patterns *)

Section RegexFacts.
Import Regex.

Lemma nullable_lang r : nullable r = true ↔ lang r [].
Proof.
  split.
  - induction r; simpl; try discriminate; intros Hn.
    + constructor.
    + apply andb_prop in Hn as [H1 H2].
      change (@nil N) with (@nil N ++ []). constructor; auto.
    + apply orb_prop in Hn as [Hn | Hn]; [apply lang_alt_l | apply lang_alt_r]; auto.
    + constructor.
  - intros Hl. remember [] as s eqn:Hs. induction Hl; subst; simpl; try discriminate; auto.
    + apply app_eq_nil in Hs as [-> ->]. by rewrite IHHl1, IHHl2.
    + by rewrite IHHl.
    + rewrite IHHl by reflexivity. apply orb_true_r.
Qed.

Lemma deriv_sound c : ∀ r s, lang (deriv c r) s → lang r (c :: s).
Proof.
  induction r as [| |k|r1 IH1 r2 IH2|r1 IH1 r2 IH2|r1 IH1]; simpl; intros s Hl.
  - inversion Hl.
  - inversion Hl.
  - destruct (class_matches k c) eqn:Hk; inversion Hl; subst. by constructor.
  - destruct (nullable r1) eqn:Hn.
    + inversion Hl as [| | |? ? ? Hleft|? ? ? Hright| |]; subst.
      * inversion Hleft; subst.
        change (c :: s1 ++ s2) with ((c :: s1) ++ s2). constructor; auto.
      * change (c :: s) with ([] ++ c :: s). constructor; [by apply nullable_lang | auto].
    + inversion Hl; subst.
      change (c :: s1 ++ s2) with ((c :: s1) ++ s2). constructor; auto.
  - inversion Hl; subst; [apply lang_alt_l | apply lang_alt_r]; auto.
  - inversion Hl; subst.
    change (c :: s1 ++ s2) with ((c :: s1) ++ s2). constructor; auto.
Qed.

Lemma deriv_complete c r w : lang r w → ∀ s, w = c :: s → lang (deriv c r) s.
Proof.
  induction 1 as [|k c' Hk|r1 r2 s1 s2 H1 IH1 H2 IH2|r1 r2 s0 H1 IH1|r1 r2 s0 H2 IH2
                  |r1|r1 s1 s2 H1 IH1 H2 IH2]; intros s Hw; simpl.
  - discriminate.
  - injection Hw as -> <-. rewrite Hk. constructor.
  - destruct s1 as [|c1 s1]; simpl in Hw.
    + apply nullable_lang in H1. rewrite H1. apply lang_alt_r. auto.
    + injection Hw as -> <-.
      destruct (nullable r1); [apply lang_alt_l|]; constructor; auto.
  - apply lang_alt_l. auto.
  - apply lang_alt_r. auto.
  - discriminate.
  - destruct s1 as [|c1 s1]; simpl in Hw.
    + by apply IH2.
    + injection Hw as -> <-. constructor; auto.
Qed.

(** The matcher decides membership in the pattern's language. *)
Lemma test_lang : ∀ s r, test r s = true ↔ lang r s.
Proof.
  induction s as [|c s IH]; intros r; simpl.
  - apply nullable_lang.
  - rewrite IH. split; [apply deriv_sound | intros Hl; by eapply deriv_complete].
Qed.

Lemma lang_star_class k s : lang (Star (Chr k)) s → Forall (λ c, class_matches k c = true) s.
Proof.
  intros Hl. remember (Star (Chr k)) as r eqn:Hr.
  induction Hl; try discriminate; injection Hr as ->; [constructor|].
  inversion Hl1; subst. constructor; auto.
Qed.

Lemma lang_plus_class k s :
  lang (Plus (Chr k)) s → s ≠ [] ∧ Forall (λ c, class_matches k c = true) s.
Proof.
  intros Hl. inversion Hl as [| |? ? ? ? H1 H2| | | |]; subst.
  inversion H1; subst. apply lang_star_class in H2. split; [discriminate | by constructor].
Qed.

Lemma lang_seq_all_cons r rs s :
  lang (seq_all (r :: rs)) s → ∃ s1 s2, s = s1 ++ s2 ∧ lang r s1 ∧ lang (seq_all rs) s2.
Proof. intros Hl. inversion Hl; subst. eauto. Qed.

Lemma lang_seq_all_nil s : lang (seq_all []) s → s = [].
Proof. intros Hl. by inversion Hl. Qed.

Lemma lang_one_char c s : lang (Chr (One (AChar c))) s → s = [c].
Proof.
  intros Hl. inversion Hl as [|? c' Hc| | | | |]; subst. simpl in Hc.
  apply N.eqb_eq in Hc. by subst.
Qed.

End RegexFacts.

(** ** Trimming *)

Section TrimFacts.

Lemma trim_start_spaces (pre s : jsstring) :
  Forall (λ c, is_space c = true) pre → trim_start (pre ++ s) = trim_start s.
Proof. induction 1 as [|c pre Hc _ IH]; simpl; [reflexivity|]. by rewrite Hc. Qed.

Lemma trim_start_split (s : jsstring) :
  ∃ pre, s = pre ++ trim_start s ∧ Forall (λ c, is_space c = true) pre.
Proof.
  induction s as [|c s (pre & Hs & Hpre)]; simpl.
  - by exists [].
  - destruct (is_space c) eqn:Hc.
    + exists (c :: pre). split; [simpl; congruence | by constructor].
    + by exists [].
Qed.

Lemma trim_end_spaces (s post : jsstring) :
  Forall (λ c, is_space c = true) post → trim_end (s ++ post) = trim_end s.
Proof.
  intros Hpost. unfold trim_end. rewrite rev_app_distr.
  rewrite trim_start_spaces; [reflexivity|]. by apply Forall_rev.
Qed.

Lemma trim_end_split (s : jsstring) :
  ∃ post, s = trim_end s ++ post ∧ Forall (λ c, is_space c = true) post.
Proof.
  destruct (trim_start_split (rev s)) as (pre & Hs & Hpre).
  exists (rev pre). split; [|by apply Forall_rev].
  unfold trim_end. rewrite <- rev_app_distr, <- Hs. by rewrite rev_involutive.
Qed.

(** [s.trim()] is [s] without a run of white space at either end. *)
Lemma trim_split (s : jsstring) :
  ∃ pre post, s = pre ++ trim s ++ post ∧
              Forall (λ c, is_space c = true) pre ∧ Forall (λ c, is_space c = true) post.
Proof.
  destruct (trim_start_split s) as (pre & Hs & Hpre).
  destruct (trim_end_split (trim_start s)) as (post & Ht & Hpost).
  exists pre, post. unfold trim. by rewrite <- Ht.
Qed.

Lemma trim_start_app (s post : jsstring) :
  trim_start s ≠ [] → trim_start (s ++ post) = trim_start s ++ post.
Proof.
  induction s as [|c s IH]; simpl; [done|].
  destruct (is_space c); [exact IH | reflexivity].
Qed.

Lemma trim_start_all_spaces (s : jsstring) :
  trim_start s = [] → Forall (λ c, is_space c = true) s.
Proof.
  induction s as [|c s IH]; simpl; [constructor|].
  destruct (is_space c) eqn:Hc; [|discriminate]. constructor; auto.
Qed.

(** White space around a string does not change what [trim] returns. *)
Lemma trim_padded (pre s post : jsstring) :
  Forall (λ c, is_space c = true) pre → Forall (λ c, is_space c = true) post →
  trim (pre ++ s ++ post) = trim s.
Proof.
  intros Hpre Hpost. unfold trim. rewrite (trim_start_spaces _ _ Hpre).
  destruct (trim_start s) as [|c t] eqn:Hs.
  - apply trim_start_all_spaces in Hs.
    rewrite (trim_start_spaces s post Hs).
    replace (trim_start post) with (@nil N); [reflexivity|].
    symmetry. rewrite <- (app_nil_r post). by rewrite trim_start_spaces.
  - rewrite trim_start_app by (rewrite Hs; discriminate).
    rewrite Hs. by apply trim_end_spaces.
Qed.

End TrimFacts.

(** ** The caller's identity *)

Section IdentifierFacts.
Import RateLimit.

Lemma trim_start_head (s : jsstring) c t : trim_start s = c :: t → is_space c = false.
Proof.
  induction s as [|x s IH]; simpl; [discriminate|].
  destruct (is_space x) eqn:Hx; [exact IH|]. by intros [= <- _].
Qed.

(** What [trim] returns neither starts nor ends with white space. *)
Lemma trim_edges (s : jsstring) :
  (∀ c t, trim s = c :: t → is_space c = false) ∧
  (∀ c t, trim s = t ++ [c] → is_space c = false).
Proof.
  unfold trim. split.
  - intros c t Ht.
    destruct (trim_end_split (trim_start s)) as (post & Hs & _).
    rewrite Ht in Hs. by apply (trim_start_head s c (t ++ post)).
  - intros c t Ht. unfold trim_end in Ht.
    apply (f_equal (@rev N)) in Ht. rewrite rev_involutive, rev_app_distr in Ht.
    by apply trim_start_head in Ht.
Qed.

Lemma trim_sublist (s : jsstring) (c : N) : c ∈ trim s → c ∈ s.
Proof.
  destruct (trim_split s) as (pre & post & Hs & _). intros Hin.
  rewrite Hs, !elem_of_app. auto.
Qed.

(** The first piece of a split holds no separator. *)
Lemma split_on_head (sep : N) (s : jsstring) :
  ∃ piece pieces, split_on sep s = piece :: pieces ∧ sep ∉ piece.
Proof.
  induction s as [|c s (piece & pieces & Hs & Hno)]; simpl.
  - exists [], []. split; [reflexivity|]. apply not_elem_of_nil.
  - destruct (N.eqb_spec c sep) as [->|Hc].
    + exists [], (split_on sep s). split; [reflexivity|]. apply not_elem_of_nil.
    + rewrite Hs. exists (c :: piece), pieces. split; [reflexivity|].
      apply not_elem_of_cons. auto.
Qed.

(** X7: the identifier a request is counted under is never empty.  When
    the first comma-separated piece of [x-forwarded-for] is not blank, the
    identifier is that piece trimmed, whatever [x-real-ip] and the socket
    address say; it then holds no comma and neither starts nor ends with white
    space.  A request without any of the three sources is counted under
    [unknown]. *)
Theorem identifier_source (req : Request) :
  identifier req ≠ [] ∧
  (∀ h piece,
     x_forwarded_for req = Some h → head (split_on 44%N h) = Some piece →
     trim piece ≠ [] →
     identifier req = trim piece ∧ (44%N ∉ identifier req) ∧
     (∀ c t, identifier req = c :: t → is_space c = false) ∧
     (∀ c t, identifier req = t ++ [c] → is_space c = false)) ∧
  (env_missing (x_forwarded_for req) = true → env_missing (x_real_ip req) = true →
   env_missing (remoteAddress req) = true → identifier req = js "unknown").
Proof.
  split; [|split].
  - unfold identifier.
    destruct (x_forwarded_for req) as [h|]; simpl.
    + destruct (head (split_on 44%N h)) as [piece|]; simpl;
        [destruct (trim piece) eqn:Ht; simpl; [|done]|];
        destruct (x_real_ip req) as [[|? ?]|]; simpl; try done;
        by destruct (remoteAddress req) as [[|? ?]|].
    + destruct (x_real_ip req) as [[|? ?]|]; simpl; try done;
        by destruct (remoteAddress req) as [[|? ?]|].
  - intros h piece Hh Hpiece Hne.
    assert (identifier req = trim piece) as Hid.
    { unfold identifier. rewrite Hh, Hpiece. simpl. by destruct (trim piece). }
    rewrite Hid. split; [reflexivity|]. split; [|apply trim_edges].
    intros Hin. apply trim_sublist in Hin.
    destruct (split_on_head 44%N h) as (piece' & pieces & Hs & Hno).
    rewrite Hs in Hpiece. simpl in Hpiece. injection Hpiece as ->. contradiction.
  - unfold identifier, env_missing.
    destruct (x_forwarded_for req) as [[|? ?]|]; try discriminate;
      destruct (x_real_ip req) as [[|? ?]|]; try discriminate;
      by destruct (remoteAddress req) as [[|? ?]|].
Qed.

End IdentifierFacts.

(** ** Outbound mail *)

Section SendFacts.
Context `{Collaborators}.
Import Regex SendEmail.

(** What the address pattern accepts: [x@y.z] with [x], [y], [z] non-empty
    and free of white space and of [@]. *)
Lemma emailRegex_shape (s : jsstring) :
  test emailRegex s = true →
  ∃ x y z, s = x ++ [64%N] ++ y ++ [46%N] ++ z ∧
           x ≠ [] ∧ y ≠ [] ∧ z ≠ [] ∧
           Forall (λ c, class_matches address_unit c = true) (x ++ y ++ z).
Proof.
  intros Ht. apply test_lang in Ht. unfold emailRegex in Ht.
  apply lang_seq_all_cons in Ht as (x & s1 & -> & Hx & Ht).
  apply lang_seq_all_cons in Ht as (a & s2 & -> & Ha & Ht).
  apply lang_seq_all_cons in Ht as (y & s3 & -> & Hy & Ht).
  apply lang_seq_all_cons in Ht as (d & s4 & -> & Hd & Ht).
  apply lang_seq_all_cons in Ht as (z & s5 & -> & Hz & Ht).
  apply lang_seq_all_nil in Ht as ->.
  apply lang_seq_all_cons in Ha as (a1 & a2 & -> & Ha & ->%lang_seq_all_nil).
  apply lang_seq_all_cons in Hd as (d1 & d2 & -> & Hd & ->%lang_seq_all_nil).
  apply lang_one_char in Ha as ->. apply lang_one_char in Hd as ->.
  apply lang_plus_class in Hx as [Hx Hxs], Hy as [Hy Hys], Hz as [Hz Hzs].
  exists x, y, z. rewrite !app_nil_r. repeat split; try done.
  rewrite !Forall_app. auto.
Qed.

Lemma address_unit_not_at c : class_matches address_unit c = true → c ≠ 64%N.
Proof.
  simpl. intros Hc ->. by rewrite orb_true_r in Hc.
Qed.

Lemma space_not_at c : is_space c = true → c ≠ 64%N.
Proof. by intros Hc ->. Qed.

(** A unit that occurs once marks the same place in both readings. *)
Lemma split_at_unique (a : N) : ∀ (l d l' d' : jsstring),
  l ++ [a] ++ d = l' ++ [a] ++ d' → a ∉ l' → a ∉ d' → d = d'.
Proof.
  induction l as [|b l IH]; intros d [|b' l'] d' Heq Hl' Hd'; simpl in Heq.
  - by injection Heq.
  - injection Heq as <- _. exfalso. apply Hl'. constructor.
  - injection Heq as -> Heq. exfalso. apply Hd'. rewrite <- Heq.
    apply elem_of_app. right. constructor.
  - injection Heq as <- Heq. apply (IH _ _ _ Heq); [|exact Hd'].
    intros Hin. apply Hl'. by constructor.
Qed.

Lemma isValidEmail_trims (s : jsstring) :
  isValidEmail (VStr s) = test emailRegex (trim s).
Proof. by destruct s. Qed.

(** C10: an address whose part after an [@] has no dot is not valid, and
    the send handler answers it with the 400 of a malformed address; white
    space around the address is ignored by the check. *)
Theorem address_needs_dotted_domain (local domain : jsstring) :
  46%N ∉ domain →
  isValidEmail (VStr (local ++ [64%N] ++ domain)) = false ∧
  (∀ env req fields,
     SendEmail.method req = js "POST" →
     env_missing (RESEND_API_KEY env) = false →
     reqBody req = VObj fields →
     get_field "to" (VObj fields) = VStr (local ++ [64%N] ++ domain) →
     sendEmailHandler env req = (say 400 "Invalid email address format.", None)) ∧
  (∀ pre s post,
     Forall (λ c, is_space c = true) pre → Forall (λ c, is_space c = true) post →
     isValidEmail (VStr (pre ++ s ++ post)) = isValidEmail (VStr s)).
Proof.
  intros Hdot.
  assert (isValidEmail (VStr (local ++ [64%N] ++ domain)) = false) as Hinvalid.
  { rewrite isValidEmail_trims. apply not_true_is_false. intros Ht.
    apply emailRegex_shape in Ht as (x & y & z & Hshape & _ & _ & _ & Hunits).
    destruct (trim_split (local ++ [64%N] ++ domain)) as (pre & post & Hs & Hpre & Hpost).
    rewrite Hshape in Hs.
    apply Forall_app in Hunits as [Hx Hyz]. apply Forall_app in Hyz as [Hy Hz].
    replace (pre ++ (x ++ [64%N] ++ y ++ [46%N] ++ z) ++ post)
      with ((pre ++ x) ++ [64%N] ++ (y ++ [46%N] ++ z ++ post)) in Hs
      by (by rewrite <- !app_assoc).
    apply split_at_unique in Hs.
    - apply Hdot. rewrite Hs. rewrite !elem_of_app. right. left. constructor.
    - rewrite elem_of_app. intros [Hin | Hin].
      + eapply Forall_forall in Hpre; [|exact Hin]. by apply space_not_at in Hpre.
      + eapply Forall_forall in Hx; [|exact Hin]. by apply address_unit_not_at in Hx.
    - rewrite !elem_of_app. intros [Hin | [Hin | [Hin | Hin]]].
      + eapply Forall_forall in Hy; [|exact Hin]. by apply address_unit_not_at in Hy.
      + by apply list_elem_of_singleton in Hin.
      + eapply Forall_forall in Hz; [|exact Hin]. by apply address_unit_not_at in Hz.
      + eapply Forall_forall in Hpost; [|exact Hin]. by apply space_not_at in Hpost. }
  split; [exact Hinvalid|]. split.
  - intros env req fields Hm Hkey Hbody Hto. unfold sendEmailHandler.
    rewrite decide_False by (rewrite Hm; auto).
    rewrite Hkey, Hbody, Hto, Hinvalid.
    by destruct local.
  - intros pre s post Hpre Hpost.
    by rewrite !isValidEmail_trims, trim_padded.
Qed.

Lemma isValidEmail_string (to : jsval) :
  isValidEmail to = true → truthy to = true ∧ is_string to = true.
Proof. by destruct to as [| | | |[|? ?]| |]. Qed.

Lemma subject_missing_blank (subject : jsstring) :
  subject_missing (VStr subject) = true ↔ trim subject = [].
Proof. simpl. by destruct (trim subject). Qed.

(** A string trims to nothing exactly when it holds white space only. *)
Lemma trim_blank (s : jsstring) :
  trim s = [] ↔ Forall (λ c, is_space c = true) s.
Proof.
  split.
  - intros Ht. destruct (trim_split s) as (pre & post & Hs & Hpre & Hpost).
    rewrite Ht in Hs. rewrite Hs. by apply Forall_app.
  - intros Hs. pose proof (trim_padded s [] [] Hs (Forall_nil_2 _)) as Ht.
    simpl in Ht. by rewrite app_nil_r in Ht.
Qed.

(** The subject test holds for an absent subject, for one that is not a
    string, and for a string of white space; for no other value. *)
Lemma subject_missing_spec (subject : jsval) :
  subject_missing subject = true ↔
  is_string subject = false ∨
  ∃ s, subject = VStr s ∧ Forall (λ c, is_space c = true) s.
Proof.
  destruct subject as [| | | |s| |];
    try (split; [by left | reflexivity]).
  rewrite subject_missing_blank, trim_blank. split.
  - intros Hs. right. by exists s.
  - by intros [? | (? & [= <-] & ?)].
Qed.

(** The body test holds for an absent body, for one that is not a string,
    for a string of white space, and for a string that one of the five
    patterns matches once it is trimmed; for no other value. *)
Lemma isEmptyHTML_spec (html : jsval) :
  isEmptyHTML html = true ↔
  is_string html = false ∨
  ∃ h, html = VStr h ∧
       (Forall (λ c, is_space c = true) h ∨
        ∃ pattern, pattern ∈ emptyPatterns ∧ lang pattern (trim h)).
Proof.
  destruct html as [| | | |h| |];
    try (split; [by left | reflexivity]).
  assert (isEmptyHTML (VStr h) = true ↔
          trim h = [] ∨ ∃ pattern, pattern ∈ emptyPatterns ∧ lang pattern (trim h)) as ->.
  { unfold isEmptyHTML. destruct (trim h) as [|c t] eqn:Ht; [by split; [left|]|].
    rewrite existsb_exists. split.
    - intros (pattern & Hin & Hmatch). right. exists pattern.
      split; [by apply list_elem_of_In | by apply test_lang].
    - intros [? | (pattern & Hin & Hmatch)]; [done|]. exists pattern.
      split; [by apply list_elem_of_In | by apply test_lang]. }
  rewrite trim_blank. split.
  - intros Hh. right. by exists h.
  - by intros [? | (? & [= <-] & ?)].
Qed.

(** C8: with the method and the provider key in order, the handler checks the
    recipient, then the subject, then the body, and answers the first check
    that fails with a 400.  A recipient that is absent, empty or no string,
    and one that is no address (so [not-an-email]), are refused; then a
    subject that is absent, no string, or white space only; then a body that
    is absent, no string, white space only, or matched by one of the five
    patterns once trimmed (so [<p></p>]).  Only when all three pass does the
    handler hand a message to the provider, with the subject trimmed and cut
    to 200 units; the body [<p>hello</p>] passes. *)
Theorem send_validates_in_order env req :
  SendEmail.method req = js "POST" →
  env_missing (RESEND_API_KEY env) = false →
  is_undefined (reqBody req) = false → not_null (reqBody req) = true →
  let to := get_field "to" (reqBody req) in
  let subject := get_field "subject" (reqBody req) in
  let html := get_field "html" (reqBody req) in
  let blank := Forall (λ c, is_space c = true) in
  (truthy to = false ∨ is_string to = false →
     sendEmailHandler env req = (say 400 "Recipient email address is required.", None)) ∧
  (truthy to = true → is_string to = true → isValidEmail to = false →
     sendEmailHandler env req = (say 400 "Invalid email address format.", None)) ∧
  (to = VStr (js "not-an-email") →
     sendEmailHandler env req = (say 400 "Invalid email address format.", None)) ∧
  (isValidEmail to = true →
   is_string subject = false ∨ (∃ s, subject = VStr s ∧ blank s) →
     sendEmailHandler env req = (say 400 "Email subject is required.", None)) ∧
  (isValidEmail to = true →
   (∃ s, subject = VStr s ∧ ¬ blank s) →
   is_string html = false ∨
   (∃ h, html = VStr h ∧
         (blank h ∨ ∃ pattern, pattern ∈ emptyPatterns ∧ lang pattern (trim h))) →
     sendEmailHandler env req = (say 400 "Email body cannot be empty.", None)) ∧
  (isValidEmail to = true →
   (∃ s, subject = VStr s ∧ ¬ blank s) →
   html = VStr (js "<p></p>") →
     sendEmailHandler env req = (say 400 "Email body cannot be empty.", None)) ∧
  (∀ t s h,
     to = VStr t → subject = VStr s → html = VStr h →
     isValidEmail to = true → ¬ blank s →
     ¬ blank h → (∀ pattern, pattern ∈ emptyPatterns → ¬ lang pattern (trim h)) →
     ∃ response,
       sendEmailHandler env req =
         (response,
          Some {| msgFrom := js "The Warmthly Desk <desk@warmthly.org>";
                  msgTo := [trim t];
                  msgSubject := substring0 200 (trim s);
                  msgHtml := h |}) ∧
       (length (substring0 200 (trim s)) ≤ 200)%nat) ∧
  (∀ t s,
     to = VStr t → subject = VStr s → html = VStr (js "<p>hello</p>") →
     isValidEmail to = true → ¬ blank s →
     ∃ response,
       sendEmailHandler env req =
         (response,
          Some {| msgFrom := js "The Warmthly Desk <desk@warmthly.org>";
                  msgTo := [trim t];
                  msgSubject := substring0 200 (trim s);
                  msgHtml := js "<p>hello</p>" |})) ∧
  isValidEmail (VStr (js "not-an-email")) = false ∧
  isEmptyHTML (VStr (js "<p></p>")) = true ∧
  isEmptyHTML (VStr (js "<p>hello</p>")) = false.
Proof.
  intros Hm Hkey Hdef Hnn to subject html blank.
  assert (sendEmailHandler env req =
    if negb (truthy to) || negb (is_string to)
    then (say 400 "Recipient email address is required.", None)
    else if negb (isValidEmail to)
    then (say 400 "Invalid email address format.", None)
    else if subject_missing subject
    then (say 400 "Email subject is required.", None)
    else if isEmptyHTML html
    then (say 400 "Email body cannot be empty.", None)
    else
      match to, subject, html with
      | VStr t, VStr s, VStr h =>
          let outgoing :=
            {| msgFrom := js "The Warmthly Desk <desk@warmthly.org>";
               msgTo := [trim t]; msgSubject := substring0 200 (trim s);
               msgHtml := h |} in
          (match emails_send outgoing with
           | Resolved data error =>
               if truthy error then
                 message_response 400
                   (js_or (get_field "message" error)
                      (VStr (js "Failed to send email. Please try again.")))
               else
                 {| status := 200;
                    body := VObj [(js "message", VStr (js "Email sent successfully!"));
                                  (js "data", data)] |}
           | SendThrows _ => say 500 "Internal Server Error. Please try again later."
           end, Some outgoing)
      | _, _, _ => (say 500 "Internal Server Error. Please try again later.", None)
      end) as Hrun.
  { unfold sendEmailHandler. rewrite decide_False by (rewrite Hm; auto).
    rewrite Hkey. subst to subject html. by destruct (reqBody req). }
  rewrite Hrun. clear Hrun.
  assert (∀ s, subject = VStr s → ¬ blank s → subject_missing subject = false) as Hsubject.
  { intros s Hs Hblank. apply not_true_is_false. intros Hmiss.
    apply subject_missing_spec in Hmiss as [Hno | (s' & Hs' & Hb)].
    - by rewrite Hs in Hno.
    - rewrite Hs in Hs'. by injection Hs' as <-. }
  assert (isValidEmail to = true →
          (∃ s, subject = VStr s ∧ ¬ blank s) → isEmptyHTML html = true →
          (if negb (truthy to) || negb (is_string to)
           then (say 400 "Recipient email address is required.", None)
           else if negb (isValidEmail to)
           then (say 400 "Invalid email address format.", None)
           else if subject_missing subject
           then (say 400 "Email subject is required.", None)
           else if isEmptyHTML html
           then (say 400 "Email body cannot be empty.", None)
           else
             match to, subject, html with
             | VStr t, VStr s, VStr h =>
                 let outgoing :=
                   {| msgFrom := js "The Warmthly Desk <desk@warmthly.org>";
                      msgTo := [trim t]; msgSubject := substring0 200 (trim s);
                      msgHtml := h |} in
                 (match emails_send outgoing with
                  | Resolved data error =>
                      if truthy error then
                        message_response 400
                          (js_or (get_field "message" error)
                             (VStr (js "Failed to send email. Please try again.")))
                      else
                        {| status := 200;
                           body := VObj [(js "message",
                                          VStr (js "Email sent successfully!"));
                                         (js "data", data)] |}
                  | SendThrows _ => say 500 "Internal Server Error. Please try again later."
                  end, Some outgoing)
             | _, _, _ => (say 500 "Internal Server Error. Please try again later.", None)
             end)
          = (say 400 "Email body cannot be empty.", None)) as Hempty.
  { intros Hto (s & Hs & Hblank) Hhtml.
    destruct (isValidEmail_string _ Hto) as [-> ->].
    by rewrite Hto, (Hsubject s Hs Hblank), Hhtml. }
  assert (∀ t s h,
            to = VStr t → subject = VStr s → html = VStr h →
            isValidEmail to = true → ¬ blank s → isEmptyHTML html = false →
            ∃ response,
              (if negb (truthy to) || negb (is_string to)
               then (say 400 "Recipient email address is required.", None)
               else if negb (isValidEmail to)
               then (say 400 "Invalid email address format.", None)
               else if subject_missing subject
               then (say 400 "Email subject is required.", None)
               else if isEmptyHTML html
               then (say 400 "Email body cannot be empty.", None)
               else
                 match to, subject, html with
                 | VStr t, VStr s, VStr h =>
                     let outgoing :=
                       {| msgFrom := js "The Warmthly Desk <desk@warmthly.org>";
                          msgTo := [trim t]; msgSubject := substring0 200 (trim s);
                          msgHtml := h |} in
                     (match emails_send outgoing with
                      | Resolved data error =>
                          if truthy error then
                            message_response 400
                              (js_or (get_field "message" error)
                                 (VStr (js "Failed to send email. Please try again.")))
                          else
                            {| status := 200;
                               body := VObj [(js "message",
                                              VStr (js "Email sent successfully!"));
                                             (js "data", data)] |}
                      | SendThrows _ =>
                          say 500 "Internal Server Error. Please try again later."
                      end, Some outgoing)
                 | _, _, _ =>
                     (say 500 "Internal Server Error. Please try again later.", None)
                 end)
              = (response,
                 Some {| msgFrom := js "The Warmthly Desk <desk@warmthly.org>";
                         msgTo := [trim t];
                         msgSubject := substring0 200 (trim s);
                         msgHtml := h |})) as Hpass.
  { intros t s h Ht Hs Hh Hto Hblank Hhtml.
    destruct (isValidEmail_string _ Hto) as [-> ->].
    rewrite Hto, (Hsubject s Hs Hblank), Hhtml, Ht, Hs, Hh. cbn [negb orb].
    by eexists. }
  split; [|split; [|split; [|split; [|split; [|split; [|split; [|split]]]]]]].
  - by intros [-> | ->]; rewrite ?orb_true_r.
  - by intros -> -> ->.
  - by intros ->.
  - intros Hto Hmiss. apply subject_missing_spec in Hmiss.
    destruct (isValidEmail_string _ Hto) as [-> ->]. by rewrite Hto, Hmiss.
  - intros Hto Hsub Hhtml. apply isEmptyHTML_spec in Hhtml. by apply Hempty.
  - intros Hto Hsub Hhtml. apply Hempty; [done..|]. by rewrite Hhtml.
  - intros t s h Ht Hs Hh Hto Hblank Hfull Hnone.
    destruct (Hpass t s h Ht Hs Hh Hto Hblank) as [response Hrun].
    { apply not_true_is_false. intros Hhtml.
      apply isEmptyHTML_spec in Hhtml as [Hno | (h' & Hh' & Hcase)];
        [by rewrite Hh in Hno|].
      rewrite Hh in Hh'. injection Hh' as <-.
      destruct Hcase as [? | (pattern & Hin & Hmatch)]; [done|].
      by apply (Hnone pattern). }
    exists response. split; [exact Hrun|].
    unfold substring0. rewrite length_take. lia.
  - intros t s Ht Hs Hh Hto Hblank.
    apply (Hpass t s _ Ht Hs Hh Hto Hblank). by rewrite Hh.
  - repeat split; vm_compute; reflexivity.
Qed.

Lemma lang_plus_of_class k (s : jsstring) :
  s ≠ [] → Forall (λ c, class_matches k c = true) s → lang (Plus (Chr k)) s.
Proof.
  intros Hne Hall. destruct s as [|c s]; [done|]. clear Hne.
  apply Forall_cons in Hall as [Hc Hs].
  change (c :: s) with ([c] ++ s). apply lang_seq; [by apply lang_chr|].
  induction Hs as [|c' s' Hc' _ IH]; [apply lang_star_nil|].
  change (c' :: s') with ([c'] ++ s'). apply lang_star_cons; [by apply lang_chr | exact IH].
Qed.

Lemma lang_lit (w : string) : lang (lit w) (js w).
Proof.
  unfold lit. induction (js w) as [|c s IH]; simpl; [apply lang_eps|].
  change (c :: s) with ([c] ++ s). apply lang_seq; [|exact IH].
  apply lang_chr. simpl. apply N.eqb_refl.
Qed.

Lemma address_unit_spec c :
  class_matches address_unit c = true ↔ is_space c = false ∧ c ≠ 64%N.
Proof.
  unfold class_matches, address_unit. cbn [existsb atom_matches].
  destruct (is_space c); destruct (N.eqb_spec 64 c) as [<-|Hne]; cbn [negb orb];
    try (split; [discriminate | intros [? ?]; congruence]).
  split; [intros _; split; [reflexivity | congruence] | reflexivity].
Qed.

(** X17: the address check accepts exactly the strings that, once trimmed,
    read [x@y.z] with [x], [y] and [z] not empty and free of white space and
    of [@]; dots may occur in any of the three. *)
Theorem isValidEmail_exactly (s : jsstring) :
  isValidEmail (VStr s) = true ↔
  ∃ x y z, trim s = x ++ [64%N] ++ y ++ [46%N] ++ z ∧
           x ≠ [] ∧ y ≠ [] ∧ z ≠ [] ∧
           Forall (λ c, is_space c = false ∧ c ≠ 64%N) (x ++ y ++ z).
Proof.
  rewrite isValidEmail_trims. split.
  - intros Ht. apply emailRegex_shape in Ht as (x & y & z & Hs & Hx & Hy & Hz & Hall).
    exists x, y, z. repeat split; try done.
    eapply Forall_impl; [exact Hall|]. intros c Hc. by apply address_unit_spec.
  - intros (x & y & z & -> & Hx & Hy & Hz & Hall).
    assert (Forall (λ c, class_matches address_unit c = true) (x ++ y ++ z)) as Hunits.
    { eapply Forall_impl; [exact Hall|]. intros c Hc. by apply address_unit_spec. }
    apply Forall_app in Hunits as [Hxs Hyz]. apply Forall_app in Hyz as [Hys Hzs].
    apply test_lang. unfold emailRegex, seq_all. cbn [foldr].
    apply lang_seq; [by apply lang_plus_of_class|].
    apply lang_seq; [apply (lang_lit "@")|].
    apply lang_seq; [by apply lang_plus_of_class|].
    apply lang_seq; [apply (lang_lit ".")|].
    rewrite <- (app_nil_r z). apply lang_seq; [by apply lang_plus_of_class | apply lang_eps].
Qed.

(** X18: the provider is handed a message only after every check has
    passed.  If the handler called the provider with [m], then the method was
    POST, the provider key was configured, the three fields were strings, the
    recipient of [m] is the trimmed address and matches the address pattern,
    the subject of [m] is the trimmed subject cut to 200 units, is not empty
    and does not start with white space, the body of [m] is the html as sent
    and is not empty-looking, and the answer is decided by the provider alone:
    400 with its message (or the default one) when it reports an error, 200
    with its data otherwise, 500 when it raises. *)
Theorem sendEmailHandler_hands_over_only_valid env req m :
  (sendEmailHandler env req).2 = Some m →
  SendEmail.method req = js "POST" ∧
  env_missing (RESEND_API_KEY env) = false ∧
  ∃ to subject html,
    get_field "to" (reqBody req) = VStr to ∧
    get_field "subject" (reqBody req) = VStr subject ∧
    get_field "html" (reqBody req) = VStr html ∧
    m = {| msgFrom := js "The Warmthly Desk <desk@warmthly.org>";
           msgTo := [trim to];
           msgSubject := substring0 200 (trim subject);
           msgHtml := html |} ∧
    test emailRegex (trim to) = true ∧
    msgSubject m ≠ [] ∧ (length (msgSubject m) ≤ 200)%nat ∧
    (∀ c t, msgSubject m = c :: t → is_space c = false) ∧
    isEmptyHTML (VStr html) = false ∧
    (sendEmailHandler env req).1 =
      match emails_send m with
      | Resolved data error =>
          if truthy error then
            message_response 400
              (js_or (get_field "message" error)
                 (VStr (js "Failed to send email. Please try again.")))
          else {| status := 200;
                  body := VObj [(js "message", VStr (js "Email sent successfully!"));
                                (js "data", data)] |}
      | SendThrows _ => say 500 "Internal Server Error. Please try again later."
      end.
Proof.
  assert (∀ (vto vsubject vhtml : jsval) (chain : Response * option OutboundMessage),
    chain =
      (if negb (truthy vto) || negb (is_string vto)
       then (say 400 "Recipient email address is required.", None)
       else if negb (isValidEmail vto)
       then (say 400 "Invalid email address format.", None)
       else if subject_missing vsubject
       then (say 400 "Email subject is required.", None)
       else if isEmptyHTML vhtml
       then (say 400 "Email body cannot be empty.", None)
       else
         match vto, vsubject, vhtml with
         | VStr to, VStr subject, VStr html =>
             let outgoing :=
               {| msgFrom := js "The Warmthly Desk <desk@warmthly.org>";
                  msgTo := [trim to]; msgSubject := substring0 200 (trim subject);
                  msgHtml := html |} in
             (match emails_send outgoing with
              | Resolved data error =>
                  if truthy error then
                    message_response 400
                      (js_or (get_field "message" error)
                         (VStr (js "Failed to send email. Please try again.")))
                  else {| status := 200;
                          body := VObj [(js "message", VStr (js "Email sent successfully!"));
                                        (js "data", data)] |}
              | SendThrows _ => say 500 "Internal Server Error. Please try again later."
              end, Some outgoing)
         | _, _, _ => (say 500 "Internal Server Error. Please try again later.", None)
         end) →
    chain.2 = Some m →
    ∃ to subject html,
      vto = VStr to ∧ vsubject = VStr subject ∧ vhtml = VStr html ∧
      m = {| msgFrom := js "The Warmthly Desk <desk@warmthly.org>";
             msgTo := [trim to];
             msgSubject := substring0 200 (trim subject);
             msgHtml := html |} ∧
      test emailRegex (trim to) = true ∧
      msgSubject m ≠ [] ∧ (length (msgSubject m) ≤ 200)%nat ∧
      (∀ c t, msgSubject m = c :: t → is_space c = false) ∧
      isEmptyHTML (VStr html) = false ∧
      chain.1 =
        match emails_send m with
        | Resolved data error =>
            if truthy error then
              message_response 400
                (js_or (get_field "message" error)
                   (VStr (js "Failed to send email. Please try again.")))
            else {| status := 200;
                    body := VObj [(js "message", VStr (js "Email sent successfully!"));
                                  (js "data", data)] |}
        | SendThrows _ => say 500 "Internal Server Error. Please try again later."
        end) as Hcore.
  { intros vto vsubject vhtml chain ->.
    destruct (negb (truthy vto) || negb (is_string vto)); [discriminate|].
    destruct (isValidEmail vto) eqn:Hto; [|discriminate].
    destruct (subject_missing vsubject) eqn:Hsub; [discriminate|].
    destruct (isEmptyHTML vhtml) eqn:Hhtml; [discriminate|]. cbn [negb].
    destruct vto as [| | | |to| |]; try discriminate.
    destruct vsubject as [| | | |subject| |]; try discriminate.
    destruct vhtml as [| | | |html| |]; try discriminate.
    cbv zeta. cbn [fst snd].
    remember (substring0 200 (trim subject)) as cut eqn:Hcut.
    intros [= <-]. exists to, subject, html.
    assert (trim subject ≠ []) as Hne.
    { intros Hz. apply subject_missing_blank in Hz. congruence. }
    cbn [msgSubject]. rewrite Hcut. clear Hcut. unfold substring0.
    do 4 (split; [reflexivity|]).
    split; [by rewrite <- isValidEmail_trims|].
    split; [by destruct (trim subject)|].
    split; [rewrite length_take; lia|].
    split; [|split; [exact Hhtml | reflexivity]].
    intros c t Ht. destruct (trim subject) as [|c' t'] eqn:Etrim; [done|].
    injection Ht as -> _. by apply (proj1 (trim_edges subject) c t'). }
  unfold sendEmailHandler. cbv zeta.
  case_decide as Hm; [discriminate|].
  destruct (env_missing (RESEND_API_KEY env)) eqn:Hkey; [discriminate|].
  intros Hsome. split; [exact Hm|]. split; [reflexivity|].
  destruct (reqBody req) eqn:Hb; try discriminate Hsome;
    by eapply Hcore.
Qed.

Lemma lang_lit_i (w : string) : lang (lit_i w) (js w).
Proof.
  unfold lit_i. induction (js w) as [|c s IH]; simpl; [apply lang_eps|].
  change (c :: s) with ([c] ++ s). apply lang_seq; [|exact IH].
  apply lang_chr. simpl. apply N.eqb_refl.
Qed.

Lemma lang_spaces (ws : jsstring) :
  Forall (λ c, is_space c = true) ws → lang spaces ws.
Proof.
  induction 1 as [|c ws Hc _ IH]; [apply lang_star_nil|].
  change (c :: ws) with ([c] ++ ws). apply lang_star_cons; [by apply lang_chr | exact IH].
Qed.

Lemma trim_tight (c d : N) (s : jsstring) :
  is_space c = false → is_space d = false → trim (c :: s ++ [d]) = c :: s ++ [d].
Proof.
  intros Hc Hd. unfold trim. simpl. rewrite Hc. unfold trim_end.
  change (c :: s ++ [d]) with ((c :: s) ++ [d]).
  rewrite rev_app_distr. simpl. rewrite Hd. simpl.
  by rewrite rev_app_distr, rev_involutive.
Qed.

Lemma tight_paragraph (o c ws : jsstring) :
  trim ((60%N :: o) ++ ws ++ (c ++ [62%N])) = (60%N :: o) ++ ws ++ (c ++ [62%N]).
Proof.
  replace ((60%N :: o) ++ ws ++ (c ++ [62%N])) with (60%N :: (o ++ ws ++ c) ++ [62%N])
    by (simpl; by rewrite <- !app_assoc).
  by apply trim_tight.
Qed.

(** Every unit of a word of a pattern is matched by one of its positions. *)
Lemma lang_classes r s :
  lang r s → Forall (λ c, existsb (λ k, class_matches k c) (classes r) = true) s.
Proof.
  induction 1; simpl; try constructor.
  - by rewrite H0.
  - constructor.
  - apply Forall_app. split.
    + eapply Forall_impl; [exact IHlang1|]. intros c Hc. rewrite existsb_app, Hc. done.
    + eapply Forall_impl; [exact IHlang2|]. intros c Hc.
      rewrite existsb_app, Hc. apply orb_true_r.
  - eapply Forall_impl; [exact IHlang|]. intros c Hc. by rewrite existsb_app, Hc.
  - eapply Forall_impl; [exact IHlang|]. intros c Hc.
    rewrite existsb_app, Hc. apply orb_true_r.
  - apply Forall_app. split; [exact IHlang1 | exact IHlang2].
Qed.

Lemma markup_class_unit k c :
  markup_class k = true → class_matches k c = true → markup_unit c = true.
Proof.
  unfold markup_unit, markup_class.
  destruct k as [[x|]|x|atoms]; try discriminate.
  - intros _ Hc. cbn [class_matches atom_matches] in Hc. by rewrite Hc.
  - intros Hx Hc. cbn [class_matches] in Hc.
    apply existsb_exists in Hx as (y & Hy & Heq). apply N.eqb_eq in Heq. subst y.
    apply orb_true_iff. right. apply existsb_exists. eauto.
Qed.

(** X19: what counts as an empty body.  White space around the html does
    not change the verdict; a paragraph that holds nothing but white space is
    empty, whatever the amount and the case of the tags; and an html that is
    judged empty consists, once trimmed, only of white space and of the
    characters [< > / p b r & n s ;] in either case - so an html with any
    other character is never rejected as empty. *)
Theorem isEmptyHTML_scope :
  (∀ pre s post,
     Forall (λ c, is_space c = true) pre → Forall (λ c, is_space c = true) post →
     isEmptyHTML (VStr (pre ++ s ++ post)) = isEmptyHTML (VStr s)) ∧
  (∀ ws, Forall (λ c, is_space c = true) ws →
     isEmptyHTML (VStr (js "<p>" ++ ws ++ js "</p>")) = true ∧
     isEmptyHTML (VStr (js "<P>" ++ ws ++ js "</P>")) = true) ∧
  (∀ s, isEmptyHTML (VStr s) = true →
     Forall (λ c, markup_unit c = true) (trim s)).
Proof.
  split; [|split].
  - intros pre s post Hpre Hpost. unfold isEmptyHTML. by rewrite trim_padded.
  - assert (∀ (o c : string) ws, Forall (λ c, is_space c = true) ws →
       js o = js "<p>" ∨ js o = js "<P>" → js c = js "</p>" ∨ js c = js "</P>" →
       isEmptyHTML (VStr (js o ++ ws ++ js c)) = true) as Hpar.
    { intros o c ws Hws Ho Hc. unfold isEmptyHTML.
      assert (trim (js o ++ ws ++ js c) = js o ++ ws ++ js c) as ->.
      { destruct Ho as [-> | ->], Hc as [-> | ->].
        - exact (tight_paragraph (js "p>") (js "</p") ws).
        - exact (tight_paragraph (js "p>") (js "</P") ws).
        - exact (tight_paragraph (js "P>") (js "</p") ws).
        - exact (tight_paragraph (js "P>") (js "</P") ws). }
      assert (test (seq_all [lit_i "<p>"; spaces; lit_i "</p>"]) (js o ++ ws ++ js c) = true)
        as Hfirst.
      { apply test_lang. unfold seq_all. cbn [foldr].
        apply lang_seq.
        - destruct Ho as [-> | ->]; [apply lang_lit_i|].
          apply test_lang. reflexivity.
        - apply lang_seq; [by apply lang_spaces|].
          rewrite <- (app_nil_r (js c)). apply lang_seq; [|apply lang_eps].
          destruct Hc as [-> | ->]; [apply lang_lit_i|].
          apply test_lang. reflexivity. }
      destruct (js o ++ ws ++ js c) eqn:E; [reflexivity|].
      unfold emptyPatterns. cbn [existsb]. by rewrite Hfirst. }
    intros ws Hws. split; apply Hpar; auto.
  - intros s. unfold isEmptyHTML.
    destruct (trim s) as [|c t] eqn:Ht; [constructor|].
    intros Hsome. apply existsb_exists in Hsome as (pattern & Hin & Htest).
    apply test_lang, lang_classes in Htest.
    eapply Forall_impl; [exact Htest|]. intros u Hu.
    apply existsb_exists in Hu as (k & Hk & Hmatch).
    apply (markup_class_unit k u); [|exact Hmatch].
    assert (forallb (λ p, forallb markup_class (classes p)) emptyPatterns = true) as Hall
      by (vm_compute; reflexivity).
    rewrite forallb_forall in Hall. specialize (Hall pattern Hin).
    rewrite forallb_forall in Hall. by apply Hall.
Qed.

End SendFacts.

(** ** The model on concrete inputs *)

Section Samples.

(** An accented letter, a surrogate pair, a lone surrogate, the euro sign. *)
Example utf8_sample :
  Credentials.Buffer_from_utf8 [233; 55357; 56832; 55357; 8364]%N
  = [195; 169; 240; 159; 152; 128; 239; 191; 189; 226; 130; 172]%N.
Proof. reflexivity. Qed.

(** Two different lone surrogates have the same bytes: the check compares
    the encodings, not the strings. *)
Example lone_surrogates_compare_equal :
  Credentials.constantTimeCompare (Some [55296%N]) (Some [55297%N]) = true.
Proof. reflexivity. Qed.

Example identifier_sample :
  RateLimit.key Scenario.caller = js "203.0.113.7:/api/login".
Proof. reflexivity. Qed.

Example identifier_fallbacks :
  RateLimit.identifier
    {| RateLimit.url := js "/"; RateLimit.x_forwarded_for := Some (js " , 10.0.0.1");
       RateLimit.x_real_ip := Some []; RateLimit.remoteAddress := None |}
  = js "unknown".
Proof. reflexivity. Qed.

Example empty_html_samples :
  SendEmail.isEmptyHTML <$>
    [VStr (js "<p></p>"); VStr (js " <P> <br />  </p> "); VStr (js "<p>&NBSP;</p>");
     VStr (js "<p><br/ ></p>"); VStr (js "<p>hello</p>"); VStr []; VUndefined; VNum 3]
  = [true; true; true; false; false; true; true; true].
Proof. vm_compute. reflexivity. Qed.

Example address_samples :
  SendEmail.isValidEmail <$>
    [VStr (js "not-an-email"); VStr (js " a@b.co "); VStr (js "a@b");
     VStr (js "a@b@c.d"); VStr (js "a b@c.d"); VStr (js "a@b.c.d"); VNull]
  = [false; true; false; false; false; true; false].
Proof. vm_compute. reflexivity. Qed.

Example isoString_samples :
  Reference.isoString <$> [0; 951782400000; 1700000000000]
  = [js "1970-01-01T00:00:00.000Z"; js "2000-02-29T00:00:00.000Z";
     js "2023-11-14T22:13:20.000Z"].
Proof. vm_compute. reflexivity. Qed.

Example parse_samples :
  Reference.parse <$> [js "[1, -20, true, null]"; js " { } "; js "{not json"; js "01"; js "[]x"]
  = [Some (VArr [VNum 1; VNum (-20); VBool true; VNull]); Some (VObj []); None; None; None].
Proof. vm_compute. reflexivity. Qed.

Example stored_record_round_trip :
  Reference.parse (Reference.stringify Scenario.bare_record) = Some Scenario.bare_record.
Proof. vm_compute. reflexivity. Qed.

End Samples.

(** ** The handlers on the scenario *)

Section Runs.
#[local] Existing Instance Reference.collaborators.

Lemma scenario_signed_in :
  GetEmails.signed_in Scenario.read_time Scenario.env Scenario.reader.
Proof.
  exists (js "Bearer " ++ Scenario.session), (js "signing-key"),
    (Jwt.sign_token Scenario.login_time Scenario.admin (js "signing-key") Jwt.eight_hours).
  repeat split; try discriminate; vm_compute; reflexivity.
Qed.

(** The first mail is pushed, then the second; the read lists the first
    before the second. *)
Lemma list_read_puts_newest_last_witness :
  GetEmails.getEmailsHandler Scenario.read_time Scenario.env
    (Scenario.holding (Redis.ListKey [Scenario.second_mail; Scenario.first_mail]))
    None Scenario.reader
  = ({| status := 200; body := VArr [Scenario.first_record; Scenario.second_record] |},
     Some Scenario.client).
Proof.
  refine (eq_trans
    (list_read_puts_newest_last Scenario.read_time Scenario.env
       (Scenario.holding (Redis.ListKey [Scenario.first_mail]))
       (Scenario.holding (Redis.ListKey [Scenario.second_mail; Scenario.first_mail]))
       None (Some Scenario.client) Scenario.reader Scenario.client
       Scenario.second_mail 2 Scenario.second_record
       scenario_signed_in _ _ _ _) _);
    vm_compute; reflexivity.
Defined.

Lemma list_read_tolerates_shapes_witness :
  GetEmails.getEmailsHandler Scenario.read_time Scenario.env
    (Scenario.holding Redis.OtherKey) None Scenario.reader
  = ({| status := 200; body := VArr [] |}, Some Scenario.client) ∧
  ∃ records,
    GetEmails.getEmailsHandler Scenario.read_time Scenario.env
      (Scenario.holding
         (Redis.ListKey [Scenario.second_mail; Scenario.garbage; Scenario.first_mail]))
      None Scenario.reader
    = ({| status := 200; body := VArr records |}, Some Scenario.client) ∧
    length records = 2%nat ∧
    records = [Scenario.first_record; Scenario.second_record].
Proof.
  split.
  - apply (list_read_tolerates_shapes Scenario.read_time Scenario.env
             (Scenario.holding Redis.OtherKey) None (Some Scenario.client)
             Scenario.reader Scenario.client scenario_signed_in eq_refl);
      [reflexivity | right; reflexivity].
  - destruct (list_read_tolerates_shapes Scenario.read_time Scenario.env
                (Scenario.holding
                   (Redis.ListKey [Scenario.second_mail; Scenario.garbage; Scenario.first_mail]))
                None (Some Scenario.client) Scenario.reader Scenario.client
                scenario_signed_in eq_refl) as (_ & _ & _ & Hpoison).
    destruct (Hpoison [Scenario.second_mail] Scenario.garbage [Scenario.first_mail])
      as (records & Hread & Hlen & Hrecords).
    + reflexivity.
    + reflexivity.
    + simpl. lia.
    + vm_compute. reflexivity.
    + repeat constructor; eexists; split; vm_compute; reflexivity.
    + exists records. split; [exact Hread|]. split; [exact Hlen|].
      rewrite Hrecords. vm_compute. reflexivity.
Defined.

(** A token issued 999 ms into a second is refused 999 ms before its eight
    hours are over. *)
Lemma session_token_refused_early :
  28800000 < 999 + 28800000 ∧
  Jwt.verify_token 28800000
    (Jwt.sign_token 999 Scenario.admin (js "signing-key") Jwt.eight_hours)
    (js "signing-key")
  = Throw Jwt.jwt_expired.
Proof. split; [lia | vm_compute; reflexivity]. Qed.

(** The same token one minute before and one minute after its eight hours. *)
Lemma session_token_lifetime_witness :
  Jwt.verify_token (999 + 28800000 - 60000)
    (Jwt.sign_token 999 Scenario.admin (js "signing-key") Jwt.eight_hours)
    (js "signing-key")
  = Ok (Jwt.sign_token 999 Scenario.admin (js "signing-key") Jwt.eight_hours) ∧
  Jwt.verify_token (999 + 28800000 + 60000)
    (Jwt.sign_token 999 Scenario.admin (js "signing-key") Jwt.eight_hours)
    (js "signing-key")
  = Throw Jwt.jwt_expired.
Proof.
  split.
  - apply (session_token_lifetime 999 (999 + 28800000 - 60000) (js "signing-key")). lia.
  - apply (session_token_lifetime 999 (999 + 28800000 + 60000) (js "signing-key")). lia.
Defined.

Lemma webhook_refused_before_trust_witness :
  InboundEmail.handler Scenario.delivery_time Scenario.without_webhook_secret
    (Scenario.holding (Redis.ListKey [Scenario.first_mail])) None Scenario.delivery
  = (error_response 500 "Webhook verification not configured", None,
     Scenario.holding (Redis.ListKey [Scenario.first_mail])) ∧
  InboundEmail.handler Scenario.delivery_time Scenario.env
    (Scenario.holding (Redis.ListKey [Scenario.first_mail])) None Scenario.tampered
  = (error_response 401 "Webhook verification failed.", None,
     Scenario.holding (Redis.ListKey [Scenario.first_mail])).
Proof.
  split.
  - apply (webhook_refused_before_trust Scenario.delivery_time
             Scenario.without_webhook_secret
             (Scenario.holding (Redis.ListKey [Scenario.first_mail])) None
             Scenario.delivery _ eq_refl eq_refl).
    reflexivity.
  - destruct (webhook_refused_before_trust Scenario.delivery_time Scenario.env
                (Scenario.holding (Redis.ListKey [Scenario.first_mail])) None
                Scenario.tampered _ eq_refl eq_refl) as (_ & Hrefused & _).
    apply (Hrefused (js "whsec_test")).
    + reflexivity.
    + discriminate.
    + vm_compute. reflexivity.
Defined.

Lemma ingestion_fills_missing_fields_witness :
  ∃ srv',
    InboundEmail.handler Scenario.delivery_time Scenario.env
      (Scenario.holding (Redis.ListKey [Scenario.first_mail])) None Scenario.delivery
    = (InboundEmail.processed, Some Scenario.client, srv') ∧
    Redis.emails srv'
    = Redis.ListKey [Reference.stringify Scenario.bare_record; Scenario.first_mail].
Proof.
  destruct (ingestion_fills_missing_fields Scenario.delivery_time Scenario.env
              (Scenario.holding (Redis.ListKey [Scenario.first_mail])) None
              Scenario.delivery (Reference.stringify Scenario.bare_event)
              (js "whsec_test") Scenario.bare_event Scenario.client (Some Scenario.client))
    as [(srv' & Hrun & Hstored) _];
    try (vm_compute; (reflexivity || discriminate)).
  - left. reflexivity.
  - exists srv'. split; [exact Hrun|]. rewrite Hstored. vm_compute. reflexivity.
Defined.

(** The letter is handed over; a subject of blanks, an empty paragraph and a
    recipient that is no address are each answered with their 400. *)
Lemma send_validates_in_order_witness :
  (∃ response,
     SendEmail.sendEmailHandler Scenario.env Scenario.letter =
       (response,
        Some {| msgFrom := js "The Warmthly Desk <desk@warmthly.org>";
                msgTo := [js "dana@example.org"];
                msgSubject := js "Welcome";
                msgHtml := js "<p>hello</p>" |})) ∧
  SendEmail.sendEmailHandler Scenario.env Scenario.blank_subject
  = (SendEmail.say 400 "Email subject is required.", None) ∧
  SendEmail.sendEmailHandler Scenario.env Scenario.empty_paragraph
  = (SendEmail.say 400 "Email body cannot be empty.", None) ∧
  SendEmail.sendEmailHandler Scenario.env Scenario.no_address
  = (SendEmail.say 400 "Invalid email address format.", None).
Proof.
  destruct (send_validates_in_order Scenario.env Scenario.letter
              eq_refl eq_refl eq_refl eq_refl) as (_ & _ & _ & _ & _ & _ & _ & Hpass & _).
  destruct (send_validates_in_order Scenario.env Scenario.blank_subject
              eq_refl eq_refl eq_refl eq_refl) as (_ & _ & _ & Hsubject & _).
  destruct (send_validates_in_order Scenario.env Scenario.empty_paragraph
              eq_refl eq_refl eq_refl eq_refl) as (_ & _ & _ & _ & _ & Hbody & _).
  destruct (send_validates_in_order Scenario.env Scenario.no_address
              eq_refl eq_refl eq_refl eq_refl) as (_ & _ & Hto & _).
  split; [|split; [|split]].
  - destruct (Hpass (js " dana@example.org ") (js "  Welcome  "))
      as (response & Hrun); try (vm_compute; reflexivity).
    + intros Hblank. apply trim_blank in Hblank. vm_compute in Hblank. discriminate.
    + exists response. rewrite Hrun. vm_compute. reflexivity.
  - apply Hsubject; [vm_compute; reflexivity|].
    right. exists (js "   "). split; [reflexivity|].
    apply trim_blank. vm_compute. reflexivity.
  - apply Hbody; [vm_compute; reflexivity | | reflexivity].
    exists (js "Welcome"). split; [reflexivity|].
    intros Hblank. apply trim_blank in Hblank. vm_compute in Hblank. discriminate.
  - apply Hto. reflexivity.
Defined.

Lemma address_needs_dotted_domain_witness :
  SendEmail.isValidEmail (VStr (js "a@b")) = false ∧
  SendEmail.sendEmailHandler Scenario.env Scenario.undotted
  = (SendEmail.say 400 "Invalid email address format.", None).
Proof.
  destruct (address_needs_dotted_domain (js "a") (js "b")) as (Hinvalid & Hsend & _).
  - intros Hin. apply list_elem_of_singleton in Hin. discriminate.
  - split; [exact Hinvalid|].
    by apply (Hsend Scenario.env Scenario.undotted
                [(js "to", VStr (js "a@b")); (js "subject", VStr (js "Welcome"));
                 (js "html", VStr (js "<p>hello</p>"))]).
Defined.

(** Nine hours after the login the session is answered as an invalid token. *)
Lemma expired_token_reads_invalid_witness :
  GetEmails.getEmailsHandler (Scenario.login_time + 9 * 3600000) Scenario.env
    (Scenario.holding (Redis.ListKey [Scenario.first_mail])) None Scenario.reader
  = (error_response 401 "Invalid token.", None).
Proof.
  apply (expired_token_reads_invalid (Scenario.login_time + 9 * 3600000) Scenario.env
           (Scenario.holding (Redis.ListKey [Scenario.first_mail])) None Scenario.reader
           (js "Bearer " ++ Scenario.session) (js "signing-key"));
    try discriminate; vm_compute; reflexivity.
Defined.

Lemma ingestion_needs_string_subject_witness :
  InboundEmail.handler Scenario.delivery_time Scenario.env
    (Scenario.holding (Redis.ListKey [Scenario.first_mail])) None Scenario.numbered_delivery
  = (InboundEmail.on_error Scenario.env
       (InboundEmail.not_a_function "emailToStore.subject.substring is not a function"),
     Some Scenario.client, Scenario.holding (Redis.ListKey [Scenario.first_mail])).
Proof.
  apply (ingestion_needs_string_subject Scenario.delivery_time Scenario.env
           (Scenario.holding (Redis.ListKey [Scenario.first_mail])) None
           Scenario.numbered_delivery (Reference.stringify Scenario.numbered_event)
           (js "whsec_test") Scenario.numbered_event Scenario.client (Some Scenario.client));
    try discriminate; vm_compute; reflexivity.
Defined.

(** *** The further properties on the scenario *)


Lemma checkRateLimit_count_bounds_witness :
  ∃ e',
    (RateLimit.checkRateLimit 600 600 Scenario.caller Scenario.two_per_second
       Scenario.busy_store).2 !! RateLimit.key Scenario.caller = Some e' ∧
    1 ≤ RateLimit.count e' ≤ 2.
Proof.
  destruct (checkRateLimit_count_bounds 600 600 Scenario.caller Scenario.two_per_second
              Scenario.busy_store) as (e' & He' & Hbounds & _).
  - vm_compute. discriminate.
  - intros e He. vm_compute in He. injection He as <-.
    split; vm_compute; discriminate.
  - exists e'. split; [exact He' | exact Hbounds].
Defined.

Lemma limited_rejects_exactly_witness :
  ∃ e, Scenario.busy_store !! RateLimit.key Scenario.caller = Some e ∧
    Governor.limited (Login.loginHandler 600 Scenario.env Scenario.sign_in) 600 600
      Scenario.caller Scenario.two_per_second Scenario.busy_store
    = ([(js "X-RateLimit-Limit", VNum 2);
        (js "X-RateLimit-Remaining", VNum 0);
        (js "X-RateLimit-Reset", VStr (js "1970-01-01T00:00:01.000Z"));
        (js "Retry-After", VNum 1)],
       inl {| status := 429;
              body := VObj [(js "error",
                             VStr (js "Too many requests, please try again later."))] |},
       RateLimit.cleanup 600 Scenario.busy_store).
Proof.
  destruct (limited_rejects_exactly (Login.loginHandler 600 Scenario.env Scenario.sign_in)
              600 600 Scenario.caller Scenario.two_per_second Scenario.busy_store)
    as [Hreject _].
  destruct Hreject as (e & He & Hrun & _).
  - exists {| RateLimit.count := 2; RateLimit.resetTime := 1000 |}.
    repeat split; vm_compute; (reflexivity || discriminate).
  - exists e. split; [exact He|]. rewrite Hrun.
    vm_compute in He. injection He as <-. vm_compute. reflexivity.
Defined.

(** Five attempts at the login route, then the right password. *)
Lemma limited_locks_out_witness :
  ∃ headers store',
    Governor.limited (Login.loginHandler 5 Scenario.env Scenario.sign_in) 5 5
      Scenario.caller RateLimit.loginRateLimitOptions
      (RateLimit.requests [(0, 0); (1, 1); (2, 2); (3, 3); (4, 4)] Scenario.caller
         RateLimit.loginRateLimitOptions ∅).2
    = (headers,
       inl {| status := 429;
              body := VObj [(js "error",
                             VStr (js "Too many login attempts, please try again later."))] |},
       store').
Proof.
  apply (limited_locks_out (Login.loginHandler 5 Scenario.env Scenario.sign_in)
           Scenario.caller RateLimit.loginRateLimitOptions ∅ 0 0
           [(1, 1); (2, 2); (3, 3); (4, 4)] 5 5).
  - vm_compute. discriminate.
  - rewrite lookup_empty. exact I.
  - reflexivity.
  - repeat constructor; vm_compute; discriminate.
  - vm_compute. discriminate.
  - vm_compute. discriminate.
Defined.

(** The bytes of the password sent as an array of numbers are answered with
    the token; a POST without a body raises. *)
Lemma loginHandler_grants_only_matching_witness :
  Login.loginHandler Scenario.login_time Scenario.env Scenario.byte_login
  = Ok {| status := 200; body := VObj [(js "token", VStr Scenario.session)] |} ∧
  ∃ e, Login.loginHandler Scenario.login_time Scenario.env Scenario.bodiless_login
       = Throw e ∧ errClass e = TypeError.
Proof.
  destruct (loginHandler_grants_only_matching Scenario.login_time Scenario.env
              Scenario.byte_login) as (_ & _ & _ & Harray & _).
  destruct (loginHandler_grants_only_matching Scenario.login_time Scenario.env
              Scenario.bodiless_login) as (_ & _ & _ & _ & Hraise).
  split.
  - rewrite (Harray (js "correct horse") (js "signing-key"));
      try (vm_compute; (reflexivity || discriminate)).
    vm_compute. repeat first [apply Forall_nil_2 | apply Forall_cons_2; [reflexivity|]].
  - apply Hraise; [reflexivity | left; reflexivity].
Defined.

Lemma constantTimeCompare_exact_witness :
  Credentials.constantTimeCompare (Some (js "correct horse")) (Some (js "correct horsf")) = true
  ↔ js "correct horse" = js "correct horsf" ∧ js "correct horse" ≠ [].
Proof.
  apply (constantTimeCompare_exact (js "correct horse") (js "correct horsf")); reflexivity.
Defined.

Lemma login_token_opens_list_read_witness :
  Login.loginHandler Scenario.login_time Scenario.env Scenario.sign_in
  = Ok {| status := 200; body := VObj [(js "token", VStr Scenario.session)] |} ∧
  GetEmails.signed_in Scenario.read_time Scenario.env Scenario.reader.
Proof.
  destruct (login_token_opens_list_read Scenario.login_time Scenario.read_time Scenario.env
              (Scenario.holding Redis.NoKey) None (js "correct horse") (js "correct horse")
              (js "signing-key")) as (Hlogin & Hopen & _);
    [solve [vm_compute; (reflexivity || discriminate)] .. | |].
  - apply (bool_decide_unpack _). vm_compute. exact I.
  - split; [exact Hlogin|]. apply Hopen. vm_compute. reflexivity.
Defined.

Lemma getEmailsHandler_hides_details_witness :
  get_field "details"
    (body (GetEmails.getEmailsHandler Scenario.read_time Scenario.env Scenario.unreachable
             None Scenario.reader).1)
  = VUndefined.
Proof.
  apply (getEmailsHandler_hides_details Scenario.read_time Scenario.env Scenario.unreachable
           None Scenario.reader).
  discriminate.
Defined.

Lemma handler_discards_other_events_witness :
  InboundEmail.handler Scenario.delivery_time Scenario.env Scenario.unreachable None
    Scenario.other_delivery
  = (InboundEmail.processed, None, Scenario.unreachable).
Proof.
  apply (handler_discards_other_events Scenario.delivery_time Scenario.env
           Scenario.unreachable None Scenario.other_delivery
           (Reference.stringify Scenario.other_event) (js "whsec_test") Scenario.other_event);
    try discriminate; vm_compute; reflexivity.
Defined.

Lemma handler_ingests_duplicates_witness :
  ∃ srv1 srv2,
    InboundEmail.handler Scenario.delivery_time Scenario.env
      (Scenario.holding (Redis.ListKey [Scenario.first_mail])) None Scenario.delivery
    = (InboundEmail.processed, Some Scenario.client, srv1) ∧
    InboundEmail.handler Scenario.delivery_time Scenario.env srv1 (Some Scenario.client)
      Scenario.delivery
    = (InboundEmail.processed, Some Scenario.client, srv2) ∧
    Redis.emails srv2
    = Redis.ListKey [Reference.stringify Scenario.bare_record;
                     Reference.stringify Scenario.bare_record; Scenario.first_mail].
Proof.
  destruct (handler_ingests_duplicates Scenario.delivery_time Scenario.delivery_time
              Scenario.env (Scenario.holding (Redis.ListKey [Scenario.first_mail])) None
              Scenario.delivery (Reference.stringify Scenario.bare_event)
              (js "whsec_test") Scenario.bare_event Scenario.client (Some Scenario.client))
    as (srv1 & srv2 & H1 & H2 & H3);
    [first [by left | solve [vm_compute; (reflexivity || discriminate)]] .. |].
  exists srv1, srv2. split; [exact H1|]. split; [exact H2|].
    rewrite H3. vm_compute. reflexivity.
Defined.

Lemma handler_hides_details_witness :
  get_field "details"
    (body (InboundEmail.handler Scenario.delivery_time Scenario.env Scenario.unreachable
             None Scenario.delivery).1.1)
  = VUndefined.
Proof.
  apply (handler_hides_details Scenario.delivery_time Scenario.env Scenario.unreachable
           None Scenario.delivery).
  discriminate.
Defined.

Lemma ingested_record_is_listed_witness :
  ∃ srv',
    InboundEmail.handler Scenario.delivery_time Scenario.env
      (Scenario.holding (Redis.ListKey [Scenario.first_mail])) None Scenario.delivery
    = (InboundEmail.processed, Some Scenario.client, srv') ∧
    GetEmails.getEmailsHandler Scenario.read_time Scenario.env srv' None Scenario.reader
    = ({| status := 200; body := VArr [Scenario.first_record; Scenario.bare_record] |},
       Some Scenario.client).
Proof.
  destruct (ingested_record_is_listed Scenario.delivery_time Scenario.read_time
              Scenario.env (Scenario.holding (Redis.ListKey [Scenario.first_mail])) None
              Scenario.delivery (Reference.stringify Scenario.bare_event)
              (js "whsec_test") Scenario.bare_event Scenario.client (Some Scenario.client)
              Scenario.reader None Scenario.client (Some Scenario.client))
    as (srv' & Hstore & Hread);
    [first [exact scenario_signed_in | by left
           | solve [vm_compute; (reflexivity || discriminate)]] .. |].
  exists srv'. split; [exact Hstore|]. rewrite Hread. vm_compute. reflexivity.
Defined.

Lemma sendEmailHandler_hands_over_only_valid_witness :
  Regex.test SendEmail.emailRegex (js "dana@example.org") = true ∧
  SendEmail.isEmptyHTML (VStr (js "<p>hello</p>")) = false.
Proof.
  destruct (sendEmailHandler_hands_over_only_valid Scenario.env Scenario.letter
              {| msgFrom := js "The Warmthly Desk <desk@warmthly.org>";
                 msgTo := [js "dana@example.org"];
                 msgSubject := js "Welcome";
                 msgHtml := js "<p>hello</p>" |})
    as (_ & _ & to & subject & html & Hto & _ & Hhtml & _ & Hvalid & _ & _ & _ & Hbody & _).
  - vm_compute. reflexivity.
  - vm_compute in Hto. injection Hto as <-.
    vm_compute in Hhtml. injection Hhtml as <-.
    split; [exact Hvalid | exact Hbody].
Defined.

End Runs.
